(** * Bridge Watcher: a shallow embedding of the safe layer and the watcher

    The development follows the TypeScript sources:
    - [src/safe/streamScanner.ts]  (module [Scanner])
    - [src/safe/fsSafe.ts]         (module [FsSafe])
    - [src/watcher/safety.ts]      (module [Safety])
    - [src/watcher/logcap.ts]      (module [LogCap])
    - [src/watcher/task.ts]        (module [Task])
    - [src/watcher/lock.ts], [src/watcher/loop.ts], [src/watcher/result.ts]
    - [src/runner/types.ts], [src/runner/dockerRunner.ts] (module [Runner])
    - [src/watcher/loop.ts], [init]  (module [WatcherInit])
    - [src/watcher/lock.ts], the task locks  (module [LockFile])
    - [src/watcher/safety.ts], the secretless contract and the checks
      that ask git  (modules [SecretFiles], [Preflight])
    - [src/cli.ts], [parseArgs]  (module [Cli])

    JavaScript strings are modelled by [string]: a sequence of code units,
    restricted to the code units U+0000 .. U+00FF.  JavaScript numbers that
    the code only uses as integers are modelled by [Z] or [nat].

    The file has three parts: the embedding of the program, the terms that
    the statements use, and the facts. *)

From Stdlib Require Import ZArith NArith Lia Bool List Ascii String DecimalString.
From stdpp Require Import gmap strings list sorting.

Local Open Scope string_scope.

(** ** JavaScript string primitives *)

Module JsString.

Definition code (a : ascii) : N := N_of_ascii a.

Definition nl : ascii := "010"%char.
Definition NL : string := String nl EmptyString.

Fixpoint take (n : nat) (s : string) : string :=
  match n, s with
  | S n', String a s' => String a (take n' s')
  | _, _ => EmptyString
  end.

Fixpoint drop (n : nat) (s : string) : string :=
  match n, s with
  | S n', String _ s' => drop n' s'
  | _, _ => s
  end.

(** [s.slice(b)] and [s.slice(b, e)]: negative indices count from the end,
    all indices are clamped to [0, length]. *)
Definition clampIndex (len : nat) (i : Z) : nat :=
  if (i <? 0)%Z then Z.to_nat (Z.max (Z.of_nat len + i) 0)
  else Nat.min (Z.to_nat i) len.

Definition slice (s : string) (b : Z) (e : option Z) : string :=
  let len := String.length s in
  let from := clampIndex len b in
  let to := match e with Some e' => clampIndex len e' | None => len end in
  take (to - from) (drop from s).

Definition startsWith (s p : string) : bool := String.prefix p s.

Definition endsWith (s p : string) : bool :=
  let ls := String.length s in
  let lp := String.length p in
  (lp <=? ls)%nat && String.eqb (drop (ls - lp) s) p.

(** [for (const char of text) if (char === '\n') count++] *)
Fixpoint countNewlines (text : string) : nat :=
  match text with
  | EmptyString => 0
  | String a s' =>
      (if Ascii.eqb a nl then 1 else 0) + countNewlines s'
  end.

(** Length of the last element of [text.split('\n')]. *)
Fixpoint lastLineLength_from (acc : nat) (text : string) : nat :=
  match text with
  | EmptyString => acc
  | String a s' =>
      if Ascii.eqb a nl then lastLineLength_from 0 s'
      else lastLineLength_from (S acc) s'
  end.

Definition lastLineLength (text : string) : nat := lastLineLength_from 0 text.

Fixpoint repeat (s : string) (n : nat) : string :=
  match n with
  | O => EmptyString
  | S n' => s ++ repeat s n'
  end.

(** [Array.prototype.join] on an array of strings. *)
Fixpoint join (sep : string) (l : list string) : string :=
  match l with
  | [] => EmptyString
  | [x] => x
  | x :: rest => x ++ sep ++ join sep rest
  end.

(** [Buffer.byteLength(s, 'utf8')] on code units below U+0100: one byte
    below U+0080, two bytes from U+0080 on. *)
Fixpoint byteLength (s : string) : nat :=
  match s with
  | EmptyString => 0
  | String a s' => (if (code a <? 128)%N then 1 else 2) + byteLength s'
  end.

Definition hexDigit (d : N) : ascii :=
  match String.get (N.to_nat d) "0123456789abcdef" with
  | Some a => a
  | None => "0"%char
  end.

(** The [k] low hexadecimal digits of [n], least significant first. *)
Fixpoint hexDigitsRev (k : nat) (n : N) : list ascii :=
  match k with
  | O => []
  | S k' => hexDigit (n mod 16) :: hexDigitsRev k' (n / 16)
  end.

(** [buf.toString('hex')] of the [bytes]-byte big-endian buffer of [n]. *)
Definition toHex (bytes : nat) (n : N) : string :=
  string_of_list_ascii (rev (hexDigitsRev (2 * bytes) n)).

End JsString.

(** ** Regular expressions of the pattern catalog

    Every pattern of [CORE_PATTERNS] is a concatenation of greedily
    quantified character classes (a literal character is a one-element class
    taken exactly once).  The matcher is the backtracking matcher of
    ECMAScript restricted to that fragment: a quantified class first takes as
    many characters as it may and gives them back one by one while the rest
    of the pattern fails. *)

Module Regex.
Import JsString.

Record item := Item { cls : ascii -> bool; rmin : nat; rmax : option nat }.

Definition regex := list item.

Definition inRange (lo hi a : ascii) : bool :=
  (code lo <=? code a)%N && (code a <=? code hi)%N.

Definition upper (a : ascii) : bool := inRange "A" "Z" a.
Definition lower (a : ascii) : bool := inRange "a" "z" a.
Definition digit (a : ascii) : bool := inRange "0" "9" a.
Definition alnum (a : ascii) : bool := upper a || lower a || digit a.
Definition isChar (c a : ascii) : bool := Ascii.eqb c a.

(** [\s] on code units below U+0100: TAB, LF, VT, FF, CR, SP, NBSP. *)
Definition white (a : ascii) : bool :=
  let c := code a in
  ((9 <=? c) && (c <=? 13) || (c =? 32) || (c =? 160))%N.

(** [.] excludes the line terminators; below U+0100 these are LF and CR. *)
Definition dot (a : ascii) : bool :=
  let c := code a in negb ((c =? 10) || (c =? 13))%N.

Definition one (c : ascii -> bool) : item := Item c 1 (Some 1).
Definition opt (c : ascii -> bool) : item := Item c 0 (Some 1).
Definition star (c : ascii -> bool) : item := Item c 0 None.
Definition plus (c : ascii -> bool) : item := Item c 1 None.
Definition atLeast (n : nat) (c : ascii -> bool) : item := Item c n None.
Definition exactly (n : nat) (c : ascii -> bool) : item := Item c n (Some n).

Definition lit (s : string) : regex :=
  List.map (fun c => one (isChar c)) (list_ascii_of_string s).

Definition exhausted (hi : option nat) : bool :=
  match hi with Some O => true | _ => false end.

(** [rep c k lo hi s]: match between [lo] and [hi] characters of class [c]
    at the head of [s], greedily, then the continuation [k]; the result is
    the number of characters consumed in all. *)
Fixpoint rep (c : ascii -> bool) (k : string -> option nat)
    (lo : nat) (hi : option nat) (s : string) {struct s} : option nat :=
  match s with
  | String a s' =>
      if c a && negb (exhausted hi) then
        match rep c k (Nat.pred lo) (option_map Nat.pred hi) s' with
        | Some n => Some (S n)
        | None => if Nat.eqb lo 0 then k s else None
        end
      else if Nat.eqb lo 0 then k s else None
  | EmptyString => if Nat.eqb lo 0 then k s else None
  end.

Definition matchHere (r : regex) : string -> option nat :=
  fold_right (fun it k => rep (cls it) k (rmin it) (rmax it))
             (fun _ => Some 0) r.

(** Leftmost match in [s], which is the text from index [i] on. *)
Fixpoint search (r : regex) (s : string) (i : nat) : option (nat * nat) :=
  match matchHere r s with
  | Some n => Some (i, n)
  | None =>
      match s with
      | EmptyString => None
      | String _ s' => search r s' (S i)
      end
  end.

(** [regex.exec(text)] of a global regex whose [lastIndex] is [lastIndex]:
    the index and the length of the match; the new [lastIndex] is their
    sum. *)
Definition exec (r : regex) (text : string) (lastIndex : nat)
  : option (nat * nat) :=
  if (String.length text <? lastIndex)%nat then None
  else search r (drop lastIndex text) lastIndex.

(** [while ((match = regex.exec(text)) !== null) ...]: the indices of the
    successive matches.  Each pattern of the catalog consumes a character,
    so that [S (length text)] rounds exhaust the text
    ([execAll_enough_fuel]). *)
Fixpoint execLoop (fuel : nat) (r : regex) (text : string) (lastIndex : nat)
  : list nat :=
  match fuel with
  | O => []
  | S fuel' =>
      match exec r text lastIndex with
      | None => []
      | Some (i, n) => i :: execLoop fuel' r text (i + n)
      end
  end.

Definition execAll (r : regex) (text : string) : list nat :=
  execLoop (S (String.length text)) r text 0.

Definition minLength (r : regex) : nat :=
  fold_right (fun it n => rmin it + n) 0 r.

End Regex.

(** ** src/safe/streamScanner.ts *)

Module Scanner.
Import JsString Regex.

Record ScanMatch := mkMatch { pattern : string; line : Z; column : Z }.

Record ScanResult := mkResult { matches : list ScanMatch; hasSecrets : bool }.

Definition tokenChar (a : ascii) : bool :=
  alnum a || isChar "-" a || isChar "_" a || isChar "." a.
Definition keyChar (a : ascii) : bool := alnum a || isChar "-" a || isChar "_" a.
Definition patChar (a : ascii) : bool := alnum a || isChar "_" a.
Definition awsChar (a : ascii) : bool := upper a || digit a.
Definition userChar (a : ascii) : bool := negb (isChar ":" a || white a).
Definition passChar (a : ascii) : bool := negb (isChar "@" a || white a).

Definition CORE_PATTERNS : list (string * regex) :=
  [ ("BEARER_TOKEN", lit "Bearer" ++ [plus white; plus tokenChar]);
    ("OPENAI_KEY", lit "sk-" ++ [atLeast 10 alnum]);
    ("GOOGLE_API_KEY", lit "AIza" ++ [atLeast 20 keyChar]);
    ("GITHUB_PAT", lit "ghp_" ++ [exactly 36 alnum]);
    ("GITHUB_PAT_FINE", lit "github_pat_" ++ [atLeast 22 patChar]);
    ("AWS_ACCESS_KEY", lit "AKIA" ++ [exactly 16 awsChar]);
    ("PRIVATE_KEY", lit "-----BEGIN" ++ [star dot] ++ lit "PRIVATE KEY-----");
    ("URL_WITH_CREDS",
      lit "http" ++ [opt (isChar "s")] ++ lit "://" ++ [plus userChar]
        ++ lit ":" ++ [plus passChar] ++ lit "@") ]%list.

Definition OVERLAP_BUFFER_SIZE : nat := 8 * 1024.

Record StreamScanner := mkScanner {
  overlapBuffer : string;
  patterns : list (string * regex);
  totalLines : nat
}.

(** [new StreamScanner(additionalPatterns)] *)
Definition new (additionalPatterns : list (string * regex)) : StreamScanner :=
  {| overlapBuffer := EmptyString;
     patterns := (CORE_PATTERNS ++ additionalPatterns)%list;
     totalLines := 0 |}.

Definition matchAt (name : string) (text : string) (lineOffset : nat)
    (index : nat) : ScanMatch :=
  let beforeMatch := slice text 0 (Some (Z.of_nat index)) in
  let lineInChunk := countNewlines beforeMatch in
  let column := lastLineLength beforeMatch in
  {| pattern := name;
     line := Z.of_nat lineOffset + Z.of_nat lineInChunk + 1;
     column := Z.of_nat column + 1 |}.

Definition findMatches (this : StreamScanner) (text : string)
    (lineOffset : nat) : list ScanMatch :=
  flat_map (fun p => List.map (matchAt (fst p) text lineOffset)
                              (execAll (snd p) text))
           (patterns this).

Definition resultOf (ms : list ScanMatch) : ScanResult :=
  {| matches := ms; hasSecrets := (0 <? List.length ms)%nat |}.

Definition scan (this : StreamScanner) (chunk : string)
  : ScanResult * StreamScanner :=
  let combined := overlapBuffer this ++ chunk in
  let lineOffset := totalLines this in
  let found := findMatches this combined lineOffset in
  let newLinesInChunk := countNewlines chunk in
  let totalLines' := totalLines this + newLinesInChunk in
  let overlapBuffer' :=
    if (OVERLAP_BUFFER_SIZE <? String.length combined)%nat
    then slice combined (- Z.of_nat OVERLAP_BUFFER_SIZE) None
    else combined in
  let overlapLines := countNewlines overlapBuffer' in
  let relevantMatches :=
    List.filter
      (fun m => (Z.of_nat lineOffset - Z.of_nat overlapLines <? line m)%Z)
      found in
  (resultOf relevantMatches,
   {| overlapBuffer := overlapBuffer';
      patterns := patterns this;
      totalLines := totalLines' |}).

Definition finalize (this : StreamScanner) : ScanResult * StreamScanner :=
  if (String.length (overlapBuffer this) =? 0)%nat then
    ({| matches := []; hasSecrets := false |}, this)
  else
    let found := findMatches this (overlapBuffer this) (totalLines this) in
    (resultOf found,
     {| overlapBuffer := EmptyString;
        patterns := patterns this;
        totalLines := totalLines this |}).

Definition scanString (text : string) : ScanResult :=
  let scanner := new [] in
  let '(result, scanner) := scan scanner text in
  let '(finalResult, _) := finalize scanner in
  {| matches := (matches result ++ matches finalResult)%list;
     hasSecrets := hasSecrets result || hasSecrets finalResult |}.

Definition containsSecrets (text : string) : bool :=
  hasSecrets (scanString text).

(** Feeding successive chunks to one scanner, then [finalize]: all the
    matches reported, in the order of the calls. *)
Fixpoint scanChunks (this : StreamScanner) (chunks : list string)
  : list ScanMatch * StreamScanner :=
  match chunks with
  | [] => ([], this)
  | c :: rest =>
      let '(r, this') := scan this c in
      let '(ms, this'') := scanChunks this' rest in
      ((matches r ++ ms)%list, this'')
  end.

Definition stream (chunks : list string) : list ScanMatch :=
  let '(ms, scanner) := scanChunks (new []) chunks in
  (ms ++ matches (fst (finalize scanner)))%list.

End Scanner.

(** ** src/watcher/safety.ts: scope enforcement *)

Module Safety.
Import JsString.

(** The callback of [allowedScope.some(...)]. *)
Definition scopeAllows (changedFile scopePath : string) : bool :=
  if String.eqb changedFile scopePath then true
  else if startsWith changedFile (scopePath ++ "/") then true
  else if endsWith scopePath "/*" then
    let dir := slice scopePath 0 (Some (-2)%Z) in
    if startsWith changedFile (dir ++ "/") then true else false
  else false.

Record ScopeResult := { passed : bool; violations : list string }.

Definition validateScope (allowedScope actualChanges : list string)
  : ScopeResult :=
  let violations :=
    fold_left
      (fun violations changedFile =>
         let isAllowed := existsb (scopeAllows changedFile) allowedScope in
         if negb isAllowed then (violations ++ [changedFile])%list
         else violations)
      actualChanges [] in
  {| passed := (List.length violations =? 0)%nat; violations := violations |}.

(** The matching rules of a scope entry, as the specification words them. *)
Definition admits (S file : string) : Prop :=
  file = S \/
  (exists rest, file = S ++ "/" ++ rest) \/
  (exists dir rest, S = dir ++ "/*" /\ file = dir ++ "/" ++ rest).

End Safety.

(** ** node:path (POSIX flavour) *)

Module Path.
Import JsString.

Definition sep : string := "/".

(** [s.split(c)] for a one-character separator. *)
Fixpoint split (c : ascii) (s : string) : list string :=
  match s with
  | EmptyString => [EmptyString]
  | String a s' =>
      match split c s' with
      | [] => [String a EmptyString]
      | h :: t =>
          if Ascii.eqb a c then EmptyString :: h :: t
          else String a h :: t
      end
  end.

Definition isAbsolute (p : string) : bool :=
  match p with
  | String a _ => Ascii.eqb a "/"
  | EmptyString => false
  end.

(** One round of [normalizeString] on the stack of segments kept so far
    (top first). *)
Definition normalizeStep (allowAboveRoot : bool) (stack : list string)
    (seg : string) : list string :=
  if String.eqb seg "" || String.eqb seg "." then stack
  else if String.eqb seg ".." then
    match stack with
    | top :: rest =>
        if String.eqb top ".." then
          (if allowAboveRoot then ".." :: stack else stack)
        else rest
    | [] => if allowAboveRoot then [".."] else []
    end
  else seg :: stack.

Definition normalizeSegs (allowAboveRoot : bool) (segs : list string)
  : list string :=
  rev (fold_left (normalizeStep allowAboveRoot) segs []).

Definition normalizeString (path : string) (allowAboveRoot : bool) : string :=
  JsString.join "/" (normalizeSegs allowAboveRoot (split "/" path)).

(** [path.resolve(p)] in a process whose working directory is [cwd]
    (an absolute path). *)
Definition resolve (cwd p : string) : string :=
  let full :=
    if String.eqb p "" then cwd
    else if isAbsolute p then p
    else cwd ++ "/" ++ p in
  "/" ++ normalizeString full false.

Definition normalize (path : string) : string :=
  if String.eqb path "" then "."
  else
    let isAbs := isAbsolute path in
    let trailingSeparator := endsWith path "/" in
    let p := normalizeString path (negb isAbs) in
    if String.eqb p "" then
      (if isAbs then "/" else if trailingSeparator then "./" else ".")
    else
      let p := if trailingSeparator then p ++ "/" else p in
      if isAbs then "/" ++ p else p.

(** [path.join(...parts)] *)
Definition join (parts : list string) : string :=
  match List.filter (fun s => negb (String.eqb s "")) parts with
  | [] => "."
  | nonEmpty => normalize (JsString.join "/" nonEmpty)
  end.

Fixpoint dropWhile (f : ascii -> bool) (l : list ascii) : list ascii :=
  match l with
  | a :: l' => if f a then dropWhile f l' else l
  | [] => []
  end.

(** [path.dirname(p)]: the loop runs from the last character down to
    index 1, skips trailing separators and the last segment, and stops on
    the separator before it. *)
Definition dirname (path : string) : string :=
  match path with
  | EmptyString => "."
  | String c0 rest =>
      let hasRoot := Ascii.eqb c0 "/" in
      let back := rev (list_ascii_of_string rest) in
      let back := dropWhile (fun a => Ascii.eqb a "/") back in
      let back := dropWhile (fun a => negb (Ascii.eqb a "/")) back in
      match back with
      | [] => if hasRoot then "/" else "."
      | _ =>
          let endIdx := List.length back in
          if hasRoot && (endIdx =? 1)%nat then "//"
          else slice path 0 (Some (Z.of_nat endIdx))
      end
  end.

Fixpoint stripCommon (a b : list string) : list string * list string :=
  match a, b with
  | x :: a', y :: b' =>
      if String.eqb x y then stripCommon a' b' else (a, b)
  | _, _ => (a, b)
  end.

(** [path.relative(from, to)] *)
Definition relative (cwd from to : string) : string :=
  let from := resolve cwd from in
  let to := resolve cwd to in
  if String.eqb from to then ""
  else
    let segs p := List.filter (fun s => negb (String.eqb s ""))
                              (split "/" p) in
    let '(up, down) := stripCommon (segs from) (segs to) in
    JsString.join "/" (List.map (fun _ => "..") up ++ down)%list.

End Path.

(** ** The host: what Node and the operating system decide *)
#[warnings="-register-all"]
Inductive json :=
| JNull
| JBool (b : bool)
| JNum (n : Z)
| JStr (s : string)
| JArr (items : list json)
| JObj (props : list (string * json)).

(** The operations of node:fs that the environment may make fail. *)
Inductive fsop :=
| OpMkdir (p : string)
| OpWriteFile (p : string)
| OpRename (src dst : string)
| OpUnlink (p : string).

Record Host := {
  (** [process.cwd()] *)
  cwd : string;
  (** [os.hostname()], [process.pid], [Date.now()] *)
  hostname : string;
  pid : Z;
  now : Z;
  (** [process.kill(pid, 0)] does not throw *)
  alive : Z -> bool;
  (** [JSON.parse]; [None] is a SyntaxError *)
  JSON_parse : string -> option json;
  (** [JSON.stringify(v, null, 2)] *)
  JSON_stringify : json -> string;
  (** [new Date(s).getTime()]; [None] is NaN *)
  Date_parse : string -> option Z;
  (** [new Date(t).toISOString()] *)
  Date_toISOString : Z -> string;
  (** [randomBytes(8)], as the 64-bit number the eight bytes spell *)
  randomBytes8 : N;
  (** the order in which the system lists the entries of a directory *)
  dirOrder : list string -> list string;
  (** an operation that fails for a reason outside the model (EIO, ENOSPC,
      EACCES ...) *)
  fault : fsop -> bool;
  (** how many characters of a failing write reach the disk; [None]: the
      file is not even created *)
  partialWrite : string -> option nat
}.

(** ** A concrete host for the examples

    [stringify] prints a value the way [JSON.stringify(v, null, 2)] does,
    for strings that need no escape; [parseKnown] reads back the texts of
    the values it is given.  [isoParse] and [isoPrint] are [Date.parse] and
    [toISOString] on the format that [toISOString] prints. *)

Module Example.
Import JsString.

Definition dq : string := String "034"%char EmptyString.

Definition zText (n : Z) : string := NilZero.string_of_int (Z.to_int n).

Fixpoint stringify (indent : string) (v : json) : string :=
  let inner := indent ++ "  " in
  match v with
  | JNull => "null"
  | JBool true => "true"
  | JBool false => "false"
  | JNum n => zText n
  | JStr s => dq ++ s ++ dq
  | JArr [] => "[]"
  | JArr items =>
      "[" ++ NL
        ++ JsString.join ("," ++ NL)
             (List.map (fun x => inner ++ stringify inner x) items)
        ++ NL ++ indent ++ "]"
  | JObj [] => "{}"
  | JObj props =>
      "{" ++ NL
        ++ JsString.join ("," ++ NL)
             (List.map (fun kv => inner ++ dq ++ fst kv ++ dq ++ ": "
                                    ++ stringify inner (snd kv)) props)
        ++ NL ++ indent ++ "}"
  end.

Definition parseKnown (known : list json) (text : string) : option json :=
  List.find (fun v => String.eqb (stringify "" v) text) known.

(** Days from 1970-01-01 to the civil date. *)
Definition daysFromCivil (y m d : Z) : Z :=
  let y' := if (m <=? 2)%Z then (y - 1)%Z else y in
  let era := (y' / 400)%Z in
  let yoe := (y' - era * 400)%Z in
  let mp := if (2 <? m)%Z then (m - 3)%Z else (m + 9)%Z in
  let doy := ((153 * mp + 2) / 5 + d - 1)%Z in
  let doe := (yoe * 365 + yoe / 4 - yoe / 100 + doy)%Z in
  (era * 146097 + doe - 719468)%Z.

Definition civilFromDays (z : Z) : Z * Z * Z :=
  let z := (z + 719468)%Z in
  let era := (z / 146097)%Z in
  let doe := (z - era * 146097)%Z in
  let yoe := ((doe - doe / 1460 + doe / 36524 - doe / 146096) / 365)%Z in
  let doy := (doe - (365 * yoe + yoe / 4 - yoe / 100))%Z in
  let mp := ((5 * doy + 2) / 153)%Z in
  let d := (doy - (153 * mp + 2) / 5 + 1)%Z in
  let m := if (mp <? 10)%Z then (mp + 3)%Z else (mp - 9)%Z in
  let y := (yoe + era * 400 + (if (m <=? 2)%Z then 1 else 0))%Z in
  (y, m, d).

Definition digitOf (a : ascii) : option Z :=
  let c := Z.of_N (code a) in
  if ((48 <=? c) && (c <=? 57))%Z then Some (c - 48)%Z else None.

Fixpoint number (acc : Z) (l : list ascii) : option Z :=
  match l with
  | [] => Some acc
  | a :: rest =>
      match digitOf a with
      | Some d => number (acc * 10 + d)%Z rest
      | None => None
      end
  end.

Definition field (s : string) (from len : nat) : option Z :=
  number 0 (list_ascii_of_string (take len (drop from s))).

Definition charAt (s : string) (i : nat) (c : ascii) : bool :=
  match String.get i s with
  | Some a => Ascii.eqb a c
  | None => false
  end.

(** [Date.parse] on YYYY-MM-DDTHH:MM:SS.mmmZ; any other text is NaN for
    this host. *)
Definition isoParse (s : string) : option Z :=
  if (String.length s =? 24)%nat
     && charAt s 4 "-" && charAt s 7 "-" && charAt s 10 "T"
     && charAt s 13 ":" && charAt s 16 ":" && charAt s 19 "."
     && charAt s 23 "Z"
  then
    match field s 0 4, field s 5 2, field s 8 2,
          field s 11 2, field s 14 2, field s 17 2, field s 20 3 with
    | Some y, Some m, Some d, Some hh, Some mm, Some ss, Some ms =>
        let '(y2, m2, d2) := civilFromDays (daysFromCivil y m d) in
        if ((1 <=? m) && (m <=? 12) && (1 <=? d)
            && (y2 =? y) && (m2 =? m) && (d2 =? d)
            && (hh <? 24) && (mm <? 60) && (ss <? 60))%Z
        then Some ((((daysFromCivil y m d * 24 + hh) * 60 + mm) * 60 + ss)
                     * 1000 + ms)%Z
        else None
    | _, _, _, _, _, _, _ => None
    end
  else None.

Definition padded (width : nat) (n : Z) : string :=
  let t := zText n in
  JsString.repeat "0" (width - String.length t) ++ t.

(** [toISOString] for the years 0 to 9999. *)
Definition isoPrint (t : Z) : string :=
  let days := (t / 86400000)%Z in
  let rest := (t mod 86400000)%Z in
  let '(y, m, d) := civilFromDays days in
  padded 4 y ++ "-" ++ padded 2 m ++ "-" ++ padded 2 d ++ "T"
    ++ padded 2 (rest / 3600000) ++ ":"
    ++ padded 2 (rest / 60000 mod 60) ++ ":"
    ++ padded 2 (rest / 1000 mod 60) ++ "."
    ++ padded 3 (rest mod 1000) ++ "Z".

(** 2024-01-01T00:00:00.000Z *)
Definition newYear : Z := 1704067200000.

(** A host named hostA whose clock shows [clock], where the processes
    [live] run, that can parse the texts of [known], injects the faults
    [f] and lists directories in the order [order]. *)
Definition host (clock : Z) (live : list Z) (known : list json)
    (f : fsop -> bool) (order : list string -> list string) : Host :=
  {| cwd := "/repo";
     hostname := "hostA";
     pid := 100;
     now := clock;
     alive := fun p => existsb (Z.eqb p) live;
     JSON_parse := parseKnown known;
     JSON_stringify := stringify "";
     Date_parse := isoParse;
     Date_toISOString := isoPrint;
     randomBytes8 := 0x0123456789abcdef;
     dirOrder := order;
     fault := f;
     partialWrite := fun _ => None |}.

Definition noFault : fsop -> bool := fun _ => false.

Definition quietHost : Host :=
  host newYear [] [] noFault (fun names => names).

(** The rename step fails. *)
Definition renameFails : Host :=
  host newYear [] []
       (fun op => match op with OpRename _ _ => true | _ => false end)
       (fun names => names).

End Example.

(** ** The file system and the monad of the asynchronous functions

    The file system maps an absolute, normalised path to what is stored
    there.  A path that runs through a symbolic link is not followed: the
    safe layer refuses links before it comes to that.  An [async] function
    is a function of the file system that returns a value or throws. *)

Inductive node :=
| File (content : string)
| Dir
| Symlink (target : string).

Inductive error :=
| PathEscapeError (message : string)
| SymlinkError (message : string)
| SystemError (code : string)
| SyntaxError
| TypeError
| TaskValidationError (message : string) (field : option string)
| Error (message : string).

Inductive outcome (A : Type) :=
| Ok (a : A)
| Throw (e : error).

Arguments Ok {A} a.
Arguments Throw {A} e.

Definition io (A : Type) : Type := gmap string node -> outcome A * gmap string node.

Definition ret {A} (a : A) : io A := fun fs => (Ok a, fs).

Definition throw {A} (e : error) : io A := fun fs => (Throw e, fs).

Definition bind {A B} (m : io A) (k : A -> io B) : io B :=
  fun fs =>
    match m fs with
    | (Ok a, fs') => k a fs'
    | (Throw e, fs') => (Throw e, fs')
    end.

(** [try { m } catch (err) { handler(err) }] *)
Definition tryCatch {A} (m : io A) (handler : error -> io A) : io A :=
  fun fs =>
    match m fs with
    | (Ok a, fs') => (Ok a, fs')
    | (Throw e, fs') => handler e fs'
    end.

(** [try { m } finally { cleanup }] *)
Definition tryFinally {A} (m : io A) (cleanup : io unit) : io A :=
  fun fs =>
    match m fs with
    | (r, fs') =>
        match cleanup fs' with
        | (Ok _, fs'') => (r, fs'')
        | (Throw e, fs'') => (Throw e, fs'')
        end
    end.

Notation "x <- m ;; k" := (bind m (fun x => k))
  (at level 100, m at next level, right associativity).
Notation "m ;;; k" := (bind m (fun _ => k))
  (at level 100, right associativity).

(** *** node:fs *)

Module Fs.
Import JsString.

Definition lstat (fs : gmap string node) (p : string) : option node :=
  if String.eqb p "/" then Some Dir else fs !! p.

Definition ENOENT : error := SystemError "ENOENT".
Definition ENOTDIR : error := SystemError "ENOTDIR".
Definition EISDIR : error := SystemError "EISDIR".
Definition EEXIST : error := SystemError "EEXIST".
Definition ELOOP : error := SystemError "ELOOP".
Definition EIO : error := SystemError "EIO".

(** The ancestors of an absolute path, nearest to the root first, the
    path itself last. *)
Definition chain (p : string) : list string :=
  let segs := List.filter (fun s => negb (String.eqb s ""))
                          (Path.split "/" p) in
  snd (fold_left
         (fun '(cur, acc) seg =>
            let next := cur ++ "/" ++ seg in (next, acc ++ [next])%list)
         segs ("", [])).

(** [fs.promises.lstat] *)
Definition plstat (p : string) : io node :=
  fun fs =>
    match lstat fs p with
    | Some n => (Ok n, fs)
    | None => (Throw ENOENT, fs)
    end.

(** [fs.promises.access]: a link is followed one step. *)
Definition access (p : string) : io unit :=
  fun fs =>
    match lstat fs p with
    | Some (Symlink t) =>
        match lstat fs t with
        | Some (File _) | Some Dir => (Ok tt, fs)
        | _ => (Throw ENOENT, fs)
        end
    | Some _ => (Ok tt, fs)
    | None => (Throw ENOENT, fs)
    end.

(** [open(p, O_RDONLY | O_NOFOLLOW)], [readFile], [close] *)
Definition readFileNoFollow (p : string) : io string :=
  fun fs =>
    match lstat fs p with
    | Some (File c) => (Ok c, fs)
    | Some Dir => (Throw EISDIR, fs)
    | Some (Symlink _) => (Throw ELOOP, fs)
    | None => (Throw ENOENT, fs)
    end.

(** [fs.promises.mkdir(p, { recursive: true })] *)
Fixpoint mkdirChain (ps : list string) (fs : gmap string node)
  : outcome unit * gmap string node :=
  match ps with
  | [] => (Ok tt, fs)
  | p :: rest =>
      match lstat fs p with
      | Some Dir => mkdirChain rest fs
      | Some _ => (Throw (match rest with [] => EEXIST | _ => ENOTDIR end), fs)
      | None => mkdirChain rest (<[p := Dir]> fs)
      end
  end.

Definition mkdirRecursive (h : Host) (p : string) : io unit :=
  fun fs =>
    if fault h (OpMkdir p) then (Throw EIO, fs)
    else mkdirChain (chain p) fs.

Definition parentIsDir (fs : gmap string node) (p : string) : bool :=
  match lstat fs (Path.dirname p) with
  | Some Dir => true
  | _ => false
  end.

(** [fs.promises.writeFile(p, content, { encoding, mode })] *)
Definition writeFile (h : Host) (p content : string) : io unit :=
  fun fs =>
    if negb (parentIsDir fs p) then (Throw ENOENT, fs)
    else
      match lstat fs p with
      | Some Dir => (Throw EISDIR, fs)
      | Some (Symlink _) => (Throw ELOOP, fs)
      | _ =>
          if fault h (OpWriteFile p) then
            match partialWrite h p with
            | Some n => (Throw EIO, <[p := File (take n content)]> fs)
            | None => (Throw EIO, fs)
            end
          else (Ok tt, <[p := File content]> fs)
      end.

(** [fs.promises.rename(src, dst)]: all or nothing. *)
Definition rename (h : Host) (src dst : string) : io unit :=
  fun fs =>
    match lstat fs src with
    | None => (Throw ENOENT, fs)
    | Some n =>
        if negb (parentIsDir fs dst) then (Throw ENOENT, fs)
        else
          match n, lstat fs dst with
          | Dir, Some Dir => (Throw (SystemError "ENOTEMPTY"), fs)
          | Dir, Some _ => (Throw ENOTDIR, fs)
          | _, Some Dir => (Throw EISDIR, fs)
          | _, _ =>
              if fault h (OpRename src dst) then (Throw EIO, fs)
              else (Ok tt, <[dst := n]> (delete src fs))
          end
    end.

(** [fs.promises.unlink(p)] *)
Definition unlink (h : Host) (p : string) : io unit :=
  fun fs =>
    match lstat fs p with
    | None => (Throw ENOENT, fs)
    | Some Dir => (Throw EISDIR, fs)
    | Some _ =>
        if fault h (OpUnlink p) then (Throw EIO, fs)
        else (Ok tt, delete p fs)
    end.

(** [fs.promises.rm(p, { recursive: true, force: true })] *)
Definition rmRecursive (p : string) : io unit :=
  fun fs =>
    (Ok tt,
     filter (fun kv => negb (String.eqb (fst kv) p
                             || startsWith (fst kv) (p ++ "/")) = true) fs).

(** [fs.promises.readdir(p)] *)
Definition readdir (h : Host) (p : string) : io (list string) :=
  fun fs =>
    match lstat fs p with
    | Some Dir =>
        let prefix := if String.eqb p "/" then "/" else p ++ "/" in
        let names :=
          omap (fun kv =>
                  if startsWith (fst kv) prefix
                     && String.eqb (Path.dirname (fst kv)) p
                  then Some (drop (String.length prefix) (fst kv))
                  else None)
               (map_to_list fs) in
        (Ok (dirOrder h names), fs)
    | Some _ => (Throw ENOTDIR, fs)
    | None => (Throw ENOENT, fs)
    end.

End Fs.

(** A repository with one file. *)
Definition exampleRepo : gmap string node :=
  <["/repo" := Dir]> (<["/repo/out.txt" := File "old"]> ∅).

(** ** src/safe/fsSafe.ts *)

Module FsSafe.
Import JsString.

Section WithHost.
Variable h : Host.

Definition isContained (filePath root : string) : bool :=
  let resolvedPath := Path.resolve (cwd h) filePath in
  let resolvedRoot := Path.resolve (cwd h) root in
  startsWith resolvedPath (resolvedRoot ++ Path.sep)
  || String.eqb resolvedPath resolvedRoot.

Definition escapes (filePath root : string) : error :=
  PathEscapeError ("Path " ++ filePath ++ " escapes root " ++ root).

Definition isENOENT (err : error) : bool :=
  match err with
  | SystemError code => String.eqb code "ENOENT"
  | _ => false
  end.

Definition isSymbolicLink (stats : node) : bool :=
  match stats with Symlink _ => true | _ => false end.

(** The loop of [validateParentChain]; the result of one round says
    whether the loop goes on ([break] on a component that does not
    exist). *)
Fixpoint walkChain (current : string) (components : list string) : io unit :=
  match components with
  | [] => ret tt
  | component :: rest =>
      let current := Path.join [current; component] in
      goOn <- tryCatch
                (stats <- Fs.plstat current ;;
                 if isSymbolicLink stats then
                   throw (SymlinkError
                            ("Symlink detected in parent chain: " ++ current))
                 else ret true)
                (fun err => if negb (isENOENT err) then throw err
                            else ret false) ;;
      if goOn then walkChain current rest else ret tt
  end.

Definition validateParentChain (filePath root : string) : io unit :=
  let resolvedPath := Path.resolve (cwd h) filePath in
  let resolvedRoot := Path.resolve (cwd h) root in
  if negb (isContained resolvedPath resolvedRoot) then
    throw (escapes filePath root)
  else
    let relativePath := Path.relative (cwd h) resolvedRoot resolvedPath in
    let components :=
      List.filter (fun c => negb (String.eqb c ""))
                  (Path.split "/" relativePath) in
    walkChain resolvedRoot components.

Definition read (filePath root : string) : io string :=
  let resolvedPath := Path.resolve (cwd h) filePath in
  if negb (isContained resolvedPath root) then
    throw (escapes filePath root)
  else
    stats <- Fs.plstat resolvedPath ;;
    if isSymbolicLink stats then
      throw (SymlinkError ("Cannot read symlink: " ++ filePath))
    else Fs.readFileNoFollow resolvedPath.

Definition tmpNameOf (resolvedPath : string) : string :=
  resolvedPath ++ "." ++ toHex 8 (randomBytes8 h) ++ ".tmp".

Definition writeAtomic (filePath content root : string) : io unit :=
  let resolvedPath := Path.resolve (cwd h) filePath in
  if negb (isContained resolvedPath root) then
    throw (escapes filePath root)
  else
    validateParentChain filePath root ;;;
    let dir := Path.dirname resolvedPath in
    Fs.mkdirRecursive h dir ;;;
    let tmpName := tmpNameOf resolvedPath in
    tryCatch
      (Fs.writeFile h tmpName content ;;;
       Fs.rename h tmpName resolvedPath)
      (fun err =>
         tryCatch (Fs.unlink h tmpName) (fun _ => ret tt) ;;;
         throw err).

Definition unlink (filePath root : string) : io unit :=
  let resolvedPath := Path.resolve (cwd h) filePath in
  if negb (isContained resolvedPath root) then
    throw (escapes filePath root)
  else
    validateParentChain filePath root ;;;
    Fs.unlink h resolvedPath.

Definition mkdir (dirPath root : string) : io unit :=
  let resolvedPath := Path.resolve (cwd h) dirPath in
  if negb (isContained resolvedPath root) then
    throw (escapes dirPath root)
  else
    validateParentChain dirPath root ;;;
    Fs.mkdirRecursive h resolvedPath.

Definition rmdir (dirPath root : string) : io unit :=
  let resolvedPath := Path.resolve (cwd h) dirPath in
  if negb (isContained resolvedPath root) then
    throw (escapes dirPath root)
  else
    validateParentChain dirPath root ;;;
    Fs.rmRecursive resolvedPath.

Definition exists_ (filePath root : string) : io bool :=
  let resolvedPath := Path.resolve (cwd h) filePath in
  if negb (isContained resolvedPath root) then
    throw (escapes filePath root)
  else
    tryCatch (Fs.access resolvedPath ;;; ret true) (fun _ => ret false).

Definition readdir (dirPath root : string) : io (list string) :=
  let resolvedPath := Path.resolve (cwd h) dirPath in
  if negb (isContained resolvedPath root) then
    throw (escapes dirPath root)
  else Fs.readdir h resolvedPath.

End WithHost.
End FsSafe.

(** ** src/watcher/logcap.ts *)

Module LogCap.
Import JsString.

Definition MAX_OUTPUT_BYTES : nat := 10 * 1024.

Record CappedOutput := {
  content : string;
  truncated : bool;
  fullLogPath : option string;
  secretsDetected : bool;
  secretCount : nat
}.

Inductive stream := stdout | stderr.

Definition streamName (s : stream) : string :=
  match s with stdout => "stdout" | stderr => "stderr" end.

(** A non-negative integer in a template literal. *)
Definition natToString (n : nat) : string :=
  NilZero.string_of_uint (Nat.to_uint n).

(** The two calls into the safe layer pass [root] first, as the source
    does; the safe layer takes the path first and the root last. *)
Definition capOutput (h : Host) (output logDir taskId : string)
    (cmdIndex : nat) (stream : stream) (root : string) : io CappedOutput :=
  let scanResult := Scanner.scanString output in
  let secretsDetected := Scanner.hasSecrets scanResult in
  let secretCount := List.length (Scanner.matches scanResult) in
  let outputBytes := byteLength output in
  let needsTruncation := (MAX_OUTPUT_BYTES <? outputBytes)%nat in
  if needsTruncation then
    let logFileName :=
      taskId ++ "_" ++ natToString cmdIndex ++ "_" ++ streamName stream
             ++ ".log" in
    let fullLogPath := Path.join [logDir; logFileName] in
    FsSafe.mkdir h root logDir ;;;
    FsSafe.writeAtomic h root fullLogPath output ;;;
    let content := slice output 0 (Some (Z.of_nat MAX_OUTPUT_BYTES)) in
    let content :=
      content ++ NL ++ NL ++ "[TRUNCATED - Full log: " ++ logFileName ++ "]" in
    ret {| content := content;
           truncated := needsTruncation;
           fullLogPath := Some fullLogPath;
           secretsDetected := secretsDetected;
           secretCount := secretCount |}
  else
    ret {| content := output;
           truncated := needsTruncation;
           fullLogPath := None;
           secretsDetected := secretsDetected;
           secretCount := secretCount |}.

End LogCap.

(** ** JavaScript values read from JSON *)

Module Js.

(** [obj.key] on a parsed value; [None] is [undefined]. *)
Fixpoint assoc (key : string) (props : list (string * json)) : option json :=
  match props with
  | [] => None
  | (k, v) :: rest => if String.eqb k key then Some v else assoc key rest
  end.

Definition getProp (v : json) (key : string) : option json :=
  match v with
  | JObj props => assoc key props
  | _ => None
  end.

Inductive jstype := TUndefined | TObject | TBoolean | TNumber | TString.

Definition typeof (v : option json) : jstype :=
  match v with
  | None => TUndefined
  | Some JNull | Some (JArr _) | Some (JObj _) => TObject
  | Some (JBool _) => TBoolean
  | Some (JNum _) => TNumber
  | Some (JStr _) => TString
  end.

Definition truthy (v : option json) : bool :=
  match v with
  | None | Some JNull => false
  | Some (JBool b) => b
  | Some (JNum n) => negb (n =? 0)%Z
  | Some (JStr s) => negb (String.eqb s "")
  | Some (JArr _) | Some (JObj _) => true
  end.

Definition isArray (v : option json) : bool :=
  match v with Some (JArr _) => true | _ => false end.

Definition isString (v : option json) : bool :=
  match typeof v with TString => true | _ => false end.

Definition isObject (v : option json) : bool :=
  match typeof v with TObject => true | _ => false end.

End Js.

(** ** src/watcher/task.ts *)

Module Task.
Import JsString Js.

Record VerifyCommand := {
  cmd : string;
  args : list json;
  expectedExit : option json;
  timeoutSec : option json
}.

(** The validated object under its [Task] type; [raw] is the object
    itself, with whatever else it carries. *)
Record Task := {
  id : string;
  created : string;
  title : string;
  prompt : string;
  scope : list string;
  verify : list VerifyCommand;
  raw : json
}.

Definition invalid {A} (message : string) (field : option string)
  : error + A := inl (TaskValidationError message field).

(** [for (const s of task.scope) ...] *)
Fixpoint validateScopeItems (items : list json) : error + list string :=
  match items with
  | [] => inr []
  | s :: rest =>
      match s with
      | JStr str =>
          match validateScopeItems rest with
          | inr strs => inr (str :: strs)
          | inl e => inl e
          end
      | _ => invalid "Scope items must be strings" (Some "scope")
      end
  end.

Definition validateVerifyItem (v : json) : error + VerifyCommand :=
  if negb (truthy (Some v)) || negb (isObject (Some v)) then
    invalid "Verify commands must be objects" (Some "verify")
  else
    match getProp v "cmd" with
    | Some (JStr c) =>
        match getProp v "args" with
        | Some (JArr a) =>
            inr {| cmd := c; args := a;
                   expectedExit := getProp v "expectedExit";
                   timeoutSec := getProp v "timeoutSec" |}
        | _ => invalid "Verify command must have args array"
                       (Some "verify.args")
        end
    | _ => invalid "Verify command must have cmd string" (Some "verify.cmd")
    end.

(** [for (const v of task.verify) ...] *)
Fixpoint validateVerifyItems (items : list json)
  : error + list VerifyCommand :=
  match items with
  | [] => inr []
  | v :: rest =>
      match validateVerifyItem v with
      | inr c =>
          match validateVerifyItems rest with
          | inr cs => inr (c :: cs)
          | inl e => inl e
          end
      | inl e => inl e
      end
  end.

Definition nonEmptyString (v : option json) : bool :=
  isString v && truthy v.

Definition stringOf (v : option json) : string :=
  match v with Some (JStr s) => s | _ => "" end.

Definition validateTask (obj : json) : error + Task :=
  if negb (truthy (Some obj)) || negb (isObject (Some obj)) then
    invalid "Task must be an object" None
  else
    let task := obj in
    if negb (nonEmptyString (getProp task "id")) then
      invalid "Task must have a non-empty string id" (Some "id")
    else if negb (nonEmptyString (getProp task "created")) then
      invalid "Task must have a created timestamp" (Some "created")
    else if negb (nonEmptyString (getProp task "title")) then
      invalid "Task must have a title" (Some "title")
    else if negb (nonEmptyString (getProp task "prompt")) then
      invalid "Task must have a prompt" (Some "prompt")
    else
      match getProp task "scope" with
      | Some (JArr scopeItems) =>
          match getProp task "verify" with
          | Some (JArr verifyItems) =>
              match validateScopeItems scopeItems with
              | inl e => inl e
              | inr sc =>
                  match validateVerifyItems verifyItems with
                  | inl e => inl e
                  | inr vs =>
                      inr {| id := stringOf (getProp task "id");
                             created := stringOf (getProp task "created");
                             title := stringOf (getProp task "title");
                             prompt := stringOf (getProp task "prompt");
                             scope := sc;
                             verify := vs;
                             raw := task |}
                  end
              end
          | _ => invalid "Task must have a verify array" (Some "verify")
          end
      | _ => invalid "Task must have a scope array" (Some "scope")
      end.

(** [await] of a function that does not touch the file system. *)
Definition lift {A} (r : error + A) : io A :=
  match r with
  | inr a => ret a
  | inl e => throw e
  end.

Definition loadTask (h : Host) (filePath root : string) : io Task :=
  content <- FsSafe.read h filePath root ;;
  obj <- lift (match JSON_parse h content with
               | Some v => inr v
               | None => inl SyntaxError
               end) ;;
  lift (validateTask obj).

(** [new Date(s).getTime()] of two tasks, subtracted; [None] is NaN. *)
Definition compareCreated (h : Host) (a b : Task) : option Z :=
  match Date_parse h (created a), Date_parse h (created b) with
  | Some ta, Some tb => Some (ta - tb)%Z
  | _, _ => None
  end.

(** [Array.prototype.sort(compare)]: a stable sort; a comparison that
    yields NaN counts as zero. *)
Fixpoint insertSorted {A} (compare : A -> A -> option Z) (x : A)
    (l : list A) : list A :=
  match l with
  | [] => [x]
  | y :: rest =>
      match compare x y with
      | Some d => if (0 <? d)%Z then y :: insertSorted compare x rest
                  else x :: l
      | None => x :: l
      end
  end.

Definition sort {A} (compare : A -> A -> option Z) (l : list A) : list A :=
  fold_right (insertSorted compare) [] l.

(** The loop of [loadTasks]: a file that cannot be loaded is logged and
    skipped. *)
Fixpoint loadEach (h : Host) (tasksDir root : string) (jsonFiles : list string)
  : io (list Task) :=
  match jsonFiles with
  | [] => ret []
  | file :: rest =>
      let fullPath := Path.join [tasksDir; file] in
      loaded <- tryCatch
                  (task <- loadTask h fullPath root ;; ret (Some task))
                  (fun _ => ret None) ;;
      tasks <- loadEach h tasksDir root rest ;;
      ret (match loaded with
           | Some task => task :: tasks
           | None => tasks
           end)
  end.

Definition loadTasks (h : Host) (tasksDir root : string) : io (list Task) :=
  files <- FsSafe.readdir h tasksDir root ;;
  let jsonFiles := List.filter (fun f => endsWith f ".json") files in
  tasks <- loadEach h tasksDir root jsonFiles ;;
  ret (sort (compareCreated h) tasks).

End Task.

(** ** node:crypto: SHA-256 (FIPS 180-4) *)

Module Sha256.
Local Open Scope N_scope.

Definition wrap (x : N) : N := N.land x 0xffffffff.
Definition add32 (a b : N) : N := wrap (a + b).
Definition rotr (n x : N) : N :=
  N.lor (N.shiftr x n) (wrap (N.shiftl x (32 - n))).
Definition shr (n x : N) : N := N.shiftr x n.
Definition not32 (x : N) : N := N.lxor x 0xffffffff.

Definition Ch (x y z : N) : N :=
  N.lxor (N.land x y) (N.land (not32 x) z).
Definition Maj (x y z : N) : N :=
  N.lxor (N.lxor (N.land x y) (N.land x z)) (N.land y z).
Definition bsig0 (x : N) : N :=
  N.lxor (N.lxor (rotr 2 x) (rotr 13 x)) (rotr 22 x).
Definition bsig1 (x : N) : N :=
  N.lxor (N.lxor (rotr 6 x) (rotr 11 x)) (rotr 25 x).
Definition ssig0 (x : N) : N :=
  N.lxor (N.lxor (rotr 7 x) (rotr 18 x)) (shr 3 x).
Definition ssig1 (x : N) : N :=
  N.lxor (N.lxor (rotr 17 x) (rotr 19 x)) (shr 10 x).

(** The round constants are the first 32 bits of the fractional parts of
    the cube roots of the first 64 primes; the initial hash value is made
    of the square roots of the first 8 in the same way. *)
Fixpoint primesFrom (fuel : nat) (n : N) (found : list N) (wanted : nat)
  : list N :=
  match fuel, wanted with
  | S fuel', S wanted' =>
      if forallb (fun p => negb (n mod p =? 0)) found
      then primesFrom fuel' (n + 1) (n :: found) wanted'
      else primesFrom fuel' (n + 1) found wanted
  | _, _ => rev found
  end.

Definition primes (k : nat) : list N := primesFrom 400 2 [] k.

(** The integer cube root, bit by bit from bit [bits - 1] down. *)
Fixpoint cubeRoot (bits : nat) (n root : N) : N :=
  match bits with
  | O => root
  | S b =>
      let candidate := root + N.shiftl 1 (N.of_nat b) in
      if candidate * candidate * candidate <=? n
      then cubeRoot b n candidate
      else cubeRoot b n root
  end.

Definition fractionOfCubeRoot (p : N) : N :=
  wrap (cubeRoot 40 (N.shiftl p 96) 0).

Definition fractionOfSquareRoot (p : N) : N :=
  wrap (N.sqrt (N.shiftl p 64)).

Definition K : list N :=
  Eval vm_compute in List.map fractionOfCubeRoot (primes 64).

Definition H0 : list N :=
  Eval vm_compute in List.map fractionOfSquareRoot (primes 8).

(** [hash.update(s)]: the UTF-8 bytes of a string of code units below
    U+0100. *)
Fixpoint utf8 (s : string) : list N :=
  match s with
  | EmptyString => []
  | String a s' =>
      let c := N_of_ascii a in
      if c <? 128 then c :: utf8 s'
      else N.lor 0xc0 (N.shiftr c 6) :: N.lor 0x80 (N.land c 0x3f) :: utf8 s'
  end.

(** The [k] low bytes of [n], most significant first. *)
Fixpoint bigEndian (k : nat) (n : N) : list N :=
  match k with
  | O => []
  | S k' => (bigEndian k' (N.shiftr n 8) ++ [N.land n 0xff])%list
  end.

Definition pad (msg : list N) : list N :=
  let len := List.length msg in
  let zeros := ((119 - len mod 64) mod 64)%nat in
  (msg ++ [0x80] ++ List.repeat 0 zeros
       ++ bigEndian 8 (8 * N.of_nat len))%list.

Fixpoint toWords (fuel : nat) (bytes : list N) : list N :=
  match fuel, bytes with
  | S fuel', a :: b :: c :: d :: rest =>
      (N.shiftl a 24 + N.shiftl b 16 + N.shiftl c 8 + d)
        :: toWords fuel' rest
  | _, _ => []
  end.

Definition nthW (l : list N) (i : nat) : N := List.nth i l 0.

(** The message schedule, latest word first. *)
Fixpoint extend (rounds : nat) (rev_w : list N) : list N :=
  match rounds with
  | O => rev_w
  | S r =>
      let w := add32 (add32 (ssig1 (nthW rev_w 1)) (nthW rev_w 6))
                     (add32 (ssig0 (nthW rev_w 14)) (nthW rev_w 15)) in
      extend r (w :: rev_w)
  end.

Definition round (st : list N) (kw : N * N) : list N :=
  match st with
  | [a; b; c; d; e; f; g; h] =>
      let t1 := add32 (add32 (add32 h (bsig1 e)) (Ch e f g))
                      (add32 (fst kw) (snd kw)) in
      let t2 := add32 (bsig0 a) (Maj a b c) in
      [add32 t1 t2; a; b; c; add32 d t1; e; f; g]
  | _ => st
  end.

Definition compress (hs : list N) (block : list N) : list N :=
  let w := rev (extend 48 (rev block)) in
  let st := fold_left round (combine K w) hs in
  List.map (fun p => add32 (fst p) (snd p)) (combine hs st).

Fixpoint blocks (fuel : nat) (hs : list N) (words : list N) : list N :=
  match fuel with
  | O => hs
  | S fuel' =>
      match words with
      | [] => hs
      | _ => blocks fuel' (compress hs (firstn 16 words)) (skipn 16 words)
      end
  end.

(** [createHash('sha256').update(s).digest('hex')] *)
Definition hex (s : string) : string :=
  let bytes := pad (utf8 s) in
  let words := toWords (List.length bytes) bytes in
  let hs := blocks (List.length words) H0 words in
  String.concat "" (List.map (JsString.toHex 4) hs).

End Sha256.

(** ** src/watcher/result.ts *)

Module Result.
Import JsString.

Inductive ResultStatus := Success | Failed | Errored | SecretDetected.

Definition statusName (s : ResultStatus) : string :=
  match s with
  | Success => "success"
  | Failed => "failed"
  | Errored => "error"
  | SecretDetected => "secret_detected"
  end.

Record VerifyResult := {
  cmd : string;
  args : list json;
  exitCode : Z;
  expectedExit : json;
  passed : bool;
  durationMs : Z;
  outputTruncated : bool
}.

Record SecretIncident := {
  patterns : list string;
  matchCount : nat;
  incidentHash : string
}.

Record Result := {
  taskId : string;
  status : ResultStatus;
  startedAt : string;
  completedAt : string;
  totalMs : Z;
  verifyResults : list VerifyResult;
  reason : option string;
  branch : option string;
  commitSha : option string;
  insecureRunnerUsed : bool;
  secretIncident : option SecretIncident
}.

Definition verifyToJson (v : VerifyResult) : json :=
  JObj [ ("cmd", JStr (cmd v)); ("args", JArr (args v));
         ("exitCode", JNum (exitCode v));
         ("expectedExit", expectedExit v);
         ("passed", JBool (passed v));
         ("durationMs", JNum (durationMs v));
         ("outputTruncated", JBool (outputTruncated v)) ].

Definition incidentToJson (i : SecretIncident) : json :=
  JObj [ ("patterns", JArr (List.map JStr (patterns i)));
         ("matchCount", JNum (Z.of_nat (matchCount i)));
         ("incidentHash", JStr (incidentHash i)) ].

Definition optional (key : string) (v : option json)
  : list (string * json) :=
  match v with Some x => [(key, x)] | None => [] end.

(** The object that [JSON.stringify] sees: a property that is
    [undefined] is left out. *)
Definition toJson (r : Result) : json :=
  JObj ([ ("taskId", JStr (taskId r));
          ("status", JStr (statusName (status r)));
          ("startedAt", JStr (startedAt r));
          ("completedAt", JStr (completedAt r));
          ("durationMs", JNum (totalMs r));
          ("verifyResults", JArr (List.map verifyToJson (verifyResults r))) ]
        ++ optional "reason" (option_map JStr (reason r))
        ++ optional "branch" (option_map JStr (branch r))
        ++ optional "commitSha" (option_map JStr (commitSha r))
        ++ [ ("insecureRunnerUsed", JBool (insecureRunnerUsed r)) ]
        ++ optional "secretIncident"
             (option_map incidentToJson (secretIncident r)))%list.

Definition writeResult (h : Host) (result : Result)
    (resultsDir root : string) : io unit :=
  let filePath := Path.join [resultsDir; taskId result ++ ".json"] in
  let content := JSON_stringify h (toJson result) in
  FsSafe.writeAtomic h filePath content root.

Section Create.
Variable h : Host.

(** [startedAt] is the time value of the [Date] the caller took. *)
Definition createSuccessResult (taskId : string) (startedAt : Z)
    (verifyResults : list VerifyResult) (branch commitSha : option string)
  : Result :=
  let completedAt := now h in
  {| taskId := taskId; status := Success;
     startedAt := Date_toISOString h startedAt;
     completedAt := Date_toISOString h completedAt;
     totalMs := completedAt - startedAt;
     verifyResults := verifyResults;
     reason := None; branch := branch; commitSha := commitSha;
     insecureRunnerUsed := false; secretIncident := None |}.

Definition createFailedResult (taskId : string) (startedAt : Z)
    (reason : string) (verifyResults : list VerifyResult) : Result :=
  let completedAt := now h in
  {| taskId := taskId; status := Failed;
     startedAt := Date_toISOString h startedAt;
     completedAt := Date_toISOString h completedAt;
     totalMs := completedAt - startedAt;
     verifyResults := verifyResults;
     reason := Some reason; branch := None; commitSha := None;
     insecureRunnerUsed := false; secretIncident := None |}.

Definition createErrorResult (taskId : string) (startedAt : Z)
    (reason : string) : Result :=
  let completedAt := now h in
  {| taskId := taskId; status := Errored;
     startedAt := Date_toISOString h startedAt;
     completedAt := Date_toISOString h completedAt;
     totalMs := completedAt - startedAt;
     verifyResults := [];
     reason := Some reason; branch := None; commitSha := None;
     insecureRunnerUsed := false; secretIncident := None |}.

Definition createSecretDetectedResult (taskId : string) (startedAt : Z)
    (incident : SecretIncident) : Result :=
  let completedAt := now h in
  {| taskId := taskId; status := SecretDetected;
     startedAt := Date_toISOString h startedAt;
     completedAt := Date_toISOString h completedAt;
     totalMs := completedAt - startedAt;
     verifyResults := [];
     reason := Some "Secrets detected in output";
     branch := None; commitSha := None;
     insecureRunnerUsed := false; secretIncident := Some incident |}.
End Create.

End Result.

(** ** src/watcher/loop.ts *)

Module Loop.
Import JsString Js.

Definition HANDOFF_DIR : string := ".ai-handoff".

Module DIRS.
Definition tasks : string := "tasks".
Definition running : string := "running".
Definition results : string := "results".
Definition patches : string := "patches".
Definition logs : string := "logs".
Definition locks : string := "locks".
Definition tmp : string := "tmp".
Definition meta : string := "meta".
End DIRS.

Definition WORKER_LOCK : string := "__worker__.lock".
Definition LOCK_STALE_MS : Z := 5 * 60 * 1000.

Record WatcherConfig := {
  repoPath : string;
  singlePass : bool;
  pollIntervalMs : option Z
}.

Record RunResult := {
  exitCode : Z;
  stdout : string;
  stderr : string;
  timedOut : bool;
  durationMs : Z
}.

(** The collaborators outside this repository's code: the container
    engine and git.  [runnerRun] never throws. *)
Record Tools := {
  isDockerAvailable : bool;
  isRunnerImageAvailable : bool;
  worktreeAdd : string -> string -> string -> io unit;
  worktreeRemove : string -> string -> io unit;
  runnerRun : string -> list json -> string -> option Z ->
              gmap string node -> RunResult * gmap string node
}.

Definition zToString (n : Z) : string :=
  NilZero.string_of_int (Z.to_int n).

(** [String(v)] *)
Fixpoint toString (v : json) : string :=
  match v with
  | JNull => "null"
  | JBool true => "true"
  | JBool false => "false"
  | JNum n => zToString n
  | JStr s => s
  | JArr items =>
      JsString.join ","
        (List.map (fun x => match x with JNull => "" | _ => toString x end)
                  items)
  | JObj _ => "[object Object]"
  end.

(** [new Date(v).getTime()]; [None] is NaN. *)
Definition dateTime (h : Host) (v : option json) : option Z :=
  match v with
  | None => None
  | Some JNull => Some 0%Z
  | Some (JBool b) => Some (if b then 1 else 0)%Z
  | Some (JNum n) => Some n
  | Some (JStr s) => Date_parse h s
  | Some other => Date_parse h (toString other)
  end.

(** [err.message] *)
Definition messageOf (e : error) : string :=
  match e with
  | PathEscapeError m | SymlinkError m | Error m => m
  | TaskValidationError m _ => m
  | SystemError code => code
  | SyntaxError => "Unexpected token in JSON"
  | TypeError => "Cannot read properties of null"
  end.

(** [[...new Set(names)]] *)
Definition distinct (names : list string) : list string :=
  fold_left
    (fun seen x => if existsb (String.eqb x) seen then seen
                   else (seen ++ [x])%list)
    names [].

Section WithConfig.
Variable h : Host.
Variable tools : Tools.
Variable config : WatcherConfig.

Definition handoffPath : string := Path.join [repoPath config; HANDOFF_DIR].

Definition lockPath : string :=
  Path.join [handoffPath; DIRS.locks; WORKER_LOCK].

Definition ownLock : json :=
  JObj [ ("pid", JNum (pid h));
         ("acquired", JStr (Date_toISOString h (now h)));
         ("hostname", JStr (hostname h)) ].

(** The method [acquireWorkerLock]; the second component is the new value
    of [this.workerLockPath]. *)
Definition acquireWorkerLock : io (bool * option string) :=
  tryCatch
    (exists_ <- FsSafe.exists_ h lockPath (repoPath config) ;;
     proceed <-
       (if exists_ : bool then
          content <- FsSafe.read h lockPath (repoPath config) ;;
          lockData <- Task.lift (match JSON_parse h content with
                                 | Some v => inr v
                                 | None => inl SyntaxError
                                 end) ;;
          acquired <- Task.lift (match lockData with
                                 | JNull => inl TypeError
                                 | _ => inr (getProp lockData "acquired")
                                 end) ;;
          let lockTime := dateTime h acquired in
          match lockTime with
          | Some t =>
              if (LOCK_STALE_MS <? now h - t)%Z then
                FsSafe.unlink h lockPath (repoPath config) ;;; ret true
              else ret false
          | None => ret false
          end
        else ret true) ;;
     if proceed : bool then
       FsSafe.writeAtomic h lockPath (JSON_stringify h ownLock)
                          (repoPath config) ;;;
       ret (true, Some lockPath)
     else ret (false, None))
    (fun _ => ret (false, None)).

Definition releaseWorkerLock (workerLockPath : option string) : io unit :=
  match workerLockPath with
  | Some p =>
      tryCatch (FsSafe.unlink h p (repoPath config)) (fun _ => ret tt)
  | None => ret tt
  end.

Definition moveTask (taskId from to : string) : io unit :=
  let fromPath := Path.join [handoffPath; from; taskId ++ ".json"] in
  let toPath := Path.join [handoffPath; to; taskId ++ ".json"] in
  content <- FsSafe.read h fromPath (repoPath config) ;;
  FsSafe.writeAtomic h toPath content (repoPath config) ;;;
  FsSafe.unlink h fromPath (repoPath config).

Definition cleanupWorktree (worktreePath : string) : io unit :=
  let tmpDir := Path.join [handoffPath; DIRS.tmp] in
  tryCatch
    (if negb (FsSafe.isContained h worktreePath tmpDir) then
       throw (Error ("Refusing to clean up path outside tmp: "
                       ++ worktreePath))
     else worktreeRemove tools (repoPath config) worktreePath)
    (fun _ =>
       tryCatch
         (if FsSafe.isContained h worktreePath tmpDir then
            FsSafe.rmdir h worktreePath tmpDir
          else ret tt)
         (fun _ => ret tt)).

(** Lines 191-194: one scanner for both streams of a command. *)
Definition scanOutputs (out err : string)
  : Scanner.ScanResult * Scanner.ScanResult * Scanner.ScanResult :=
  let scanner := Scanner.new [] in
  let '(stdoutScan, scanner) := Scanner.scan scanner out in
  let '(stderrScan, scanner) := Scanner.scan scanner err in
  let '(finalScan, _) := Scanner.finalize scanner in
  (stdoutScan, stderrScan, finalScan).

(** Lines 204-217. *)
Definition incidentOf (taskId : string) (allMatches : list Scanner.ScanMatch)
  : Result.SecretIncident :=
  let names := List.map Scanner.pattern allMatches in
  {| Result.patterns := distinct names;
     Result.matchCount := List.length allMatches;
     Result.incidentHash :=
       slice (Sha256.hex (taskId ++ JsString.join "," names)) 0 (Some 16%Z) |}.

(** [verify.expectedExit ?? 0] *)
Definition orZero (v : option json) : json :=
  match v with
  | None | Some JNull => JNum 0
  | Some x => x
  end.

(** [(verify.timeoutSec ?? 60) * 1000]; a value that is not a number is
    handed on as NaN. *)
Definition timeoutMsOf (v : option json) : option Z :=
  match v with
  | None | Some JNull => Some 60000%Z
  | Some (JNum n) => Some (n * 1000)%Z
  | Some _ => None
  end.

Definition strictEqNum (n : Z) (v : json) : bool :=
  match v with JNum m => (n =? m)%Z | _ => false end.

(** The [for] loop over [task.verify]; [inl] is the [return] from inside
    the loop. *)
Fixpoint verifyLoop (task : Task.Task) (startedAt : Z) (worktreePath : string)
    (verifies : list Task.VerifyCommand)
    (verifyResults : list Result.VerifyResult) (allPassed : bool)
  : io (Result.Result + list Result.VerifyResult * bool) :=
  match verifies with
  | [] => ret (inr (verifyResults, allPassed))
  | verify :: rest =>
      let expectedExit := orZero (Task.expectedExit verify) in
      let timeoutMs := timeoutMsOf (Task.timeoutSec verify) in
      result <- (fun fs =>
                   let '(r, fs') :=
                     runnerRun tools (Task.cmd verify) (Task.args verify)
                               worktreePath timeoutMs fs in
                   (Ok r, fs')) ;;
      let '(stdoutScan, stderrScan, finalScan) :=
        scanOutputs (stdout result) (stderr result) in
      if Scanner.hasSecrets stdoutScan || Scanner.hasSecrets stderrScan
         || Scanner.hasSecrets finalScan then
        cleanupWorktree worktreePath ;;;
        FsSafe.unlink h
          (Path.join [handoffPath; DIRS.running; Task.id task ++ ".json"])
          (repoPath config) ;;;
        let allMatches :=
          (Scanner.matches stdoutScan ++ Scanner.matches stderrScan
             ++ Scanner.matches finalScan)%list in
        let incident := incidentOf (Task.id task) allMatches in
        ret (inl (Result.createSecretDetectedResult h (Task.id task)
                    startedAt incident))
      else
        let passed := strictEqNum (exitCode result) expectedExit in
        let allPassed := if negb passed then false else allPassed in
        verifyLoop task startedAt worktreePath rest
          (verifyResults ++
             [ {| Result.cmd := Task.cmd verify;
                  Result.args := Task.args verify;
                  Result.exitCode := exitCode result;
                  Result.expectedExit := expectedExit;
                  Result.passed := passed;
                  Result.durationMs := durationMs result;
                  Result.outputTruncated :=
                    (100 * 1000 <? String.length (stdout result))%nat
                    || (100 * 1000 <? String.length (stderr result))%nat |} ])%list
          allPassed
  end.

Definition processTask (task : Task.Task) : io Result.Result :=
  let startedAt := now h in
  let worktreePath :=
    Path.join [handoffPath; DIRS.tmp; "ws-" ++ Task.id task] in
  let branchName := "feat/ai/" ++ Task.id task in
  let runningFile :=
    Path.join [handoffPath; DIRS.running; Task.id task ++ ".json"] in
  tryCatch
    (moveTask (Task.id task) DIRS.tasks DIRS.running ;;;
     worktreeAdd tools (repoPath config) worktreePath branchName ;;;
     looped <- verifyLoop task startedAt worktreePath (Task.verify task)
                 [] true ;;
     match looped with
     | inl result => ret result
     | inr (verifyResults, allPassed) =>
         cleanupWorktree worktreePath ;;;
         FsSafe.unlink h runningFile (repoPath config) ;;;
         if allPassed : bool then
           ret (Result.createSuccessResult h (Task.id task) startedAt
                  verifyResults (Some branchName) None)
         else
           let failedVerify :=
             List.filter (fun v => negb (Result.passed v)) verifyResults in
           ret (Result.createFailedResult h (Task.id task) startedAt
                  ("Verification failed: "
                     ++ JsString.join ", " (List.map Result.cmd failedVerify))
                  verifyResults)
     end)
    (fun err =>
       cleanupWorktree worktreePath ;;;
       tryCatch (FsSafe.unlink h runningFile (repoPath config))
                (fun _ => ret tt) ;;;
       ret (Result.createErrorResult h (Task.id task) startedAt
              (messageOf err))).

(** [for (const task of tasks) ...] while [this.running] holds. *)
Fixpoint processAll (tasks : list Task.Task) : io unit :=
  match tasks with
  | [] => ret tt
  | task :: rest =>
      result <- processTask task ;;
      let resultsDir := Path.join [handoffPath; DIRS.results] in
      Result.writeResult h result resultsDir (repoPath config) ;;;
      processAll rest
  end.

(** One round of the [while] loop, up to the test of [singlePass]. *)
Definition runPass : io unit :=
  let tasksDir := Path.join [handoffPath; DIRS.tasks] in
  tasks <- Task.loadTasks h tasksDir (repoPath config) ;;
  processAll tasks.

(** The [while (this.running)] loop; [stop()] arrives after [rounds]
    rounds. *)
Fixpoint rounds (n : nat) : io unit :=
  match n with
  | O => ret tt
  | S n' =>
      runPass ;;;
      if singlePass config then ret tt else rounds n'
  end.

Definition run (stopAfter : nat) : io unit :=
  if negb (isDockerAvailable tools) then
    throw (Error "Docker is not available. Please install and start Docker.")
  else if negb (isRunnerImageAvailable tools) then
    throw (Error "bridge-runner:dev image not found. Run: docker build -t bridge-runner:dev .")
  else
    got <- acquireWorkerLock ;;
    if negb (fst got) then
      throw (Error "Another worker is already running. Remove stale lock or wait.")
    else
      tryFinally (rounds stopAfter) (releaseWorkerLock (snd got)).

End WithConfig.
End Loop.

(** ** src/watcher/lock.ts *)

Module Lock.
Import JsString Js.

Definition WORKER_LOCK_FILE : string := "__worker__.lock".

Definition strictEqStr (v : option json) (s : string) : bool :=
  match v with Some (JStr t) => String.eqb t s | _ => false end.

(** [process.kill(pid, 0)] returns: the pid is a number and the process
    is there. *)
Definition killReturns (h : Host) (v : option json) : bool :=
  match v with Some (JNum n) => alive h n | _ => false end.

(** The calls into the safe layer pass [root] first, as the source does.
    [Some b] is a [return b] from inside the [if]. *)
Definition acquireWorkerLock (h : Host) (lockDir root : string) : io bool :=
  let lockPath := Path.join [lockDir; WORKER_LOCK_FILE] in
  present <- FsSafe.exists_ h root lockPath ;;
  returned <-
    (if present : bool then
       tryCatch
         (content <- FsSafe.read h root lockPath ;;
          metadata <- Task.lift (match JSON_parse h content with
                                 | Some v => inr v
                                 | None => inl SyntaxError
                                 end) ;;
          host <- Task.lift (match metadata with
                             | JNull => inl TypeError
                             | _ => inr (getProp metadata "host")
                             end) ;;
          if strictEqStr host (hostname h) then
            if killReturns h (getProp metadata "pid") then ret (Some false)
            else FsSafe.unlink h root lockPath ;;; ret None
          else ret (Some false))
         (fun _ => FsSafe.unlink h root lockPath ;;; ret None)
     else ret None) ;;
  match returned with
  | Some b => ret b
  | None =>
      let metadata :=
        JObj [ ("pid", JNum (pid h));
               ("host", JStr (hostname h));
               ("created_at", JStr (Date_toISOString h (now h))) ] in
      FsSafe.mkdir h root lockDir ;;;
      FsSafe.writeAtomic h root lockPath (JSON_stringify h metadata) ;;;
      ret true
  end.

End Lock.

(** ** src/runner/types.ts, src/runner/dockerRunner.ts *)

Module Runner.
Import JsString.

Definition ALLOWED_ENV_VARS : list string :=
  ["CI"; "NODE_ENV"; "HOME"; "PATH"; "TERM"; "LANG"; "LC_ALL"; "TZ"].

(** [obj[key] = value] on an object kept in insertion order. *)
Fixpoint setProp (obj : list (string * string)) (key value : string)
  : list (string * string) :=
  match obj with
  | [] => [(key, value)]
  | (k, v) :: rest =>
      if String.eqb k key then (k, value) :: rest
      else (k, v) :: setProp rest key value
  end.

(** An environment maps a name to its value; a name that is absent reads
    as [undefined]. *)
Definition filterEnv (env : gmap string string) : list (string * string) :=
  fold_left
    (fun filtered key =>
       match env !! key with
       | Some value =>
           if negb (String.eqb value "") then setProp filtered key value
           else filtered
       | None => filtered
       end)
    ALLOWED_ENV_VARS [].

(** [buildEnvArgs(env)]; [processEnv] is [process.env]. *)
Definition buildEnvArgs (processEnv : gmap string string)
    (env : option (gmap string string)) : list string :=
  let filteredEnv :=
    filterEnv (match env with Some e => e | None => processEnv end) in
  fold_left
    (fun envArgs kv => (envArgs ++ ["-e"; (fst kv ++ "=" ++ snd kv)%string])%list)
    filteredEnv [].

End Runner.

(** ** A queue for the examples *)

Module Queue.
Import JsString.

Definition config : Loop.WatcherConfig :=
  {| Loop.repoPath := "/repo"; Loop.singlePass := true;
     Loop.pollIntervalMs := None |}.

Definition taskJson (id created : string) (priority : Z)
    (verify : list json) : json :=
  JObj [ ("id", JStr id); ("created", JStr created);
         ("title", JStr "example"); ("prompt", JStr "do it");
         ("scope", JArr [JStr "src"]); ("verify", JArr verify);
         ("priority", JNum priority) ].

Definition handoff : gmap string node :=
  <["/repo" := Dir]>
    (<["/repo/.ai-handoff" := Dir]>
       (<["/repo/.ai-handoff/tasks" := Dir]> ∅)).

(** The queue that holds the task files [files] (name and content). *)
Definition withTasks (files : list (string * string)) : gmap string node :=
  fold_right
    (fun f fs => <["/repo/.ai-handoff/tasks/" ++ fst f := File (snd f)]> fs)
    handoff files.

(** Git and the container engine: a worktree is a directory, a command
    prints [out] and exits with [code]. *)
Definition tools (out : string) (code : Z) : Loop.Tools :=
  {| Loop.isDockerAvailable := true;
     Loop.isRunnerImageAvailable := true;
     Loop.worktreeAdd := fun _ path _ fs =>
       match Fs.lstat fs path with
       | Some _ => (Throw (Error "worktree exists"), fs)
       | None => (Ok tt, <[path := Dir]> fs)
       end;
     Loop.worktreeRemove := fun _ path => Fs.rmRecursive path;
     Loop.runnerRun := fun _ _ _ _ fs =>
       ({| Loop.exitCode := code; Loop.stdout := out; Loop.stderr := "";
           Loop.timedOut := false; Loop.durationMs := 5 |}, fs) |}.

Definition priorityOf (t : Task.Task) : Z :=
  match Js.getProp (Task.raw t) "priority" with
  | Some (JNum n) => n
  | _ => 0%Z
  end.

Definition hi : json := taskJson "hi" "2024-01-02T00:00:00.000Z" 10 [].
Definition lo : json := taskJson "lo" "2024-01-01T00:00:00.000Z" 1 [].
Definition tieA : json := taskJson "a" "2024-01-01T00:00:00.000Z" 0 [].
Definition tieB : json := taskJson "b" "2024-01-01T00:00:00.000Z" 0 [].

Definition text (v : json) : string := Example.stringify "" v.

Definition host (known : list json) (order : list string -> list string)
  : Host :=
  Example.host (Example.newYear + 300000) [] known Example.noFault order.

End Queue.

(** ** src/watcher/loop.ts: [init] *)

Module WatcherInit.
Import JsString.

(** [s.includes(sub)] *)
Fixpoint includes (s sub : string) : bool :=
  String.prefix sub s
  || match s with
     | EmptyString => false
     | String _ s' => includes s' sub
     end.

(** [Object.values(DIRS)] *)
Definition dirValues : list string :=
  [ Loop.DIRS.tasks; Loop.DIRS.running; Loop.DIRS.results; Loop.DIRS.patches;
    Loop.DIRS.logs; Loop.DIRS.locks; Loop.DIRS.tmp; Loop.DIRS.meta ].

Section WithConfig.
Variable h : Host.
Variable config : Loop.WatcherConfig.

(** [for (const dir of Object.values(DIRS)) ...] *)
Fixpoint mkdirEach (dirs : list string) : io unit :=
  match dirs with
  | [] => ret tt
  | dir :: rest =>
      let dirPath := Path.join [Loop.handoffPath config; dir] in
      FsSafe.mkdir h dirPath (Loop.repoPath config) ;;;
      mkdirEach rest
  end.

Definition gitignorePath : string :=
  Path.join [Loop.repoPath config; ".gitignore"].

Definition marker : string :=
  "# Bridge Watcher state" ++ NL ++ Loop.HANDOFF_DIR ++ "/" ++ NL.

Definition init : io unit :=
  mkdirEach dirValues ;;;
  tryCatch
    (content <- FsSafe.read h gitignorePath (Loop.repoPath config) ;;
     if negb (includes content Loop.HANDOFF_DIR) then
       FsSafe.writeAtomic h gitignorePath (content ++ NL ++ marker)
                          (Loop.repoPath config)
     else ret tt)
    (fun _ =>
       FsSafe.writeAtomic h gitignorePath marker (Loop.repoPath config)).

End WithConfig.
End WatcherInit.

(** ** src/watcher/lock.ts: the other functions

    All of them pass [root] first to the safe layer, as the source does. *)

Module LockFile.
Import JsString.

Definition releaseWorkerLock (h : Host) (lockDir root : string) : io unit :=
  let lockPath := Path.join [lockDir; Lock.WORKER_LOCK_FILE] in
  present <- FsSafe.exists_ h root lockPath ;;
  if present : bool then FsSafe.unlink h root lockPath else ret tt.

Definition acquireTaskLock (h : Host) (lockDir taskId root : string)
  : io bool :=
  let lockPath := Path.join [lockDir; taskId ++ ".lock"] in
  present <- FsSafe.exists_ h root lockPath ;;
  if present : bool then ret false
  else
    let metadata :=
      JObj [ ("pid", JNum (pid h));
             ("host", JStr (hostname h));
             ("created_at", JStr (Date_toISOString h (now h)));
             ("task_id", JStr taskId);
             ("timeout_sec", JNum 1800) ] in
    FsSafe.mkdir h root lockDir ;;;
    FsSafe.writeAtomic h root lockPath (JSON_stringify h metadata) ;;;
    ret true.

Definition releaseTaskLock (h : Host) (lockDir taskId root : string)
  : io unit :=
  let lockPath := Path.join [lockDir; taskId ++ ".lock"] in
  present <- FsSafe.exists_ h root lockPath ;;
  if present : bool then FsSafe.unlink h root lockPath else ret tt.

Definition taskResultExists (h : Host) (resultsDir taskId root : string)
  : io bool :=
  let resultPath := Path.join [resultsDir; taskId ++ ".json"] in
  FsSafe.exists_ h root resultPath.

End LockFile.

(** ** src/watcher/safety.ts: the secretless contract

    The blocked patterns are anchored at the end of the name, two of them
    at its start as well; they are matched by the matcher of the pattern
    catalog, whose last continuation asks for the end of the text. *)

Module SecretFiles.
Import JsString Regex.

Fixpoint takeWhile (f : ascii -> bool) (l : list ascii) : list ascii :=
  match l with
  | a :: l' => if f a then a :: takeWhile f l' else []
  | [] => []
  end.

(** [path.basename(p)]: the loop runs from the last character down,
    skips trailing separators and takes the characters down to the next
    separator. *)
Definition basename (path : string) : string :=
  let back := rev (list_ascii_of_string path) in
  let back := Path.dropWhile (fun a => Ascii.eqb a "/") back in
  string_of_list_ascii
    (rev (takeWhile (fun a => negb (Ascii.eqb a "/")) back)).

Record anchored := { fromStart : bool; body : regex }.

Definition atEnd (s : string) : option nat :=
  if String.eqb s "" then Some 0 else None.

Definition matchToEnd (r : regex) : string -> option nat :=
  fold_right (fun it k => rep (cls it) k (rmin it) (rmax it)) atEnd r.

Fixpoint searchToEnd (r : regex) (s : string) : bool :=
  match matchToEnd r s with
  | Some _ => true
  | None =>
      match s with
      | EmptyString => false
      | String _ s' => searchToEnd r s'
      end
  end.

(** [pattern.test(s)] *)
Definition test (p : anchored) (s : string) : bool :=
  if fromStart p then
    match matchToEnd (body p) s with Some _ => true | None => false end
  else searchToEnd (body p) s.

Definition BLOCKED_FILE_PATTERNS : list anchored :=
  [ {| fromStart := true; body := lit ".env" |};
    {| fromStart := true; body := (lit ".env." ++ [plus dot])%list |};
    {| fromStart := false; body := lit ".pem" |};
    {| fromStart := false; body := lit ".key" |} ].

Definition ALLOWED_EXCEPTIONS : list string :=
  [".env.example"; ".env.template"].

Definition isSecretFile (filePath : string) : bool :=
  let fileName := basename filePath in
  if existsb (String.eqb fileName) ALLOWED_EXCEPTIONS then false
  else existsb (fun pattern => test pattern fileName) BLOCKED_FILE_PATTERNS.

Definition findSecretFiles (filePaths : list string) : list string :=
  List.filter isSecretFile filePaths.

End SecretFiles.

(** ** src/watcher/safety.ts: the checks that ask git

    What simple-git answers is outside this code: [status] stands for
    [gitSafe.create(wsPath)] followed by [git.status()], and both it and
    [checkoutLocalBranch] may throw and may change the state of git. *)

Module Preflight.
Import JsString.

Record StatusResult := {
  isClean : bool;
  current : option string;
  modified : list string;
  created : list string;
  deleted : list string;
  renamed : list (string * string)
}.

Record Git (G : Type) := {
  status : string -> G -> outcome StatusResult * G;
  checkoutLocalBranch : string -> string -> G -> outcome unit * G
}.

Arguments status {G} _ _ _.
Arguments checkoutLocalBranch {G} _ _ _ _.

Record PreflightResult := {
  passed : bool;
  dirty : bool;
  branch : string;
  issues : list string
}.

Section WithGit.
Context {G : Type}.
Variable git : Git G.

Definition isRepoDirty (wsPath : string) (g : G) : bool * G :=
  match status git wsPath g with
  | (Ok st, g') => (negb (isClean st), g')
  | (Throw _, g') => (true, g')
  end.

Definition getCurrentBranch (wsPath : string) (g : G) : option string * G :=
  match status git wsPath g with
  | (Ok st, g') => (current st, g')
  | (Throw _, g') => (None, g')
  end.

(** [status.current || 'main'] *)
Definition orMain (current : option string) : string :=
  match current with
  | Some name => if String.eqb name "" then "main" else name
  | None => "main"
  end.

Definition ensureTaskBranch (wsPath taskId : string) (g : G)
  : outcome (string * bool) * G :=
  match status git wsPath g with
  | (Throw e, g') => (Throw e, g')
  | (Ok st, g') =>
      let currentBranch := orMain (current st) in
      if negb (String.eqb currentBranch "main")
         && negb (String.eqb currentBranch "master") then
        (Ok (currentBranch, false), g')
      else
        let branchName := "feat/ai/" ++ taskId in
        match checkoutLocalBranch git wsPath branchName g' with
        | (Throw e, g'') => (Throw e, g'')
        | (Ok _, g'') => (Ok (branchName, true), g'')
        end
  end.

Definition getChangedFiles (wsPath : string) (g : G) : list string * G :=
  match status git wsPath g with
  | (Ok st, g') =>
      (Loop.distinct
         (modified st ++ created st ++ deleted st
            ++ List.map snd (renamed st))%list, g')
  | (Throw _, g') => ([], g')
  end.

Definition runPreflightChecks (wsPath taskId : string) (g : G)
  : outcome PreflightResult * G :=
  let '(isDirty, g1) := isRepoDirty wsPath g in
  if isDirty then
    (Ok {| passed := false; dirty := true; branch := "unknown";
           issues := ["Repository has uncommitted changes"] |}, g1)
  else
    match ensureTaskBranch wsPath taskId g1 with
    | (Throw e, g2) => (Throw e, g2)
    | (Ok (name, _), g2) =>
        (Ok {| passed := true; dirty := false; branch := name;
               issues := [] |}, g2)
    end.

End WithGit.
End Preflight.

(** ** src/cli.ts: [parseArgs] *)

Module Cli.
Import JsString.

(** What [parseArgs] comes to: the usage or the version is printed and
    the process exits with code 0, or the command and the repository
    are returned. *)
Inductive parsed :=
| ExitAfterUsage
| ExitAfterVersion
| Parsed (command repo : string).

(** The loop, with the values of [command] and [repo] so far.  After a
    last argument [--repo] the value [args[++i]] is [undefined], the
    repository falls back to the working directory and the loop ends. *)
Fixpoint parseLoop (cwd : string) (args : list string)
    (command repo : string) : parsed :=
  match args with
  | [] => Parsed command (Path.resolve cwd repo)
  | arg :: rest =>
      if String.eqb arg "--help" || String.eqb arg "-h" then ExitAfterUsage
      else if String.eqb arg "--version" || String.eqb arg "-v" then
        ExitAfterVersion
      else if String.eqb arg "--repo" || String.eqb arg "-r" then
        match rest with
        | value :: rest' =>
            parseLoop cwd rest' command
                      (if String.eqb value "" then cwd else value)
        | [] => Parsed command (Path.resolve cwd cwd)
        end
      else if negb (startsWith arg "-") && String.eqb command "" then
        parseLoop cwd rest arg repo
      else parseLoop cwd rest command repo
  end.

Definition parseArgs (cwd : string) (args : list string) : parsed :=
  parseLoop cwd args "" cwd.

End Cli.

(** * Terms of the statements

    Predicates and example inputs that the facts below are stated with.
    They are not part of the program. *)

Section ScannerTerms.
Import JsString Regex Scanner.

Definition sameMatchSet (l1 l2 : list ScanMatch) : Prop :=
  forall m, In m l1 <-> In m l2.

End ScannerTerms.

Section WriteAtomicTerms.
Import JsString.
Variable h : Host.

(** The two phases of [writeAtomic]: what runs before the temporary file
    is written, and the [try] block with its [catch]. *)
Definition writeAtomicPrepare (filePath root : string) : io string :=
  let resolvedPath := Path.resolve (cwd h) filePath in
  if negb (FsSafe.isContained h resolvedPath root) then
    throw (FsSafe.escapes filePath root)
  else
    FsSafe.validateParentChain h filePath root ;;;
    Fs.mkdirRecursive h (Path.dirname resolvedPath) ;;;
    ret resolvedPath.

Definition writeAtomicCommit (resolvedPath content : string) : io unit :=
  let tmpName := FsSafe.tmpNameOf h resolvedPath in
  tryCatch
    (Fs.writeFile h tmpName content ;;;
     Fs.rename h tmpName resolvedPath)
    (fun err =>
       tryCatch (Fs.unlink h tmpName) (fun _ => ret tt) ;;;
       throw err).

End WriteAtomicTerms.

Section PathTerms.
Import JsString.

Definition chars (s : string) : list ascii := list_ascii_of_string s.

Definition notSep (a : ascii) : Prop := a <> "/"%char.

(** A segment of a resolved path: not empty, no separator inside. *)
Definition cleanSeg (s : string) : Prop := s <> "" /\ Forall notSep (chars s).

End PathTerms.

Section MkdirTerms.
Import JsString.

Definition chainStep (st : string * list string) (seg : string)
  : string * list string :=
  let next := fst st ++ "/" ++ seg in (next, (snd st ++ [next])%list).

End MkdirTerms.

Section TaskValidationTerms.
Import JsString Js Task.

(** The invariants of the data model, as the specification words them. *)
Definition idChar (a : ascii) : bool :=
  Regex.alnum a || Regex.isChar "." a || Regex.isChar "_" a
  || Regex.isChar "-" a.

Definition idMatches (s : string) : bool :=
  negb (String.eqb s "") && forallb idChar (list_ascii_of_string s).

Definition specInvariants (t : Task) : bool :=
  idMatches (id t)
  && negb (Nat.eqb (List.length (scope t)) 0)
  && forallb (fun v => negb (String.eqb (cmd v) "")) (verify t).

(** What [validateTask] checks. *)
Definition verifyEntryOk (v : json) : Prop :=
  exists props c a,
    v = JObj props /\ assoc "cmd" props = Some (JStr c) /\
    assoc "args" props = Some (JArr a).

Definition taskOk (obj : json) : Prop :=
  exists props i c t p sc vs,
    obj = JObj props /\
    assoc "id" props = Some (JStr i) /\ i <> "" /\
    assoc "created" props = Some (JStr c) /\ c <> "" /\
    assoc "title" props = Some (JStr t) /\ t <> "" /\
    assoc "prompt" props = Some (JStr p) /\ p <> "" /\
    assoc "scope" props = Some (JArr sc) /\
    Forall (fun s => exists str, s = JStr str) sc /\
    assoc "verify" props = Some (JArr vs) /\
    Forall verifyEntryOk vs.

Definition isValidationError {A} (r : error + A) : Prop :=
  match r with
  | inl e => exists message field, e = TaskValidationError message field
  | inr _ => True
  end.

Definition unsafeTask : json :=
  JObj [ ("id", JStr "../x");
         ("created", JStr "2024-01-01T00:00:00.000Z");
         ("title", JStr "t");
         ("prompt", JStr "p");
         ("scope", JArr []);
         ("verify", JArr [JObj [("cmd", JStr ""); ("args", JArr [])]]) ].

End TaskValidationTerms.

Section RunnerTerms.
Import Runner.

Definition allowedValue (env : gmap string string) (key : string)
  : list (string * string) :=
  match env !! key with
  | Some value => if negb (String.eqb value "") then [(key, value)] else []
  | None => []
  end.

End RunnerTerms.

Section SortTerms.
Import Task.
Context {A : Type}.
Variable key : A -> option Z.

Definition compareKey (a b : A) : option Z :=
  match key a, key b with
  | Some x, Some y => Some (x - y)%Z
  | _, _ => None
  end.

Definition keyLe (a b : A) : Prop :=
  exists x y, key a = Some x /\ key b = Some y /\ (x <= y)%Z.

(** Stability: the elements of one key keep their order. *)
Definition hasKey (k : Z) (a : A) : bool :=
  match key a with Some x => (x =? k)%Z | None => false end.

End SortTerms.

Section LoadTerms.
Import JsString Task.
Variable h : Host.

(** The tasks that load, in the order of the file names. *)
Definition loadedOf (tasksDir root : string) (fs : gmap string node)
    (files : list string) : list Task :=
  flat_map
    (fun file =>
       match fst (loadTask h (Path.join [tasksDir; file]) root fs) with
       | Ok task => [task]
       | Throw _ => []
       end)
    files.

Definition isJson (f : string) : bool := endsWith f ".json".

Definition createdTime (t : Task) : option Z := Date_parse h (created t).

End LoadTerms.

Section TaskOrderTerms.
Import JsString Task.

Definition tasksDirOf (config : Loop.WatcherConfig) : string :=
  Path.join [Loop.handoffPath config; Loop.DIRS.tasks].

(** The order that the specification words: priority descending, then
    created-at ascending, then id in lexicographic order.  A task without
    a priority counts as priority 0. *)
Definition claimedBefore (h : Host) (a b : Task) : bool :=
  let pa := Queue.priorityOf a in
  let pb := Queue.priorityOf b in
  match createdTime h a, createdTime h b with
  | Some ta, Some tb =>
      (pb <? pa)%Z
      || (pa =? pb)%Z
         && ((ta <? tb)%Z || (ta =? tb)%Z && String.leb (id a) (id b))
  | _, _ => false
  end.

Definition validated (obj : json) : Task :=
  match validateTask obj with
  | inr t => t
  | inl _ =>
      {| id := ""; created := ""; title := ""; prompt := "";
         scope := []; verify := []; raw := JNull |}
  end.

End TaskOrderTerms.

Section SecretIncidentTerms.
Import JsString Task.
Variable h : Host.
Variable tools : Loop.Tools.
Variable config : Loop.WatcherConfig.

(** [names.sort()] on strings. *)
Fixpoint insertName (x : string) (l : list string) : list string :=
  match l with
  | [] => [x]
  | y :: rest => if String.leb x y then x :: l else y :: insertName x rest
  end.

Definition sortNames (l : list string) : list string :=
  fold_right insertName [] l.

(** The hash as the specification words it: the task id, a comma, the
    sorted pattern names. *)
Definition claimedIncidentHash (taskId : string) (patterns : list string)
  : string :=
  slice (Sha256.hex (taskId ++ "," ++ JsString.join "," (sortNames patterns)))
        0 (Some 16%Z).

Definition bearerTask : json :=
  Queue.taskJson "t1" "2024-01-01T00:00:00.000Z" 0
    [JObj [("cmd", JStr "true"); ("args", JArr [])]].

(** The matches that the three scans of a command's output report. *)
Definition allMatchesOf (run : Loop.RunResult) : list Scanner.ScanMatch :=
  let '(stdoutScan, stderrScan, finalScan) :=
    Loop.scanOutputs (Loop.stdout run) (Loop.stderr run) in
  (Scanner.matches stdoutScan ++ Scanner.matches stderrScan
     ++ Scanner.matches finalScan)%list.

Definition outputOf (task : Task) (verify : VerifyCommand)
    (fs : gmap string node) : Loop.RunResult :=
  fst (Loop.runnerRun tools (cmd verify) (args verify)
         (Path.join [Loop.handoffPath config; Loop.DIRS.tmp;
                     "ws-" ++ id task])
         (Loop.timeoutMsOf (timeoutSec verify)) fs).

End SecretIncidentTerms.

(** What [processTask] returns for the task t1 whose command prints one
    bearer token. *)
Definition bearerResult : Result.Result :=
  {| Result.taskId := "t1";
     Result.status := Result.SecretDetected;
     Result.startedAt := "2024-01-01T00:05:00.000Z";
     Result.completedAt := "2024-01-01T00:05:00.000Z";
     Result.totalMs := 0;
     Result.verifyResults := [];
     Result.reason := Some "Secrets detected in output";
     Result.branch := None;
     Result.commitSha := None;
     Result.insecureRunnerUsed := false;
     Result.secretIncident :=
       Some {| Result.patterns := ["BEARER_TOKEN"];
               Result.matchCount := 3;
               Result.incidentHash := "33f5b70437c614e3" |} |}.

Section WorkerLockTerms.
Import JsString Js.

(** A lock is stale for the loop when its [acquired] time lies more than
    five minutes back; a lock that does not parse, or whose time does
    not, is not. *)
Definition staleByAge (h : Host) (content : string) : bool :=
  match JSON_parse h content with
  | Some JNull | None => false
  | Some lockData =>
      match Loop.dateTime h (getProp lockData "acquired") with
      | Some t => (Loop.LOCK_STALE_MS <? now h - t)%Z
      | None => false
      end
  end.

(** What the claim C6 decides by: the recorded host is this host and the
    recorded pid is alive. *)
Definition heldByLiveLocalProcess (h : Host) (lockData : json) : bool :=
  Lock.strictEqStr (getProp lockData "hostname") (hostname h)
  && Lock.killReturns h (getProp lockData "pid").

Definition lockOf (pid : Z) (host acquired : string) : json :=
  JObj [ ("pid", JNum pid); ("acquired", JStr acquired);
         ("hostname", JStr host) ].

Definition lockedQueue (lock : json) : gmap string node :=
  <["/repo/.ai-handoff/locks" := Dir]>
    (<["/repo/.ai-handoff/locks/__worker__.lock"
         := File (Example.stringify "" lock)]> Queue.handoff).

End WorkerLockTerms.

(** ** Terms of the further statements *)

Section StreamTerms.
Import JsString Regex Scanner.

(** A text matches a pattern of the fragment when it splits into one run
    of characters for each item, every run taken from the class of its
    item and as long as the quantifier of the item allows. *)
Fixpoint Matches (r : regex) (s : string) : Prop :=
  match r with
  | [] => s = ""
  | it :: rest =>
      exists run tail,
        s = run ++ tail /\
        Forall (fun a => cls it a = true) (list_ascii_of_string run) /\
        rmin it <= String.length run /\
        match rmax it with
        | Some most => String.length run <= most
        | None => True
        end /\
        Matches rest tail
  end.

End StreamTerms.

Section OccurrenceTerms.
Import JsString Regex Scanner.

(** The match [m] stands for an occurrence in [text]: the pattern it
    names matches the [n] characters from index [i] on, and its line and
    column are those of index [i], counted from [lineOffset]. *)
Definition reportsOccurrence (this : StreamScanner) (text : string)
    (lineOffset : nat) (m : ScanMatch) : Prop :=
  exists r i n,
    In (pattern m, r) (patterns this) /\
    i + n <= String.length text /\
    Matches r (take n (drop i text)) /\
    line m = Z.of_nat (lineOffset + countNewlines (take i text) + 1) /\
    column m = Z.of_nat (lastLineLength (take i text) + 1).

End OccurrenceTerms.

Section ResolvedPathTerms.
Import JsString.

(** A segment of a normalised path: clean, and neither [.] nor [..]. *)
Definition plainSeg (s : string) : Prop :=
  cleanSeg s /\ s <> "." /\ s <> "..".

(** The segments of an absolute path, and the path that segments spell. *)
Definition segments (p : string) : list string :=
  List.filter (fun s => negb (String.eqb s "")) (Path.split "/" p).

Definition pathOf (S : list string) : string := "/" ++ JsString.join "/" S.

(** The paths from [pathOf R] (left out) down to [pathOf (R ++ D)], the
    nearest to [R] first. *)
Fixpoint below (R D : list string) : list string :=
  match D with
  | [] => []
  | d :: D' => pathOf (R ++ [d]) :: below (R ++ [d]) D'
  end.

(** The first of [paths] that is a symbolic link, when all the paths
    before it are there. *)
Fixpoint firstSymlink (fs : gmap string node) (paths : list string)
  : option string :=
  match paths with
  | [] => None
  | q :: rest =>
      match Fs.lstat fs q with
      | None => None
      | Some (Symlink _) => Some q
      | Some _ => firstSymlink fs rest
      end
  end.

End ResolvedPathTerms.

Section ConfinementTerms.
Import JsString.

(** [q] is the root or lies under it, by the test of [isContained]. *)
Definition insideRoot (resolvedRoot q : string) : Prop :=
  q = resolvedRoot \/ exists rest, q = resolvedRoot ++ "/" ++ rest.

End ConfinementTerms.

Section NewTerms.
Import JsString.

(** [path] lies under [root] and is not [root] itself. *)
Definition strictlyInside (h : Host) (path root : string) : Prop :=
  FsSafe.isContained h path root = true /\
  Path.resolve (cwd h) path <> Path.resolve (cwd h) root.

(** The characters that [.] of a regular expression matches. *)
Definition noLineBreak (a : ascii) : Prop :=
  a <> "010"%char /\ a <> "013"%char.

End NewTerms.

Section InitTerms.
Import JsString WatcherInit.
Variable h : Host.
Variable config : Loop.WatcherConfig.

(** The directory [dir] of the hand-off tree has been made: it and the
    directories above it are there, inside the repository, and the
    system lets it be made. *)
Definition made (fs : gmap string node) (dir : string) : Prop :=
  let p := Path.join [Loop.handoffPath config; dir] in
  FsSafe.isContained h p (Loop.repoPath config) = true /\
  fault h (OpMkdir (Path.resolve (cwd h) p)) = false /\
  Forall (fun q => Fs.lstat fs q = Some Dir)
         (Fs.chain (Path.resolve (cwd h) p)) /\
  Fs.lstat fs (Path.resolve (cwd h) p) = Some Dir.


(** The second half of [init]: the [try] block with its [catch]. *)
Definition gitignoreStep : io unit :=
  tryCatch
    (content <- FsSafe.read h (gitignorePath config) (Loop.repoPath config) ;;
     if negb (includes content Loop.HANDOFF_DIR) then
       FsSafe.writeAtomic h (gitignorePath config) (content ++ NL ++ marker)
                          (Loop.repoPath config)
     else ret tt)
    (fun _ =>
       FsSafe.writeAtomic h (gitignorePath config) marker
                          (Loop.repoPath config)).


End InitTerms.

Section IncidentTerms.
Import JsString.

Definition isHexDigit (a : ascii) : Prop :=
  In a (list_ascii_of_string "0123456789abcdef").

End IncidentTerms.

(** The example repository with a file outside it, the queue with
    one task file, and a repository that was never initialised. *)

Definition withPasswd : gmap string node :=
  <["/etc/passwd" := File "root"]> exampleRepo.

Definition oneTask : gmap string node :=
  Queue.withTasks [("lo.json", Queue.text Queue.lo)].

Definition bareRepo : gmap string node := <["/repo" := Dir]> ∅.

(** * Facts

    From here on: what the embedding satisfies, and the claims. *)

(** ** Facts about string primitives *)

Module JsStringFacts.
Import JsString.

Lemma app_cons a (s t : string) : String a s ++ t = String a (s ++ t).
Proof. reflexivity. Qed.

Lemma app_nil_l (t : string) : "" ++ t = t.
Proof. reflexivity. Qed.

Lemma length_take n s : String.length (take n s) = Nat.min n (String.length s).
Proof.
  revert s; induction n as [|n IH]; intros [|a s]; simpl; auto.
Qed.

Lemma length_drop n s : String.length (drop n s) = String.length s - n.
Proof.
  revert s; induction n as [|n IH]; intros [|a s]; simpl; auto.
Qed.

Lemma take_drop n s : take n s ++ drop n s = s.
Proof.
  revert s; induction n as [|n IH]; intros [|a s]; cbn [take drop]; auto.
  change (String a (take n s ++ drop n s) = String a s).
  now rewrite IH.
Qed.

Lemma length_app (s t : string) :
  String.length (s ++ t) = String.length s + String.length t.
Proof. induction s as [|a s IH]; simpl; auto. Qed.

Lemma byteLength_ge_length s : String.length s <= byteLength s.
Proof.
  induction s as [|a s IH]; simpl; [lia|].
  destruct (code a <? 128)%N; lia.
Qed.

Lemma prefix_app (p s : string) : String.prefix p (p ++ s) = true.
Proof.
  induction p as [|a p IH]; simpl.
  - now destruct s.
  - destruct (ascii_dec a a); [exact IH | congruence].
Qed.

Lemma prefix_spec (p s : string) :
  String.prefix p s = true <-> exists t, s = p ++ t.
Proof.
  split.
  - revert s; induction p as [|a p IH]; intros s H.
    + exists s; reflexivity.
    + destruct s as [|b s]; simpl in H; [discriminate|].
      destruct (ascii_dec a b) as [->|]; [|discriminate].
      destruct (IH _ H) as [t ->]. now exists t.
  - intros [t ->]. apply prefix_app.
Qed.

End JsStringFacts.

Import JsStringFacts.

(** ** The example host reads and prints dates *)

Section ExampleFacts.
Import Example.

Example isoParse_newYear : isoParse "2024-01-01T00:00:00.000Z" = Some newYear.
Proof. vm_compute. reflexivity. Qed.

Example isoPrint_newYear : isoPrint newYear = "2024-01-01T00:00:00.000Z".
Proof. vm_compute. reflexivity. Qed.

Example isoParse_leap :
  isoParse "2024-02-29T23:59:59.999Z" = Some 1709251199999%Z /\
  isoParse "2023-02-29T00:00:00.000Z" = None /\
  isoParse "yesterday" = None.
Proof. vm_compute. auto. Qed.

End ExampleFacts.

(** ** Facts about the matcher and the scanner *)

Section MatcherFacts.
Import JsString Regex.

Lemma rep_bounds c k m :
  (forall s n, k s = Some n -> m <= n <= String.length s) ->
  forall s lo hi n,
    rep c k lo hi s = Some n -> lo + m <= n <= String.length s.
Proof.
  intros Hk s; induction s as [|a s IH]; intros lo hi n; cbn [rep].
  - destruct (Nat.eqb_spec lo 0) as [->|]; [|discriminate].
    intros H; apply Hk in H; simpl in *; lia.
  - assert (Hstop : (if Nat.eqb lo 0 then k (String a s) else None) = Some n ->
                    lo + m <= n <= String.length (String a s)).
    { destruct (Nat.eqb_spec lo 0) as [->|]; [|discriminate].
      intros H; apply Hk in H; simpl in *; lia. }
    destruct (c a && negb (exhausted hi)); [|exact Hstop].
    destruct (rep c k (Nat.pred lo) (option_map Nat.pred hi) s) as [n'|] eqn:E;
      [|exact Hstop].
    intros [= <-]. apply IH in E. simpl. lia.
Qed.

Lemma matchHere_bounds r s n :
  matchHere r s = Some n -> minLength r <= n <= String.length s.
Proof.
  revert s n; induction r as [|it r IH]; intros s n; cbn.
  - intros [= <-]; lia.
  - intros H. eapply rep_bounds in H; [exact H|]. exact IH.
Qed.

Lemma search_bounds r s i j n :
  search r s i = Some (j, n) ->
  i <= j /\ j + n <= i + String.length s /\ minLength r <= n.
Proof.
  revert i; induction s as [|a s IH]; intros i; cbn [search].
  - destruct (matchHere r "") as [n'|] eqn:E; [|discriminate].
    intros [= <- <-]. apply matchHere_bounds in E. simpl in *. lia.
  - destruct (matchHere r (String a s)) as [n'|] eqn:E.
    + intros [= <- <-]. apply matchHere_bounds in E. simpl in *. lia.
    + intros H. apply IH in H. simpl. lia.
Qed.

Lemma exec_bounds r text lastIndex j n :
  exec r text lastIndex = Some (j, n) ->
  lastIndex <= j /\ j + n <= String.length text /\ minLength r <= n.
Proof.
  unfold exec.
  destruct (Nat.ltb_spec (String.length text) lastIndex) as [Hlt|Hle];
    [discriminate|].
  intros H. apply search_bounds in H. rewrite length_drop in H. lia.
Qed.

(** The loop of [findMatches] ends: on a pattern that cannot match the
    empty string, rounds beyond [S (length text)] find nothing more. *)
Lemma execLoop_enough_fuel r text :
  1 <= minLength r ->
  forall fuel extra lastIndex,
    String.length text < lastIndex + fuel ->
    execLoop (fuel + extra) r text lastIndex = execLoop fuel r text lastIndex.
Proof.
  intros Hmin fuel; induction fuel as [|fuel IH]; intros extra lastIndex Hlen.
  - destruct extra as [|extra]; [reflexivity|]. cbn.
    unfold exec.
    destruct (Nat.ltb_spec (String.length text) lastIndex) as [Hlt|Hle];
      [reflexivity | lia].
  - cbn. destruct (exec r text lastIndex) as [[j n]|] eqn:E; [|reflexivity].
    apply exec_bounds in E. f_equal. apply IH. lia.
Qed.

Lemma execAll_enough_fuel r text extra :
  1 <= minLength r ->
  execLoop (S (String.length text) + extra) r text 0 = execAll r text.
Proof. intros H. apply execLoop_enough_fuel; [exact H | lia]. Qed.

Lemma CORE_PATTERNS_consume :
  Forall (fun p => 1 <= minLength (snd p)) Scanner.CORE_PATTERNS.
Proof.
  apply List.Forall_forall. intros p Hp. apply Nat.leb_le.
  revert p Hp. apply forallb_forall. vm_compute. reflexivity.
Qed.

End MatcherFacts.

Section ScannerFacts.
Import JsString Regex Scanner.

Lemma findMatches_line this text lineOffset m :
  In m (findMatches this text lineOffset) ->
  (Z.of_nat lineOffset < line m)%Z.
Proof.
  unfold findMatches. rewrite in_flat_map. intros [p [_ H]].
  apply in_map_iff in H as [i [<- _]]. cbn. lia.
Qed.

Lemma filter_all {A} (f : A -> bool) (l : list A) :
  (forall x, In x l -> f x = true) -> List.filter f l = l.
Proof.
  induction l as [|x l IH]; intros H; cbn; [reflexivity|].
  rewrite (H x (or_introl eq_refl)). f_equal. apply IH.
  intros y Hy. apply H. now right.
Qed.

(** The filter that [scan] applies to its matches keeps every one of
    them: a line number is above [lineOffset], the bound is below it. *)
Lemma scan_reports_all this chunk :
  matches (fst (scan this chunk)) =
  findMatches this (overlapBuffer this ++ chunk) (totalLines this).
Proof.
  unfold scan. cbn [fst matches resultOf]. apply filter_all. intros m Hm.
  apply findMatches_line in Hm. apply Z.ltb_lt. lia.
Qed.

(** A text that fits the buffer is scanned whole by [scan] and once more
    by [finalize]: [scanString] reports each of its matches twice, the
    second time with the line numbers shifted by the number of its lines. *)
Lemma scanString_reports_twice text :
  0 < String.length text <= OVERLAP_BUFFER_SIZE ->
  matches (scanString text)
  = (findMatches (new []) text 0
       ++ findMatches (new []) text (countNewlines text))%list.
Proof.
  intros [Hpos Hfit]. unfold scanString.
  pose proof (scan_reports_all (new []) text) as Hscan.
  destruct (scan (new []) text) as [result scanner] eqn:E.
  cbn [fst] in Hscan.
  assert (Hsc : scanner = {| overlapBuffer := text;
                             patterns := patterns (new []);
                             totalLines := countNewlines text |}).
  { revert E. unfold scan. cbn [overlapBuffer totalLines new].
    rewrite app_nil_l.
    destruct (Nat.ltb_spec OVERLAP_BUFFER_SIZE (String.length text)); [lia|].
    now intros [= _ <-]. }
  subst scanner. unfold finalize. cbn [overlapBuffer totalLines].
  destruct (Nat.eqb_spec (String.length text) 0); [lia|].
  cbn [matches resultOf]. now rewrite Hscan.
Qed.

(** C1. [StreamScanner.scan] and [finalize] on the text LF sk-abcdefghij:
    fed as the two chunks LF and sk-abcdefghij, the one occurrence of
    OPENAI_KEY is reported twice (by the second [scan] and by [finalize]),
    both times on line 3; [scanString] on the whole text reports it on
    line 2 and on line 3.  The two sets of matches differ, and the
    streaming run reports one occurrence more than once. *)
Theorem C1_streaming_diverges :
  let chunks := [NL; "sk-abcdefghij"] in
  let s := NL ++ "sk-abcdefghij" in
  let hit l := {| pattern := "OPENAI_KEY"; line := l; column := 1 |} in
  JsString.join "" chunks = s /\
  Forall (fun c => String.length c <= OVERLAP_BUFFER_SIZE) chunks /\
  stream chunks = [hit 3%Z; hit 3%Z] /\
  matches (scanString s) = [hit 2%Z; hit 3%Z] /\
  ~ sameMatchSet (stream chunks) (matches (scanString s)) /\
  ~ List.NoDup (stream chunks).
Proof.
  cbv zeta. split; [reflexivity|].
  split.
  { apply List.Forall_forall. intros c Hc. apply Nat.leb_le.
    revert c Hc. apply forallb_forall. vm_compute. reflexivity. }
  assert (E1 : stream [NL; "sk-abcdefghij"] =
               [mkMatch "OPENAI_KEY" 3 1; mkMatch "OPENAI_KEY" 3 1])
    by (vm_compute; reflexivity).
  assert (E2 : matches (scanString (NL ++ "sk-abcdefghij")) =
               [mkMatch "OPENAI_KEY" 2 1; mkMatch "OPENAI_KEY" 3 1])
    by (vm_compute; reflexivity).
  rewrite E1, E2. repeat split.
  - intros H. destruct (proj2 (H (mkMatch "OPENAI_KEY" 2 1))) as [E|[E|[]]];
      [now left | discriminate E | discriminate E].
  - intros H. apply NoDup_cons_iff in H as [H _]. apply H. now left.
Qed.

End ScannerFacts.

Section SafetyFacts.
Import JsString Safety.

Lemma app_assoc_s (a b c : string) : (a ++ b) ++ c = a ++ (b ++ c).
Proof.
  induction a as [|x a IH]; [reflexivity|].
  now rewrite !app_cons, IH.
Qed.

Lemma drop_app_length (d p : string) : drop (String.length d) (d ++ p) = p.
Proof.
  induction d as [|x d IH]; [now destruct p|].
  rewrite app_cons. exact IH.
Qed.

Lemma take_app_length (d p : string) : take (String.length d) (d ++ p) = d.
Proof.
  induction d as [|x d IH]; [now destruct p|].
  rewrite app_cons. cbn [String.length take]. now rewrite IH.
Qed.

Lemma startsWith_spec (s p : string) :
  startsWith s p = true <-> exists rest, s = p ++ rest.
Proof. apply prefix_spec. Qed.

Lemma endsWith_spec (s p : string) :
  endsWith s p = true <-> exists d, s = d ++ p.
Proof.
  unfold endsWith. rewrite andb_true_iff, Nat.leb_le, String.eqb_eq. split.
  - intros [_ H]. exists (take (String.length s - String.length p) s).
    pose proof (take_drop (String.length s - String.length p) s) as E.
    rewrite H in E. now symmetry.
  - intros [d ->]. rewrite length_app. split; [lia|].
    replace (String.length d + String.length p - String.length p)
      with (String.length d) by lia.
    apply drop_app_length.
Qed.

Lemma slice_strip_glob (d : string) : slice (d ++ "/*") 0 (Some (-2)%Z) = d.
Proof.
  unfold slice, clampIndex. rewrite length_app. cbn [Z.ltb Z.compare].
  cbn [drop String.length Nat.add].
  replace (Z.to_nat (Z.max (Z.of_nat (String.length d + 2) + -2) 0)
           - Nat.min (Z.to_nat 0) (String.length d + 2))
    with (String.length d) by lia.
  replace (Nat.min (Z.to_nat 0) (String.length d + 2)) with 0 by lia.
  cbn [drop]. apply take_app_length.
Qed.

Lemma scopeAllows_admits file S :
  scopeAllows file S = true <-> admits S file.
Proof.
  unfold scopeAllows, admits. split.
  - destruct (String.eqb_spec file S) as [->|Hne]; [now left|].
    destruct (startsWith file (S ++ "/")) eqn:E1.
    { apply startsWith_spec in E1 as [rest ->]. intros _. right; left.
      exists rest. now rewrite app_assoc_s. }
    destruct (endsWith S "/*") eqn:E2; [|discriminate].
    apply endsWith_spec in E2 as [d ->]. rewrite slice_strip_glob.
    destruct (startsWith file (d ++ "/")) eqn:E3; [|discriminate].
    apply startsWith_spec in E3 as [rest ->]. intros _. right; right.
    exists d, rest. now rewrite app_assoc_s.
  - intros [->|[[rest ->]|[d [rest [-> ->]]]]].
    + now rewrite String.eqb_refl.
    + destruct (String.eqb_spec (S ++ "/" ++ rest) S); [reflexivity|].
      rewrite <- app_assoc_s.
      now rewrite (proj2 (startsWith_spec _ _) (ex_intro _ rest eq_refl)).
    + destruct (String.eqb_spec (d ++ "/" ++ rest) (d ++ "/*"));
        [reflexivity|].
      destruct (startsWith (d ++ "/" ++ rest) ((d ++ "/*") ++ "/"));
        [reflexivity|].
      rewrite (proj2 (endsWith_spec _ _) (ex_intro _ d eq_refl)).
      rewrite slice_strip_glob, <- app_assoc_s.
      now rewrite (proj2 (startsWith_spec _ _) (ex_intro _ rest eq_refl)).
Qed.

Lemma violations_filter allowedScope actualChanges :
  violations (validateScope allowedScope actualChanges) =
  List.filter (fun f => negb (existsb (scopeAllows f) allowedScope))
              actualChanges.
Proof.
  unfold validateScope; cbn [violations].
  set (step := fun (violations : list string) changedFile => _).
  assert (G : forall l acc,
    fold_left step l acc =
    (acc ++ List.filter
       (fun f => negb (existsb (scopeAllows f) allowedScope)) l)%list).
  { induction l as [|f l IH]; intros acc; cbn [fold_left List.filter].
    - now rewrite app_nil_r.
    - rewrite IH. unfold step.
      destruct (negb (existsb (scopeAllows f) allowedScope));
        [now rewrite <- List.app_assoc | reflexivity]. }
  apply (G actualChanges []).
Qed.

(** C2. [validateScope] reports a changed file as a violation exactly when
    no scope entry admits it (equal path, directory prefix, or a trailing
    slash-star entry whose directory is a prefix); the check passes exactly
    when there is no violation; the entry src/[*] admits src/a.txt and
    src/sub/b.txt. *)
Theorem C2_validateScope_rules (allowedScope actualChanges : list string) :
  let r := validateScope allowedScope actualChanges in
  (forall file,
      In file (violations r) <->
      In file actualChanges /\
      ~ exists S, In S allowedScope /\ admits S file) /\
  (passed r = true <-> violations r = []) /\
  admits "src/*" "src/a.txt" /\ admits "src/*" "src/sub/b.txt" /\
  validateScope ["src/*"] ["src/a.txt"; "src/sub/b.txt"] =
    {| passed := true; violations := [] |}.
Proof.
  cbv zeta. repeat split.
  - rewrite violations_filter in H. now apply filter_In in H.
  - rewrite violations_filter in H. apply filter_In in H as [_ H].
    apply negb_true_iff in H. intros [S [HS Had]].
    apply scopeAllows_admits in Had.
    assert (existsb (scopeAllows file) allowedScope = true)
      by (apply existsb_exists; eauto).
    congruence.
  - intros [Hin Hno]. rewrite violations_filter. apply filter_In.
    split; [exact Hin|]. apply negb_true_iff.
    destruct (existsb (scopeAllows file) allowedScope) eqn:E; [|reflexivity].
    apply existsb_exists in E as [S [HS Had]]. exfalso. apply Hno.
    exists S. split; [exact HS|]. now apply scopeAllows_admits.
  - cbn [passed violations validateScope]. intros H.
    apply Nat.eqb_eq in H. now apply length_zero_iff_nil.
  - cbn [passed violations validateScope]. intros H.
    apply Nat.eqb_eq. now apply length_zero_iff_nil.
  - right; right. exists "src", "a.txt". split; reflexivity.
  - right; right. exists "src", "sub/b.txt". split; reflexivity.
Qed.

End SafetyFacts.

(** ** Facts about the safe file layer *)

Section FsSafeFacts.
Import JsString.
Variable h : Host.

Lemma plstat_pure p fs : snd (Fs.plstat p fs) = fs.
Proof. unfold Fs.plstat. now destruct (Fs.lstat fs p). Qed.

Lemma walkChain_pure components :
  forall current fs, snd (FsSafe.walkChain current components fs) = fs.
Proof.
  induction components as [|c rest IH]; intros current fs; [reflexivity|].
  cbn [FsSafe.walkChain]. unfold bind, tryCatch, Fs.plstat.
  destruct (Fs.lstat fs (Path.join [current; c])) as [[ | |t]|]; cbn;
    try apply IH; reflexivity.
Qed.

Lemma validateParentChain_pure filePath root fs :
  snd (FsSafe.validateParentChain h filePath root fs) = fs.
Proof.
  unfold FsSafe.validateParentChain.
  destruct (negb _); [reflexivity | apply walkChain_pure].
Qed.

(** [mkdir -p] only adds directories where there was nothing. *)
Lemma mkdirChain_keeps ps :
  forall (fs : gmap string node) k v,
    fs !! k = Some v -> snd (Fs.mkdirChain ps fs) !! k = Some v.
Proof.
  induction ps as [|p rest IH]; intros fs k v Hk; [exact Hk|].
  cbn [Fs.mkdirChain]. destruct (Fs.lstat fs p) as [[ | |t]|] eqn:E;
    try exact Hk; [now apply IH|].
  apply IH. rewrite lookup_insert_ne; [exact Hk|].
  intros ->. unfold Fs.lstat in E.
  destruct (String.eqb k "/"); congruence.
Qed.

Lemma mkdirRecursive_keeps p (fs : gmap string node) k v :
  fs !! k = Some v -> snd (Fs.mkdirRecursive h p fs) !! k = Some v.
Proof.
  intros Hk. unfold Fs.mkdirRecursive.
  destruct (fault h (OpMkdir p)); [exact Hk | now apply mkdirChain_keeps].
Qed.

Lemma writeAtomic_phases filePath content root fs :
  FsSafe.writeAtomic h filePath content root fs =
  bind (writeAtomicPrepare h filePath root)
       (fun resolvedPath => writeAtomicCommit h resolvedPath content) fs.
Proof.
  unfold FsSafe.writeAtomic, writeAtomicPrepare, writeAtomicCommit.
  destruct (negb _); [reflexivity|].
  unfold bind.
  destruct (FsSafe.validateParentChain h filePath root fs) as [[[]|e] fs'];
    [|reflexivity].
  now destruct (Fs.mkdirRecursive h _ fs') as [[[]|e] fs''].
Qed.

Lemma writeAtomicPrepare_keeps filePath root (fs fs1 : gmap string node) r k v :
  writeAtomicPrepare h filePath root fs = (r, fs1) ->
  fs !! k = Some v -> fs1 !! k = Some v.
Proof.
  unfold writeAtomicPrepare. destruct (negb _).
  { intros [= _ <-]; auto. }
  unfold bind.
  pose proof (validateParentChain_pure filePath root fs) as Hv.
  destruct (FsSafe.validateParentChain h filePath root fs) as [[[]|e] fs'];
    cbn in Hv; subst fs'.
  2:{ intros [= _ <-]; auto. }
  intros Hm Hk.
  pose proof (mkdirRecursive_keeps
                (Path.dirname (Path.resolve (cwd h) filePath)) fs k v Hk) as Hd.
  destruct (Fs.mkdirRecursive h _ fs) as [[[]|e] fs'']; cbn in Hd, Hm;
    injection Hm as _ <-; exact Hd.
Qed.

Lemma hexDigitsRev_length k n : List.length (hexDigitsRev k n) = k.
Proof. revert n; induction k as [|k IH]; intros n; cbn; auto. Qed.

Lemma length_string_of_list l :
  String.length (string_of_list_ascii l) = List.length l.
Proof. induction l as [|a l IH]; cbn; auto. Qed.

Lemma toHex_length bytes n : String.length (toHex bytes n) = 2 * bytes.
Proof.
  unfold toHex.
  now rewrite length_string_of_list, length_rev, hexDigitsRev_length.
Qed.

Lemma tmpName_length p :
  String.length (FsSafe.tmpNameOf h p) = String.length p + 21.
Proof.
  unfold FsSafe.tmpNameOf. now rewrite !length_app, toHex_length.
Qed.

Lemma tmpName_neq p : FsSafe.tmpNameOf h p <> p.
Proof. intros E. pose proof (tmpName_length p) as H. rewrite E in H. lia. Qed.

Lemma tmpName_not_root p : String.eqb (FsSafe.tmpNameOf h p) "/" = false.
Proof.
  apply String.eqb_neq. intros E. pose proof (tmpName_length p) as H.
  rewrite E in H. cbn in H. lia.
Qed.

Lemma lstat_insert_eq (fs : gmap string node) p v :
  String.eqb p "/" = false -> Fs.lstat (<[p := v]> fs) p = Some v.
Proof. intros E. unfold Fs.lstat. rewrite E. apply lookup_insert_eq. Qed.

Lemma lstat_insert_ne (fs : gmap string node) p q v :
  p <> q -> Fs.lstat (<[p := v]> fs) q = Fs.lstat fs q.
Proof.
  intros E. unfold Fs.lstat. destruct (String.eqb q "/"); [reflexivity|].
  now apply lookup_insert_ne.
Qed.

Lemma lstat_delete_eq (fs : gmap string node) p :
  String.eqb p "/" = false -> Fs.lstat (delete p fs) p = None.
Proof. intros E. unfold Fs.lstat. rewrite E. apply lookup_delete_eq. Qed.

Lemma lstat_delete_ne (fs : gmap string node) p q :
  p <> q -> Fs.lstat (delete p fs) q = Fs.lstat fs q.
Proof.
  intros E. unfold Fs.lstat. destruct (String.eqb q "/"); [reflexivity|].
  now apply lookup_delete_ne.
Qed.

(** What the clean-up of the [catch] block leaves when the temporary file
    may or may not be there. *)
Lemma cleanup_removes (fs : gmap string node) tmpName :
  String.eqb tmpName "/" = false ->
  fault h (OpUnlink tmpName) = false ->
  Fs.lstat fs tmpName <> Some Dir ->
  exists fs',
    tryCatch (Fs.unlink h tmpName) (fun _ => ret tt) fs = (Ok tt, fs') /\
    Fs.lstat fs' tmpName = None /\
    forall q, q <> tmpName -> Fs.lstat fs' q = Fs.lstat fs q.
Proof.
  intros Hroot Hfault Hdir. unfold tryCatch, Fs.unlink.
  destruct (Fs.lstat fs tmpName) as [[c| |t]|] eqn:E.
  - rewrite Hfault. eexists; split; [reflexivity|]. split.
    + now apply lstat_delete_eq.
    + intros q Hq. apply lstat_delete_ne. congruence.
  - now destruct Hdir.
  - rewrite Hfault. eexists; split; [reflexivity|]. split.
    + now apply lstat_delete_eq.
    + intros q Hq. apply lstat_delete_ne. congruence.
  - eexists; split; [reflexivity|]. split; [exact E | reflexivity].
Qed.

Lemma writeFile_ok p content (fs fs' : gmap string node) :
  Fs.writeFile h p content fs = (Ok tt, fs') ->
  fs' = <[p := File content]> fs.
Proof.
  unfold Fs.writeFile. destruct (negb _); [discriminate|].
  destruct (Fs.lstat fs p) as [[c| |t]|]; try discriminate;
    (destruct (fault h (OpWriteFile p));
     [destruct (partialWrite h p); discriminate | now intros [= <-]]).
Qed.

Lemma writeFile_throw p content (fs fs' : gmap string node) e :
  Fs.writeFile h p content fs = (Throw e, fs') ->
  fs' = fs \/ exists n, fs' = <[p := File (take n content)]> fs.
Proof.
  unfold Fs.writeFile. destruct (negb _); [intros [= _ <-]; now left|].
  destruct (Fs.lstat fs p) as [[c| |t]|]; try (intros [= _ <-]; now left);
    (destruct (fault h (OpWriteFile p)); [|discriminate];
     destruct (partialWrite h p) as [n|]; intros [= _ <-];
     [right; now exists n | now left]).
Qed.

Lemma rename_throw src dst (fs fs' : gmap string node) e :
  Fs.rename h src dst fs = (Throw e, fs') -> fs' = fs.
Proof.
  unfold Fs.rename. destruct (Fs.lstat fs src) as [n|]; [|now intros [= _ <-]].
  destruct (negb _); [now intros [= _ <-]|].
  destruct n, (Fs.lstat fs dst) as [[c'| |t']|]; try (now intros [= _ <-]);
    destruct (fault h (OpRename src dst)); try discriminate;
    now intros [= _ <-].
Qed.

Lemma rename_file_ok src dst c (fs fs' : gmap string node) :
  Fs.lstat fs src = Some (File c) ->
  Fs.rename h src dst fs = (Ok tt, fs') ->
  fs' = <[dst := File c]> (delete src fs) /\ String.eqb dst "/" = false.
Proof.
  intros Hsrc. unfold Fs.rename. rewrite Hsrc.
  destruct (negb _); [discriminate|].
  destruct (Fs.lstat fs dst) as [[c'| |t']|] eqn:Ed; try discriminate;
    (destruct (fault h (OpRename src dst)); [discriminate|]);
    intros [= <-]; (split; [reflexivity|]);
    unfold Fs.lstat in Ed; destruct (String.eqb dst "/");
    congruence.
Qed.

Lemma writeAtomicCommit_spec resolvedPath content (fs1 : gmap string node) :
  let tmpName := FsSafe.tmpNameOf h resolvedPath in
  Fs.lstat fs1 tmpName = None ->
  fault h (OpUnlink tmpName) = false ->
  match writeAtomicCommit h resolvedPath content fs1 with
  | (Ok _, fs2) =>
      Fs.writeFile h tmpName content fs1 =
        (Ok tt, <[tmpName := File content]> fs1) /\
      fs2 = <[resolvedPath := File content]>
              (delete tmpName (<[tmpName := File content]> fs1)) /\
      Fs.lstat fs2 tmpName = None /\
      Fs.lstat fs2 resolvedPath = Some (File content)
  | (Throw e, fs2) =>
      Fs.lstat fs2 tmpName = None /\
      Fs.lstat fs2 resolvedPath = Fs.lstat fs1 resolvedPath /\
      (fst (Fs.writeFile h tmpName content fs1) = Throw e \/
       fst (Fs.writeFile h tmpName content fs1) = Ok tt /\
       fst (Fs.rename h tmpName resolvedPath
              (<[tmpName := File content]> fs1)) = Throw e)
  end.
Proof.
  intros tmpName Hfresh Hfault.
  pose proof (tmpName_not_root resolvedPath) as Hroot.
  pose proof (tmpName_neq resolvedPath) as Hneq.
  fold tmpName in Hroot, Hneq.
  assert (Hneq' : resolvedPath <> tmpName) by congruence.
  unfold writeAtomicCommit. fold tmpName. unfold tryCatch at 1, bind at 1.
  destruct (Fs.writeFile h tmpName content fs1) as [[[]|e] fs1'] eqn:Ew.
  - apply writeFile_ok in Ew as ->.
    assert (Hsrc : Fs.lstat (<[tmpName := File content]> fs1) tmpName
                   = Some (File content)) by now apply lstat_insert_eq.
    destruct (Fs.rename h tmpName resolvedPath
                (<[tmpName := File content]> fs1)) as [[[]|e] fs2] eqn:Er.
    + apply (rename_file_ok _ _ _ _ _ Hsrc) in Er as [-> Hdst].
      repeat split.
      * rewrite lstat_insert_ne by congruence. now apply lstat_delete_eq.
      * now apply lstat_insert_eq.
    + apply rename_throw in Er as ->.
      destruct (cleanup_removes (<[tmpName := File content]> fs1) tmpName
                  Hroot Hfault) as [fs' [Ec [Ht Hq]]].
      { rewrite Hsrc. discriminate. }
      unfold bind. rewrite Ec. cbn. repeat split.
      * exact Ht.
      * rewrite (Hq resolvedPath Hneq'). now apply lstat_insert_ne.
      * right. split; reflexivity.
  - assert (Hnd : Fs.lstat fs1' tmpName <> Some Dir).
    { apply writeFile_throw in Ew as [->|[n ->]].
      - rewrite Hfresh. discriminate.
      - rewrite lstat_insert_eq by exact Hroot. discriminate. }
    destruct (cleanup_removes fs1' tmpName Hroot Hfault Hnd)
      as [fs' [Ec [Ht Hq]]].
    unfold bind. rewrite Ec. cbn. repeat split.
    + exact Ht.
    + rewrite (Hq resolvedPath Hneq').
      apply writeFile_throw in Ew as [->|[n ->]]; [reflexivity|].
      now apply lstat_insert_ne.
    + now left.
Qed.

(** Without any assumption on the clean-up: the error of the failing step
    is still the one thrown, and the target is still what it was. *)
Lemma writeAtomicCommit_throws resolvedPath content (fs1 fs2 : gmap string node) e :
  let tmpName := FsSafe.tmpNameOf h resolvedPath in
  Fs.lstat fs1 tmpName = None ->
  writeAtomicCommit h resolvedPath content fs1 = (Throw e, fs2) ->
  Fs.lstat fs2 resolvedPath = Fs.lstat fs1 resolvedPath.
Proof.
  intros tmpName Hfresh.
  pose proof (tmpName_neq resolvedPath) as Hneq. fold tmpName in Hneq.
  assert (Hneq' : tmpName <> resolvedPath) by congruence.
  unfold writeAtomicCommit. fold tmpName. unfold tryCatch at 1, bind at 1.
  assert (Hclean : forall e0 fs fs' (r : outcome unit),
    bind (tryCatch (Fs.unlink h tmpName) (fun _ => ret tt))
         (fun _ => throw e0) fs = (r, fs') ->
    r = Throw e0 /\
    Fs.lstat fs' resolvedPath = Fs.lstat fs resolvedPath).
  { intros e0 fs fs' r. unfold bind, tryCatch, Fs.unlink, throw, ret.
    destruct (Fs.lstat fs tmpName) as [[c| |t]|];
      try destruct (fault h (OpUnlink tmpName));
      intros [= <- <-]; (split; [reflexivity|]);
      try reflexivity; now apply lstat_delete_ne. }
  destruct (Fs.writeFile h tmpName content fs1) as [[[]|e'] fs1'] eqn:Ew.
  - apply writeFile_ok in Ew as ->.
    destruct (Fs.rename h tmpName resolvedPath
                (<[tmpName := File content]> fs1)) as [[[]|e''] fs3] eqn:Er;
      [discriminate|].
    apply rename_throw in Er as ->. intros Hc.
    apply Hclean in Hc as [_ Hc]. rewrite Hc. now apply lstat_insert_ne.
  - intros Hc. apply Hclean in Hc as [_ Hc]. rewrite Hc.
    apply writeFile_throw in Ew as [->|[n ->]]; [reflexivity|].
    now apply lstat_insert_ne.
Qed.

End FsSafeFacts.

(** ** Facts about paths *)

Section PathFacts.
Import JsString.

Lemma chars_app (a b : string) : chars (a ++ b) = (chars a ++ chars b)%list.
Proof.
  unfold chars. induction a as [|x a IH]; [reflexivity|].
  rewrite app_cons. cbn [list_ascii_of_string app]. now rewrite IH.
Qed.

Lemma split_not_nil c s : Path.split c s <> [].
Proof.
  destruct s as [|a s]; cbn; [discriminate|].
  destruct (Path.split c s); [discriminate|].
  destruct (Ascii.eqb a c); discriminate.
Qed.

Lemma split_parts c s seg :
  In seg (Path.split c s) -> Forall (fun a => a <> c) (chars seg).
Proof.
  revert seg; induction s as [|a s IH]; intros seg; cbn.
  - intros [<-|[]]. constructor.
  - pose proof (split_not_nil c s) as Hne.
    destruct (Path.split c s) as [|hd tl]; [congruence|].
    destruct (Ascii.eqb_spec a c) as [->|Hac].
    + intros [<-|Hin]; [constructor | now apply IH].
    + intros [<-|Hin].
      * constructor; [exact Hac | apply IH; now left].
      * apply IH. now right.
Qed.

Lemma normalizeStep_clean stack seg :
  Forall cleanSeg stack -> Forall notSep (chars seg) ->
  Forall cleanSeg (Path.normalizeStep false stack seg).
Proof.
  intros Hs Hseg. unfold Path.normalizeStep.
  destruct (String.eqb_spec seg ""); cbn [orb]; [exact Hs|].
  destruct (String.eqb seg "."); [exact Hs|].
  destruct (String.eqb seg "..").
  - destruct stack as [|top rest]; [constructor|].
    destruct (String.eqb top ".."); [exact Hs|].
    now apply Forall_cons in Hs as [_ Hs].
  - constructor; [now split | exact Hs].
Qed.

Lemma normalizeSegs_clean path :
  Forall cleanSeg (Path.normalizeSegs false (Path.split "/" path)).
Proof.
  unfold Path.normalizeSegs. apply List.Forall_rev.
  assert (G : forall segs stack,
    Forall cleanSeg stack ->
    (forall seg, In seg segs -> Forall notSep (chars seg)) ->
    Forall cleanSeg (fold_left (Path.normalizeStep false) segs stack)).
  { induction segs as [|seg segs IH]; intros stack Hs Hsegs; [exact Hs|].
    cbn [fold_left]. apply IH.
    - apply normalizeStep_clean; [exact Hs | apply Hsegs; now left].
    - intros s Hin. apply Hsegs. now right. }
  apply G; [constructor|]. intros seg. apply split_parts.
Qed.

(** A resolved path is the separator followed by clean segments joined by
    separators. *)
Lemma resolve_shape cwd p :
  exists segs, Forall cleanSeg segs /\
               Path.resolve cwd p = "/" ++ JsString.join "/" segs.
Proof.
  unfold Path.resolve, Path.normalizeString. eexists. split; [|reflexivity].
  apply normalizeSegs_clean.
Qed.

Lemma join_snoc (l : list string) (s : string) :
  l <> [] ->
  JsString.join "/" (l ++ [s]) = JsString.join "/" l ++ "/" ++ s.
Proof.
  induction l as [|x l IH]; [congruence|]. intros _.
  destruct l as [|y l]; [reflexivity|].
  change (JsString.join "/" ((x :: y :: l) ++ [s]))
    with (x ++ "/" ++ JsString.join "/" ((y :: l) ++ [s])).
  rewrite IH by discriminate.
  change (JsString.join "/" (x :: y :: l))
    with (x ++ "/" ++ JsString.join "/" (y :: l)).
  now rewrite !app_assoc_s.
Qed.

Lemma dropWhile_all (f : ascii -> bool) l1 l2 :
  Forall (fun a => f a = true) l1 ->
  Path.dropWhile f (l1 ++ l2) = Path.dropWhile f l2.
Proof.
  induction 1 as [|a l1 Ha _ IH]; [reflexivity|]. cbn. now rewrite Ha.
Qed.

Lemma dropWhile_stop (f : ascii -> bool) a l :
  f a = false -> Path.dropWhile f (a :: l) = a :: l.
Proof. intros H. cbn. now rewrite H. Qed.

Lemma notSep_eqb a : notSep a -> Ascii.eqb a "/" = false.
Proof. intros H. now apply Ascii.eqb_neq. Qed.

Lemma chars_nonempty s : s <> "" -> exists a l, chars s = a :: l.
Proof. destruct s as [|a s]; [congruence|]. intros _. now exists a, (chars s). Qed.

Lemma length_chars s : List.length (chars s) = String.length s.
Proof. induction s as [|a s IH]; cbn; auto. Qed.

Lemma slice_prefix (a b : string) :
  slice (a ++ b) 0 (Some (Z.of_nat (String.length a))) = a.
Proof.
  unfold slice, clampIndex.
  destruct (Z.ltb_spec 0 0); [lia|].
  destruct (Z.ltb_spec (Z.of_nat (String.length a)) 0); [lia|].
  rewrite Nat2Z.id, length_app. change (Z.to_nat 0) with 0.
  rewrite Nat.min_0_l, Nat.sub_0_r, Nat.min_l by lia.
  apply take_app_length.
Qed.

Lemma dirname_root rest :
  Path.dirname (String "/" rest) =
  let back :=
    Path.dropWhile (fun a => negb (Ascii.eqb a "/"))
      (Path.dropWhile (fun a => Ascii.eqb a "/") (rev (chars rest))) in
  match back with
  | [] => "/"
  | _ =>
      if (List.length back =? 1)%nat then "//"
      else slice (String "/" rest) 0 (Some (Z.of_nat (List.length back)))
  end.
Proof. reflexivity. Qed.

(** Walking back over a clean last segment. *)
Lemma back_over_segment s R :
  cleanSeg s ->
  Path.dropWhile (fun a => negb (Ascii.eqb a "/"))
    (Path.dropWhile (fun a => Ascii.eqb a "/") (rev (chars s) ++ R))
  = Path.dropWhile (fun a => negb (Ascii.eqb a "/")) R.
Proof.
  intros [Hne Hs].
  assert (Hrev : Forall (fun a => negb (Ascii.eqb a "/") = true)
                        (rev (chars s))).
  { apply List.Forall_rev. eapply List.Forall_impl; [|exact Hs].
    intros a Ha. now rewrite (notSep_eqb a Ha). }
  destruct (rev (chars s)) as [|a l] eqn:E.
  - apply (f_equal (@List.length ascii)) in E.
    rewrite length_rev, length_chars in E.
    destruct s; [congruence | discriminate].
  - assert (Ha : Ascii.eqb a "/" = false).
    { apply Forall_cons in Hrev as [Ha _]. now apply negb_true_iff in Ha. }
    change ((a :: l) ++ R)%list with (a :: (l ++ R))%list.
    rewrite (dropWhile_stop _ a _ Ha).
    change (a :: (l ++ R))%list with ((a :: l) ++ R)%list.
    now apply dropWhile_all.
Qed.

(** The directory of a resolved path is the path without its last
    segment. *)
Lemma dirname_snoc (segs : list string) (s : string) :
  Forall cleanSeg segs -> cleanSeg s ->
  Path.dirname ("/" ++ JsString.join "/" (segs ++ [s]))
  = "/" ++ JsString.join "/" segs.
Proof.
  intros Hsegs Hs. rewrite app_cons, app_nil_l, dirname_root. cbv zeta.
  destruct segs as [|x segs].
  - cbn [app JsString.join].
    rewrite <- (app_nil_r (rev (chars s))), (back_over_segment s [] Hs).
    reflexivity.
  - rewrite join_snoc by discriminate.
    set (J := JsString.join "/" (x :: segs)).
    rewrite !chars_app, !rev_app_distr.
    change (chars "/") with ["/"%char]. cbn [rev app].
    rewrite <- List.app_assoc. cbn [app].
    rewrite (back_over_segment s _ Hs).
    rewrite dropWhile_stop by reflexivity.
    assert (HJ : 0 < String.length J).
    { unfold J. apply Forall_cons in Hsegs as [[Hx _] _].
      destruct segs; cbn [JsString.join]; [|rewrite length_app];
        destruct x; try congruence; cbn; lia. }
    cbn [List.length]. rewrite length_rev, length_chars.
    destruct (Nat.eqb_spec (S (String.length J)) 1); [lia|].
    change (slice (("/" ++ J) ++ ("/" ++ s)) 0
              (Some (Z.of_nat (String.length ("/" ++ J)))) = "/" ++ J).
    apply slice_prefix.
Qed.

Lemma join_snoc_app (l : list string) (s x : string) :
  JsString.join "/" (l ++ [s]) ++ x = JsString.join "/" (l ++ [s ++ x]).
Proof.
  destruct l as [|y l]; [reflexivity|].
  rewrite !join_snoc by discriminate. now rewrite !app_assoc_s.
Qed.

Lemma cleanSeg_app s x :
  Forall notSep (chars s) -> cleanSeg x -> cleanSeg (s ++ x).
Proof.
  intros Hs [Hne Hx]. split.
  - destruct s; [exact Hne | discriminate].
  - rewrite chars_app. now apply Forall_app.
Qed.

(** Appending characters other than the separator to the last segment of
    a resolved path stays in the directory. *)
Lemma dirname_resolve_suffix cwd p suffix :
  cleanSeg suffix ->
  Path.dirname (Path.resolve cwd p ++ suffix)
  = Path.dirname (Path.resolve cwd p).
Proof.
  intros Hsuf. destruct (resolve_shape cwd p) as [segs [Hsegs ->]].
  induction segs as [|s segs _] using rev_ind.
  - change (("/" ++ JsString.join "/" []) ++ suffix)
      with ("/" ++ JsString.join "/" ([] ++ [suffix])).
    now rewrite dirname_snoc.
  - apply Forall_app in Hsegs as [Hsegs Hs].
    apply Forall_cons in Hs as [Hs _].
    rewrite app_assoc_s, join_snoc_app.
    rewrite !dirname_snoc; try assumption; [reflexivity|].
    apply cleanSeg_app; [apply Hs | exact Hsuf].
Qed.

Lemma hexDigit_notSep d : notSep (hexDigit d).
Proof.
  unfold hexDigit, notSep. generalize (N.to_nat d). intros k.
  do 16 (destruct k as [|k]; [cbn; discriminate|]).
  cbn. discriminate.
Qed.

Lemma hexDigitsRev_notSep k n : Forall notSep (hexDigitsRev k n).
Proof.
  revert n; induction k as [|k IH]; intros n; cbn [hexDigitsRev];
    constructor; [apply hexDigit_notSep | apply IH].
Qed.

Lemma chars_string_of_list l : chars (string_of_list_ascii l) = l.
Proof. apply list_ascii_of_string_of_list_ascii. Qed.

Lemma toHex_notSep bytes n : Forall notSep (chars (toHex bytes n)).
Proof.
  unfold toHex. rewrite chars_string_of_list. apply List.Forall_rev.
  apply hexDigitsRev_notSep.
Qed.

(** The temporary file of [writeAtomic] lies in the directory of the
    target. *)
Lemma tmpName_sibling h filePath :
  Path.dirname (FsSafe.tmpNameOf h (Path.resolve (cwd h) filePath))
  = Path.dirname (Path.resolve (cwd h) filePath).
Proof.
  unfold FsSafe.tmpNameOf. apply dirname_resolve_suffix. split.
  - discriminate.
  - rewrite !chars_app. apply Forall_app. split.
    + repeat constructor. discriminate.
    + apply Forall_app. split; [apply toHex_notSep|].
      repeat constructor; discriminate.
Qed.

End PathFacts.

(** ** What [mkdir -p] makes, and why a spill of [capOutput] cannot succeed *)

Section MkdirFacts.
Import JsString.

Lemma split_clean s : Forall notSep (chars s) -> Path.split "/" s = [s].
Proof.
  induction s as [|a s IH]; intros Hs; [reflexivity|].
  apply Forall_cons in Hs as [Ha Hs]. cbn [Path.split].
  rewrite (IH Hs), (notSep_eqb a Ha). reflexivity.
Qed.

Lemma split_app_sep a b :
  Forall notSep (chars a) ->
  Path.split "/" (a ++ "/" ++ b) = a :: Path.split "/" b.
Proof.
  induction a as [|x a IH]; intros Ha.
  - rewrite app_nil_l, app_cons, app_nil_l. cbn [Path.split].
    pose proof (split_not_nil "/" b) as Hne.
    destruct (Path.split "/" b); [congruence | reflexivity].
  - apply Forall_cons in Ha as [Hx Ha]. rewrite app_cons. cbn [Path.split].
    rewrite (IH Ha), (notSep_eqb x Hx). reflexivity.
Qed.

Lemma split_join S :
  S <> [] -> Forall cleanSeg S -> Path.split "/" (JsString.join "/" S) = S.
Proof.
  induction S as [|x S IH]; [congruence|]. intros _ Hall.
  apply Forall_cons in Hall as [[_ Hx] Hall].
  destruct S as [|y S]; [now apply split_clean|].
  change (JsString.join "/" (x :: y :: S))
    with (x ++ "/" ++ JsString.join "/" (y :: S)).
  rewrite split_app_sep by exact Hx. f_equal. now apply IH.
Qed.

Lemma fold_left_same {A B} (f g : A -> B -> A) :
  (forall a b, f a b = g a b) ->
  forall l a, fold_left f l a = fold_left g l a.
Proof.
  intros H l; induction l as [|x l IH]; intros a; cbn; [reflexivity|].
  now rewrite H, IH.
Qed.

Lemma chain_unfold p :
  Fs.chain p =
  snd (fold_left chainStep
         (List.filter (fun s => negb (String.eqb s "")) (Path.split "/" p))
         ("", [])).
Proof.
  unfold Fs.chain. f_equal. apply fold_left_same. now intros [cur acc] seg.
Qed.

Lemma chainStep_fold S :
  forall cur acc,
    S <> [] ->
    fst (fold_left chainStep S (cur, acc)) = cur ++ "/" ++ JsString.join "/" S /\
    exists init,
      snd (fold_left chainStep S (cur, acc))
      = (init ++ [(cur ++ "/" ++ JsString.join "/" S)%string])%list.
Proof.
  induction S as [|x S IH]; intros cur acc Hne; [congruence|].
  destruct S as [|y S].
  - cbn. split; [reflexivity|]. now exists acc.
  - cbn [fold_left]. unfold chainStep at 2. cbn [fst snd].
    destruct (IH (cur ++ "/" ++ x) (acc ++ [(cur ++ "/" ++ x)%string])%list)
      as [Hf [init Hs]]; [discriminate|].
    assert (E : (cur ++ "/" ++ x) ++ "/" ++ JsString.join "/" (y :: S)
                = cur ++ "/" ++ JsString.join "/" (x :: y :: S)).
    { change (JsString.join "/" (x :: y :: S))
        with (x ++ "/" ++ JsString.join "/" (y :: S)).
      now rewrite !app_assoc_s. }
    rewrite <- E. split; [exact Hf | now exists init].
Qed.

Lemma filter_clean S :
  Forall cleanSeg S ->
  List.filter (fun s => negb (String.eqb s "")) S = S.
Proof.
  intros H. apply filter_all. intros s Hs.
  rewrite List.Forall_forall in H. destruct (H s Hs) as [Hne _].
  now apply negb_true_iff, String.eqb_neq.
Qed.

(** The chain of a resolved path other than the root ends with the path. *)
Lemma chain_resolve cwd p :
  Path.resolve cwd p = "/" \/
  exists init, Fs.chain (Path.resolve cwd p)
               = (init ++ [Path.resolve cwd p])%list.
Proof.
  destruct (resolve_shape cwd p) as [S [HS ->]].
  destruct S as [|x S]; [now left|]. right.
  rewrite chain_unfold.
  replace ("/" ++ JsString.join "/" (x :: S))
    with ("" ++ "/" ++ JsString.join "/" (x :: S)) by reflexivity.
  rewrite split_app_sep by constructor.
  rewrite split_join by (discriminate || assumption).
  assert (Ef : List.filter (fun s => negb (String.eqb s "")) ("" :: x :: S)
               = x :: S) by now apply (filter_clean (x :: S)).
  rewrite Ef.
  destruct (chainStep_fold (x :: S) "" []) as [_ Hs]; [discriminate|].
  exact Hs.
Qed.

Lemma mkdirChain_keeps_lstat ps :
  forall (fs : gmap string node) k v,
    Fs.lstat fs k = Some v -> Fs.lstat (snd (Fs.mkdirChain ps fs)) k = Some v.
Proof.
  intros fs k v. unfold Fs.lstat.
  destruct (String.eqb k "/"); [auto | apply mkdirChain_keeps].
Qed.

Lemma mkdirChain_makes ps :
  forall (fs fs' : gmap string node),
    Fs.mkdirChain ps fs = (Ok tt, fs') ->
    forall p, In p ps -> Fs.lstat fs' p = Some Dir.
Proof.
  induction ps as [|q ps IH]; intros fs fs' Hm p Hin; [destruct Hin|].
  cbn [Fs.mkdirChain] in Hm.
  destruct (Fs.lstat fs q) as [[c| |t]|] eqn:Eq; try discriminate.
  - destruct Hin as [<-|Hin]; [|now apply (IH fs fs')].
    pose proof (mkdirChain_keeps_lstat ps fs q Dir Eq) as Hk.
    now rewrite Hm in Hk.
  - destruct Hin as [<-|Hin]; [|now apply (IH (<[q := Dir]> fs) fs')].
    assert (Eq' : Fs.lstat (<[q := Dir]> fs) q = Some Dir).
    { unfold Fs.lstat in *. destruct (String.eqb q "/"); [reflexivity|].
      apply lookup_insert_eq. }
    pose proof (mkdirChain_keeps_lstat ps _ q Dir Eq') as Hk.
    now rewrite Hm in Hk.
Qed.

(** A successful [mkdir -p] of a resolved path leaves a directory there. *)
Lemma mkdirRecursive_makes h cwd p (fs fs' : gmap string node) :
  Fs.mkdirRecursive h (Path.resolve cwd p) fs = (Ok tt, fs') ->
  Fs.lstat fs' (Path.resolve cwd p) = Some Dir.
Proof.
  unfold Fs.mkdirRecursive. destruct (fault h _); [discriminate|].
  intros Hm. destruct (chain_resolve cwd p) as [E|[init E]].
  - rewrite E. reflexivity.
  - eapply mkdirChain_makes; [exact Hm|]. rewrite E.
    apply in_app_iff. right. now left.
Qed.

Lemma writeAtomicPrepare_keeps_lstat h filePath root
    (fs fs1 : gmap string node) r k v :
  writeAtomicPrepare h filePath root fs = (r, fs1) ->
  Fs.lstat fs k = Some v -> Fs.lstat fs1 k = Some v.
Proof.
  intros Hp. unfold Fs.lstat. destruct (String.eqb k "/"); [auto|].
  eapply writeAtomicPrepare_keeps; eassumption.
Qed.

(** The [try] block of [writeAtomic] cannot complete onto a directory. *)
Lemma writeAtomicCommit_onto_dir h resolvedPath content (fs : gmap string node) :
  Fs.lstat fs resolvedPath = Some Dir ->
  exists e fs', writeAtomicCommit h resolvedPath content fs = (Throw e, fs').
Proof.
  intros Hdir. unfold writeAtomicCommit.
  set (tmpName := FsSafe.tmpNameOf h resolvedPath).
  assert (Hhandler : forall err fs0, exists fs',
    bind (tryCatch (Fs.unlink h tmpName) (fun _ => ret tt))
         (fun _ => @throw unit err) fs0 = (Throw err, fs')).
  { intros err fs0. unfold bind, tryCatch.
    destruct (Fs.unlink h tmpName fs0) as [[[]|e] fs']; cbn; eauto. }
  unfold tryCatch at 1, bind at 1.
  destruct (Fs.writeFile h tmpName content fs) as [[[]|e] fs1] eqn:Ew.
  - apply writeFile_ok in Ew as ->.
    assert (Er : exists e, Fs.rename h tmpName resolvedPath
                             (<[tmpName := File content]> fs)
                           = (Throw e, <[tmpName := File content]> fs)).
    { unfold Fs.rename.
      rewrite lstat_insert_eq by apply tmpName_not_root.
      destruct (negb _); [eauto|].
      rewrite lstat_insert_ne by apply tmpName_neq.
      rewrite Hdir. eauto. }
    destruct Er as [e ->]. destruct (Hhandler e (<[tmpName := File content]> fs))
      as [fs' ->]. eauto.
  - destruct (Hhandler e fs1) as [fs' ->]. eauto.
Qed.

End MkdirFacts.

Section WriteAtomic.
Import JsString.



End WriteAtomic.

Section LogCapFacts.
Import JsString LogCap.

(** At the cap or below, the output comes back whole and nothing is
    written. *)
Lemma capOutput_within_cap h output logDir taskId cmdIndex stream root fs :
  byteLength output <= MAX_OUTPUT_BYTES ->
  exists out,
    capOutput h output logDir taskId cmdIndex stream root fs = (Ok out, fs) /\
    content out = output /\ truncated out = false /\ fullLogPath out = None.
Proof.
  intros Hle. unfold capOutput.
  destruct (Nat.ltb_spec MAX_OUTPUT_BYTES (byteLength output)); [lia|].
  eexists. split; [reflexivity|]. cbn. auto.
Qed.

(** Above the cap, the first call into the safe layer asks whether [root]
    lies inside [logDir]; unless it does, the call throws and nothing is
    written. *)
Lemma capOutput_over_cap_escapes h output logDir taskId cmdIndex stream root fs :
  MAX_OUTPUT_BYTES < byteLength output ->
  FsSafe.isContained h (Path.resolve (cwd h) root) logDir = false ->
  capOutput h output logDir taskId cmdIndex stream root fs =
    (Throw (PathEscapeError ("Path " ++ root ++ " escapes root " ++ logDir)),
     fs).
Proof.
  intros Hlt Hesc. unfold capOutput.
  destruct (Nat.ltb_spec MAX_OUTPUT_BYTES (byteLength output)); [|lia].
  unfold bind at 1. unfold FsSafe.mkdir. rewrite Hesc. reflexivity.
Qed.

Lemma byteLength_repeat_a n : byteLength (JsString.repeat "a" n) = n.
Proof.
  induction n as [|n IH]; [reflexivity|].
  change (JsString.repeat "a" (S n))
    with (String "a"%char (JsString.repeat "a" n)).
  cbn [byteLength]. rewrite IH. reflexivity.
Qed.

Lemma writeAtomicPrepare_returns h filePath root (fs fs1 : gmap string node) r :
  writeAtomicPrepare h filePath root fs = (Ok r, fs1) ->
  r = Path.resolve (cwd h) filePath.
Proof.
  unfold writeAtomicPrepare. destruct (negb _); [discriminate|].
  unfold bind.
  destruct (FsSafe.validateParentChain h filePath root fs) as [[[]|e] fs'];
    [|discriminate].
  destruct (Fs.mkdirRecursive h _ fs') as [[[]|e] fs'']; [|discriminate].
  now intros [= <- _].
Qed.

(** Above the cap [capOutput] never returns: when its first call into the
    safe layer succeeds, that call has made [root] a directory, and the
    second call then tries to rename a temporary file onto it. *)
Lemma capOutput_over_cap_throws h output logDir taskId cmdIndex stream root fs :
  MAX_OUTPUT_BYTES < byteLength output ->
  exists e fs',
    capOutput h output logDir taskId cmdIndex stream root fs = (Throw e, fs').
Proof.
  intros Hlt. unfold capOutput.
  destruct (Nat.ltb_spec MAX_OUTPUT_BYTES (byteLength output)); [|lia].
  unfold bind at 1.
  destruct (FsSafe.mkdir h root logDir fs) as [[[]|e] fs1] eqn:Em; [|eauto].
  assert (Hdir : Fs.lstat fs1 (Path.resolve (cwd h) root) = Some Dir).
  { revert Em. unfold FsSafe.mkdir. destruct (negb _); [discriminate|].
    unfold bind.
    pose proof (validateParentChain_pure h root logDir fs) as Hp.
    destruct (FsSafe.validateParentChain h root logDir fs) as [[[]|e] fs0];
      cbn in Hp; subst fs0; [|discriminate].
    apply mkdirRecursive_makes. }
  unfold bind at 1. rewrite writeAtomic_phases. unfold bind at 1.
  destruct (writeAtomicPrepare h root output fs1) as [[r|e] fs2] eqn:Ep;
    [|eauto].
  pose proof (writeAtomicPrepare_returns _ _ _ _ _ _ Ep) as ->.
  pose proof (writeAtomicPrepare_keeps_lstat _ _ _ _ _ _ _ _ Ep Hdir) as Hdir2.
  destruct (writeAtomicCommit_onto_dir h _
              (Path.join [logDir;
                          taskId ++ "_" ++ natToString cmdIndex ++ "_"
                                 ++ streamName stream ++ ".log"])
              fs2 Hdir2) as [e [fs' ->]].
  eauto.
Qed.

(** C3. At 10240 bytes or below, [capOutput] returns the output whole,
    not truncated and without a log file.  Above, it never returns: it
    throws, for every output, directory and root, so that no truncated
    content comes back; for the output of 10241 letters a, the log
    directory /repo/.ai-handoff/logs and the root /repo it throws a
    [PathEscapeError] before anything is written. *)
Theorem C3_capOutput_spill_throws
    (h : Host) (output logDir taskId : string) (cmdIndex : nat)
    (stream : stream) (root : string) (fs : gmap string node) :
  let overCap := JsString.repeat "a" (S MAX_OUTPUT_BYTES) in
  MAX_OUTPUT_BYTES = 10 * 1024 /\
  (if (byteLength output <=? MAX_OUTPUT_BYTES)%nat then
     exists out,
       capOutput h output logDir taskId cmdIndex stream root fs = (Ok out, fs)
       /\ content out = output /\ truncated out = false
       /\ fullLogPath out = None
   else
     exists e fs',
       capOutput h output logDir taskId cmdIndex stream root fs
       = (Throw e, fs')) /\
  byteLength overCap = 10 * 1024 + 1 /\
  capOutput Example.quietHost overCap "/repo/.ai-handoff/logs" "t1" 0 stdout
            "/repo" fs =
    (Throw (PathEscapeError
              "Path /repo escapes root /repo/.ai-handoff/logs"), fs).
Proof.
  cbv zeta. split; [reflexivity|]. split; [|split].
  - destruct (Nat.leb_spec (byteLength output) MAX_OUTPUT_BYTES).
    + now apply capOutput_within_cap.
    + now apply capOutput_over_cap_throws.
  - rewrite byteLength_repeat_a. unfold MAX_OUTPUT_BYTES. lia.
  - apply capOutput_over_cap_escapes.
    + rewrite byteLength_repeat_a. lia.
    + vm_compute. reflexivity.
Qed.

End LogCapFacts.

(** ** Facts about task validation *)

Section TaskValidation.
Import JsString Js Task.

Lemma nonEmptyString_spec v :
  nonEmptyString v = true <-> exists s, v = Some (JStr s) /\ s <> "".
Proof.
  unfold nonEmptyString, isString. split.
  - destruct v as [[ | | |s| | ]|]; cbn; try discriminate.
    intros H. exists s. split; [reflexivity|].
    apply negb_true_iff, String.eqb_neq in H. exact H.
  - intros [s [-> Hs]]. cbn. now apply negb_true_iff, String.eqb_neq.
Qed.

Lemma validateScopeItems_spec items :
  isValidationError (validateScopeItems items) /\
  ((exists l, validateScopeItems items = inr l) <->
   Forall (fun s => exists str, s = JStr str) items).
Proof.
  induction items as [|s rest [IHe IH]]; cbn.
  - split; [exact I|]. split; [constructor | now exists []].
  - destruct s as [ | | |str| | ];
      try (split; [now eexists _, _|];
           split; [intros [l Hl]; discriminate
                  | intros H; inversion H as [|? ? [str' Hs] ?];
                    discriminate]).
    destruct (validateScopeItems rest) as [e|l]; cbn in *.
    + split; [exact IHe|]. split; [intros [l Hl]; discriminate|].
      intros H. inversion H; subst.
      destruct (proj2 IH) as [l Hl]; [assumption | discriminate].
    + split; [exact I|]. split; [|now eexists].
      intros _. constructor; [now eexists | apply IH; now eexists].
Qed.

Lemma validateVerifyItem_spec v :
  isValidationError (validateVerifyItem v) /\
  ((exists c, validateVerifyItem v = inr c) <-> verifyEntryOk v).
Proof.
  unfold validateVerifyItem, verifyEntryOk.
  destruct v as [ |b|n|s|items|props]; cbn;
    try (split; [try destruct b; try destruct (negb _); now eexists _, _|];
         split; [try destruct b; try destruct (negb _);
                 intros [c Hc]; discriminate
                | intros [props [c [a [H _]]]]; discriminate]).
  destruct (assoc "cmd" props) as [[ | | |c| | ]|] eqn:Ec;
    try (split; [now eexists _, _|];
         split; [intros [c' Hc]; discriminate
                | intros [props' [c' [a [[= <-] [H _]]]]]; congruence]).
  destruct (assoc "args" props) as [[ | | | |a| ]|] eqn:Ea;
    try (split; [now eexists _, _|];
         split; [intros [c' Hc]; discriminate
                | intros [props' [c' [a' [[= <-] [_ H]]]]]; congruence]).
  split; [exact I|]. split; [|now eexists].
  intros _. now exists props, c, a.
Qed.

Lemma validateVerifyItems_spec items :
  isValidationError (validateVerifyItems items) /\
  ((exists l, validateVerifyItems items = inr l) <->
   Forall verifyEntryOk items).
Proof.
  induction items as [|v rest [IHe IH]]; cbn [validateVerifyItems].
  - split; [exact I|]. split; [constructor | now exists []].
  - destruct (validateVerifyItem_spec v) as [He Hv].
    destruct (validateVerifyItem v) as [e|c].
    + split; [exact He|]. split; [intros [l Hl]; discriminate|].
      intros H. inversion H; subst.
      destruct (proj2 Hv) as [c Hc]; [assumption | discriminate].
    + destruct (validateVerifyItems rest) as [e|l].
      * split; [exact IHe|]. split; [intros [l Hl]; discriminate|].
        intros H. inversion H; subst.
        destruct (proj2 IH) as [l Hl]; [assumption | discriminate].
      * split; [exact I|]. split; [|now eexists].
        intros _. constructor; [apply Hv; now eexists
                               | apply IH; now eexists].
Qed.

Lemma validateTask_spec obj :
  isValidationError (validateTask obj) /\
  ((exists t, validateTask obj = inr t) <-> taskOk obj).
Proof.
  unfold validateTask, taskOk.
  destruct obj as [ |b|n|s|items|props]; cbn [truthy isObject typeof negb orb];
    try (split; [try destruct b; try destruct (negb _); now eexists _, _|];
         split; [try destruct b; try destruct (negb _);
                 intros [c Hc]; discriminate
                | intros [props [? [? [? [? [? [? [H _]]]]]]]];
                  discriminate]).
  cbn [getProp].
  destruct (nonEmptyString (assoc "id" props)) eqn:Ei; cbn [negb].
  2:{ split; [now eexists _, _|]. split; [intros [c Hc]; discriminate|].
      intros [props' [i [c [t [p [sc [vs [[= <-] [Hi [Hn _]]]]]]]]]].
      assert (nonEmptyString (assoc "id" props) = true)
        by (apply nonEmptyString_spec; eauto).
      congruence. }
  destruct (nonEmptyString (assoc "created" props)) eqn:Ec; cbn [negb].
  2:{ split; [now eexists _, _|]. split; [intros [c Hc]; discriminate|].
      intros [props' [i [c [t [p [sc [vs
               [[= <-] [_ [_ [Hc [Hn _]]]]]]]]]]]].
      assert (nonEmptyString (assoc "created" props) = true)
        by (apply nonEmptyString_spec; eauto).
      congruence. }
  destruct (nonEmptyString (assoc "title" props)) eqn:Et; cbn [negb].
  2:{ split; [now eexists _, _|]. split; [intros [c Hc]; discriminate|].
      intros [props' [i [c [t [p [sc [vs
               [[= <-] [_ [_ [_ [_ [Ht [Hn _]]]]]]]]]]]]]].
      assert (nonEmptyString (assoc "title" props) = true)
        by (apply nonEmptyString_spec; eauto).
      congruence. }
  destruct (nonEmptyString (assoc "prompt" props)) eqn:Ep; cbn [negb].
  2:{ split; [now eexists _, _|]. split; [intros [c Hc]; discriminate|].
      intros [props' [i [c [t [p [sc [vs
               [[= <-] [_ [_ [_ [_ [_ [_ [Hp [Hn _]]]]]]]]]]]]]]]].
      assert (nonEmptyString (assoc "prompt" props) = true)
        by (apply nonEmptyString_spec; eauto).
      congruence. }
  apply nonEmptyString_spec in Ei as [i [Ei Hi]].
  apply nonEmptyString_spec in Ec as [c [Ec Hc]].
  apply nonEmptyString_spec in Et as [t [Et Ht]].
  apply nonEmptyString_spec in Ep as [p [Ep Hp]].
  destruct (assoc "scope" props) as [[ | | | |sc| ]|] eqn:Es;
    try (split; [now eexists _, _|];
         split; [intros [c' Hc']; discriminate|];
         intros [props' [? [? [? [? [? [?
                  [[= <-] [_ [_ [_ [_ [_ [_ [_ [_ [H _]]]]]]]]]]]]]]]]];
         congruence).
  destruct (assoc "verify" props) as [[ | | | |vs| ]|] eqn:Ev;
    try (split; [now eexists _, _|];
         split; [intros [c' Hc']; discriminate|];
         intros [props' [? [? [? [? [? [?
                  [[= <-] [_ [_ [_ [_ [_ [_ [_ [_ [_ [_ [H _]]]]]]]]]]]]]]]]]]];
         congruence).
  destruct (validateScopeItems_spec sc) as [Hse Hs].
  destruct (validateVerifyItems_spec vs) as [Hve Hv].
  destruct (validateScopeItems sc) as [e|scl].
  { split; [exact Hse|]. split; [intros [c' Hc']; discriminate|].
    intros [props' [? [? [? [? [sc' [vs'
             [[= <-] [_ [_ [_ [_ [_ [_ [_ [_ [Hsc [Hf _]]]]]]]]]]]]]]]]]].
    assert (sc' = sc) as -> by congruence.
    destruct (proj2 Hs Hf) as [l Hl]. discriminate. }
  destruct (validateVerifyItems vs) as [e|vsl].
  { split; [exact Hve|]. split; [intros [c' Hc']; discriminate|].
    intros [props' [? [? [? [? [sc' [vs'
             [[= <-] [_ [_ [_ [_ [_ [_ [_ [_ [_ [_ [Hvs Hf]]]]]]]]]]]]]]]]]]].
    assert (vs' = vs) as -> by congruence.
    destruct (proj2 Hv Hf) as [l Hl]. discriminate. }
  split; [exact I|]. split; [|now eexists].
  intros _. exists props, i, c, t, p, sc, vs.
  repeat split; try assumption.
  - apply Hs. now eexists.
  - apply Hv. now eexists.
Qed.

(** The claim C5 as it is worded fails: a task whose id is ../x, whose
    scope is empty and whose only verify entry has the empty command is
    accepted. *)
Lemma C5_accepts_unsafe_task :
  exists t,
    validateTask unsafeTask = inr t /\
    id t = "../x" /\ idMatches (id t) = false /\
    scope t = [] /\
    List.map cmd (verify t) = [""] /\
    specInvariants t = false.
Proof. eexists. repeat split. Qed.

(** C5, amended. [validateTask] accepts exactly the objects whose [id],
    [created], [title] and [prompt] are non-empty strings, whose [scope]
    is an array of strings and whose [verify] is an array of objects with
    a string [cmd] and an array [args]; the scope may be empty, a [cmd]
    may be empty, and the id is not matched against any pattern.  Every
    other input is rejected with a [TaskValidationError]. *)
Theorem C5_validateTask_checks (obj : json) :
  ((exists t, validateTask obj = inr t) <-> taskOk obj) /\
  (forall e, validateTask obj = inl e ->
             exists message field, e = TaskValidationError message field) /\
  (forall t, validateTask obj = inr t ->
             raw t = obj /\ id t <> "" /\
             getProp obj "id" = Some (JStr (id t))).
Proof.
  destruct (validateTask_spec obj) as [He Hok]. split; [exact Hok|]. split.
  - intros e E. rewrite E in He. exact He.
  - intros t E.
    assert (Hex : exists t, validateTask obj = inr t) by now exists t.
    apply Hok in Hex.
    destruct Hex as (props & i & c & ti & p & sc & vs & -> & Hi & Hn & Hc
                     & _ & Ht & _ & Hp & _ & Hs & _ & Hv & _).
    revert E. unfold validateTask. cbn [truthy isObject typeof negb orb getProp].
    rewrite Hi, Hc, Ht, Hp, Hs, Hv.
    destruct (String.eqb_spec i ""); [contradiction|].
    cbn [nonEmptyString isString typeof truthy negb andb].
    repeat match goal with
           | |- context [String.eqb ?s ""] =>
               destruct (String.eqb s ""); cbn [negb andb]
           end;
      try discriminate;
      destruct (validateScopeItems sc); try discriminate;
      destruct (validateVerifyItems vs); try discriminate;
      intros [= <-]; cbn; auto.
Qed.

End TaskValidation.

(** ** SHA-256 on its constants and two standard messages *)

Example sha256_constants :
  List.length Sha256.K = 64 /\
  List.nth 0 Sha256.K 0%N = 0x428a2f98%N /\
  List.nth 63 Sha256.K 0%N = 0xc67178f2%N /\
  List.nth 0 Sha256.H0 0%N = 0x6a09e667%N /\
  List.nth 7 Sha256.H0 0%N = 0x5be0cd19%N.
Proof. vm_compute. auto. Qed.

Example sha256_abc :
  Sha256.hex "abc"
  = "ba7816bf8f01cfea414140de5dae2223b00361a396177a9cb410ff61f20015ad".
Proof. vm_compute. reflexivity. Qed.

Example sha256_two_blocks :
  Sha256.hex "abcdbcdecdefdefgefghfghighijhijkijkljklmklmnlmnomnopnopq"
  = "248d6a61d20638b8e5c026930c3e6039a33ce45964ff2167f6ecedd419db06c1".
Proof. vm_compute. reflexivity. Qed.

Section RunnerFacts.
Import Runner.

Lemma setProp_fresh obj key value :
  ~ In key (List.map fst obj) -> setProp obj key value = (obj ++ [(key, value)])%list.
Proof.
  induction obj as [|[k v] obj IH]; intros Hk; cbn; [reflexivity|].
  destruct (String.eqb_spec k key) as [->|Hne].
  - exfalso. apply Hk. now left.
  - rewrite IH; [reflexivity|]. intros Hin. apply Hk. now right.
Qed.

Lemma allowedValue_keys env key kv :
  In kv (allowedValue env key) -> fst kv = key.
Proof.
  unfold allowedValue. destruct (env !! key) as [v|]; [|intros []].
  destruct (negb _); [|intros []]. now intros [<-|[]].
Qed.

(** On keys without repetition, the loop of [filterEnv] appends. *)
Lemma filterEnv_loop env keys :
  List.NoDup keys ->
  forall acc,
    (forall k, In k keys -> ~ In k (List.map fst acc)) ->
    fold_left
      (fun filtered key =>
         match env !! key with
         | Some value =>
             if negb (String.eqb value "") then setProp filtered key value
             else filtered
         | None => filtered
         end) keys acc
    = (acc ++ flat_map (allowedValue env) keys)%list.
Proof.
  induction 1 as [|key keys Hnin Hnd IH]; intros acc Hacc; cbn [fold_left flat_map].
  - now rewrite app_nil_r.
  - assert (Hstep :
      match env !! key with
      | Some value =>
          if negb (String.eqb value "") then setProp acc key value else acc
      | None => acc
      end = (acc ++ allowedValue env key)%list).
    { unfold allowedValue. destruct (env !! key) as [v|];
        [|now rewrite app_nil_r].
      destruct (negb _); [|now rewrite app_nil_r].
      apply setProp_fresh. apply Hacc. now left. }
    rewrite Hstep, IH, <- List.app_assoc; [reflexivity|].
    intros k Hk. rewrite List.map_app, in_app_iff. intros [Hin|Hin].
    + revert Hin. apply Hacc. now right.
    + apply in_map_iff in Hin as [kv [<- Hkv]].
      apply allowedValue_keys in Hkv. congruence.
Qed.

Lemma ALLOWED_ENV_VARS_NoDup : List.NoDup ALLOWED_ENV_VARS.
Proof.
  unfold ALLOWED_ENV_VARS.
  repeat (constructor; [cbn; intuition discriminate|]). constructor.
Qed.

Lemma filterEnv_flat env :
  filterEnv env = flat_map (allowedValue env) ALLOWED_ENV_VARS.
Proof.
  unfold filterEnv.
  rewrite filterEnv_loop; [reflexivity | apply ALLOWED_ENV_VARS_NoDup |].
  intros k _ [].
Qed.

(** C10. [filterEnv] returns exactly the allow-listed names whose value
    in the environment is a non-empty string, each with that value and
    each once: no other name appears, and an allow-listed name bound to
    the empty string is dropped.  [buildEnvArgs] passes just these on. *)
Theorem C10_filterEnv_allow_list (env : gmap string string) :
  (forall key value,
      In (key, value) (filterEnv env) <->
      In key ALLOWED_ENV_VARS /\ env !! key = Some value /\ value <> "") /\
  List.NoDup (List.map fst (filterEnv env)) /\
  ALLOWED_ENV_VARS =
    ["CI"; "NODE_ENV"; "HOME"; "PATH"; "TERM"; "LANG"; "LC_ALL"; "TZ"] /\
  (forall processEnv,
      buildEnvArgs processEnv (Some env) =
      flat_map (fun kv => ["-e"; fst kv ++ "=" ++ snd kv]) (filterEnv env)).
Proof.
  rewrite filterEnv_flat. repeat split.
  - apply in_flat_map in H as [k [Hk Hv]].
    apply allowedValue_keys in Hv as Hkey. cbn in Hkey. now subst.
  - apply in_flat_map in H as [k [Hk Hv]].
    pose proof (allowedValue_keys _ _ _ Hv) as Hkey. cbn in Hkey. subst k.
    unfold allowedValue in Hv. destruct (env !! key) as [v|]; [|destruct Hv].
    destruct (negb _); [|destruct Hv]. destruct Hv as [[= ->]|[]]. reflexivity.
  - apply in_flat_map in H as [k [Hk Hv]].
    pose proof (allowedValue_keys _ _ _ Hv) as Hkey. cbn in Hkey. subst k.
    unfold allowedValue in Hv. destruct (env !! key) as [v|]; [|destruct Hv].
    destruct (String.eqb_spec v ""); cbn in Hv; [destruct Hv|].
    destruct Hv as [[= ->]|[]]. assumption.
  - intros (Hk & Hv & Hne). apply in_flat_map. exists key. split; [exact Hk|].
    unfold allowedValue. rewrite Hv.
    destruct (String.eqb_spec value ""); [contradiction | now left].
  - pose proof ALLOWED_ENV_VARS_NoDup as Hnd.
    induction Hnd as [|k keys Hnin Hnd IH]; cbn [flat_map]; [constructor|].
    rewrite List.map_app. apply List.NoDup_app; [|exact IH|].
    + unfold allowedValue. destruct (env !! k) as [v|]; [|constructor].
      destruct (negb _); repeat constructor. intros [].
    + intros x Hx Hy. apply in_map_iff in Hx as [kv [<- Hkv]].
      apply allowedValue_keys in Hkv. rewrite Hkv in Hy.
      apply in_map_iff in Hy as [kv' [Hf Hkv']].
      apply in_flat_map in Hkv' as [k' [Hk' Hv']].
      apply allowedValue_keys in Hv'. congruence.
  - intros processEnv. unfold buildEnvArgs. rewrite filterEnv_flat.
    generalize (flat_map (allowedValue env) ALLOWED_ENV_VARS). intros l.
    assert (G : forall acc,
      fold_left (fun envArgs kv =>
                   (envArgs ++ ["-e"; (fst kv ++ "=" ++ snd kv)%string])%list) l acc
      = (acc ++ flat_map (fun kv => ["-e"; (fst kv ++ "=" ++ snd kv)%string])
                         l)%list).
    { induction l as [|kv l IH]; intros acc; cbn [fold_left flat_map].
      - now rewrite app_nil_r.
      - rewrite IH, <- List.app_assoc. reflexivity. }
    apply (G []).
Qed.

End RunnerFacts.

(** ** Facts about sorting and loading tasks *)

Section SortFacts.
Import Task.
Context {A : Type}.
Variable key : A -> option Z.

Lemma insertSorted_perm x l :
  Permutation (insertSorted (compareKey key) x l) (x :: l).
Proof.
  induction l as [|y l IH]; cbn; [reflexivity|].
  destruct (compareKey key x y) as [d|]; [|reflexivity].
  destruct (0 <? d)%Z; [|reflexivity].
  rewrite IH. apply perm_swap.
Qed.

Lemma sort_perm l : Permutation (sort (compareKey key) l) l.
Proof.
  induction l as [|x l IH]; cbn; [reflexivity|].
  rewrite insertSorted_perm. now constructor.
Qed.

Lemma sort_In l x : In x (sort (compareKey key) l) <-> In x l.
Proof.
  split; apply Permutation_in; [|symmetry]; apply sort_perm.
Qed.

Lemma keyLe_trans a b c : keyLe key a b -> keyLe key b c -> keyLe key a c.
Proof.
  intros (x & y & Ha & Hb & Hxy) (y' & z & Hb' & Hc & Hyz).
  exists x, z. repeat split; try assumption.
  assert (y = y') by congruence. lia.
Qed.

Lemma insertSorted_sorted x l :
  is_Some (key x) -> Forall (fun a => is_Some (key a)) l ->
  StronglySorted (keyLe key) l ->
  StronglySorted (keyLe key) (insertSorted (compareKey key) x l).
Proof.
  intros [kx Hx] Hall Hs. induction Hs as [|y l Hs IH Hy]; cbn.
  - repeat constructor.
  - apply Forall_cons in Hall as [[ky Hky] Hall].
    unfold compareKey at 1. rewrite Hx, Hky.
    destruct (Z.ltb_spec 0 (kx - ky)).
    + constructor; [now apply IH|].
      apply List.Forall_forall. intros a Ha.
      apply (Permutation_in _ (insertSorted_perm x l)) in Ha as [<-|Ha].
      * exists ky, kx. repeat split; [assumption..|lia].
      * revert a Ha. now apply List.Forall_forall.
    + assert (Hxy : keyLe key x y)
        by (exists kx, ky; repeat split; [assumption..|lia]).
      constructor; [now constructor|].
      constructor; [exact Hxy|].
      eapply List.Forall_impl; [|exact Hy].
      intros a. now apply keyLe_trans.
Qed.

Lemma sort_sorted l :
  Forall (fun a => is_Some (key a)) l ->
  StronglySorted (keyLe key) (sort (compareKey key) l).
Proof.
  induction l as [|x l IH]; intros Hall; [constructor|].
  change (sort (compareKey key) (x :: l))
    with (insertSorted (compareKey key) x (sort (compareKey key) l)).
  apply Forall_cons in Hall as [Hx Hall].
  apply insertSorted_sorted; [exact Hx | | now apply IH].
  apply List.Forall_forall. intros a Ha.
  apply (proj1 (sort_In _ _)) in Ha.
  rewrite List.Forall_forall in Hall. now apply Hall.
Qed.

Lemma insertSorted_stable k x l :
  is_Some (key x) ->
  List.filter (hasKey key k) (insertSorted (compareKey key) x l)
  = List.filter (hasKey key k) (x :: l).
Proof.
  intros [kx Hx]. induction l as [|y l IH]; [reflexivity|].
  cbn [insertSorted]. unfold compareKey at 1. rewrite Hx.
  destruct (key y) as [ky|] eqn:Hy; [|reflexivity].
  destruct (Z.ltb_spec 0 (kx - ky)); [|reflexivity].
  assert (Hkx : hasKey key k x = (kx =? k)%Z)
    by (unfold hasKey; now rewrite Hx).
  assert (Hky : hasKey key k y = (ky =? k)%Z)
    by (unfold hasKey; now rewrite Hy).
  cbn [List.filter] in *. rewrite IH, Hkx, Hky.
  destruct (Z.eqb_spec ky k), (Z.eqb_spec kx k); try reflexivity; lia.
Qed.

Lemma sort_stable k l :
  Forall (fun a => is_Some (key a)) l ->
  List.filter (hasKey key k) (sort (compareKey key) l)
  = List.filter (hasKey key k) l.
Proof.
  induction l as [|x l IH]; intros Hall; [reflexivity|].
  apply Forall_cons in Hall as [Hx Hall].
  change (sort (compareKey key) (x :: l))
    with (insertSorted (compareKey key) x (sort (compareKey key) l)).
  rewrite insertSorted_stable by exact Hx.
  cbn [List.filter]. now rewrite IH.
Qed.

End SortFacts.

Section LoadFacts.
Import JsString Task.
Variable h : Host.

Lemma read_pure p root fs : snd (FsSafe.read h p root fs) = fs.
Proof.
  unfold FsSafe.read. destruct (negb _); [reflexivity|].
  unfold bind, Fs.plstat.
  destruct (Fs.lstat fs (Path.resolve (cwd h) p)) as [n|] eqn:E;
    [|reflexivity].
  destruct (FsSafe.isSymbolicLink n); [reflexivity|].
  unfold Fs.readFileNoFollow. rewrite E. now destruct n.
Qed.

Lemma loadTask_pure p root fs : snd (loadTask h p root fs) = fs.
Proof.
  unfold loadTask, bind. pose proof (read_pure p root fs) as Hr.
  destruct (FsSafe.read h p root fs) as [[content|e] fs']; cbn in Hr; subst;
    [|reflexivity].
  destruct (JSON_parse h content) as [obj|]; [|reflexivity].
  cbn. now destruct (validateTask obj).
Qed.

Lemma readdir_pure p root fs : snd (FsSafe.readdir h p root fs) = fs.
Proof.
  unfold FsSafe.readdir. destruct (negb _); [reflexivity|].
  unfold Fs.readdir. now destruct (Fs.lstat fs _) as [[| |]|].
Qed.

Lemma loadEach_spec tasksDir root fs files :
  loadEach h tasksDir root files fs
  = (Ok (loadedOf h tasksDir root fs files), fs).
Proof.
  induction files as [|file rest IH]; [reflexivity|].
  cbn [loadEach loadedOf flat_map]. unfold bind at 1, tryCatch, bind at 1.
  pose proof (loadTask_pure (Path.join [tasksDir; file]) root fs) as Hp.
  destruct (loadTask h (Path.join [tasksDir; file]) root fs)
    as [[task|e] fs']; cbn in Hp; subst fs'; cbn [ret fst];
    unfold bind; rewrite IH; reflexivity.
Qed.

Lemma loadTasks_spec tasksDir root fs files :
  FsSafe.readdir h tasksDir root fs = (Ok files, fs) ->
  loadTasks h tasksDir root fs
  = (Ok (sort (compareKey (createdTime h))
              (loadedOf h tasksDir root fs (List.filter isJson files))), fs).
Proof.
  intros Hr. unfold loadTasks, bind at 1. rewrite Hr.
  unfold bind. now rewrite loadEach_spec.
Qed.

Lemma loadTasks_pure tasksDir root fs : snd (loadTasks h tasksDir root fs) = fs.
Proof.
  unfold loadTasks, bind at 1.
  pose proof (readdir_pure tasksDir root fs) as Hp.
  destruct (FsSafe.readdir h tasksDir root fs) as [[files|e] fs'];
    cbn in Hp; subst fs'; [|reflexivity].
  unfold bind. now rewrite loadEach_spec.
Qed.

Lemma loadedOf_In tasksDir root fs files t :
  In t (loadedOf h tasksDir root fs files) <->
  exists file, In file files /\
               fst (loadTask h (Path.join [tasksDir; file]) root fs) = Ok t.
Proof.
  unfold loadedOf. rewrite in_flat_map. split.
  - intros [file [Hf Ht]]. exists file. split; [exact Hf|].
    destruct (fst (loadTask h _ root fs)) as [t'|e]; [|destruct Ht].
    now destruct Ht as [->|[]].
  - intros [file [Hf Ht]]. exists file. split; [exact Hf|].
    rewrite Ht. now left.
Qed.

End LoadFacts.

(** ** The order of the tasks in a pass (C7) *)

Section TaskOrder.
Import JsString Task.

(** The claim C7 as it is worded fails.  With the tasks hi (priority 10,
    created on January 2nd) and lo (priority 1, created on January 1st) in
    the queue, lo is loaded first.  With the tasks a and b of one
    timestamp and one priority, listed by the directory as b.json, a.json,
    b is loaded first. *)
Lemma C7_priority_and_id_ignored :
  let tasksDir := tasksDirOf Queue.config in
  let thi := validated Queue.hi in
  let tlo := validated Queue.lo in
  let ta := validated Queue.tieA in
  let tb := validated Queue.tieB in
  let h1 := Queue.host [Queue.hi; Queue.lo] (fun names => names) in
  let fs1 := Queue.withTasks [("hi.json", Queue.text Queue.hi);
                              ("lo.json", Queue.text Queue.lo)] in
  let h2 := Queue.host [Queue.tieA; Queue.tieB]
                       (fun _ => ["b.json"; "a.json"]) in
  let fs2 := Queue.withTasks [("a.json", Queue.text Queue.tieA);
                              ("b.json", Queue.text Queue.tieB)] in
  loadTasks h1 tasksDir "/repo" fs1 = (Ok [tlo; thi], fs1) /\
  Queue.priorityOf thi = 10%Z /\ Queue.priorityOf tlo = 1%Z /\
  claimedBefore h1 tlo thi = false /\
  loadTasks h2 tasksDir "/repo" fs2 = (Ok [tb; ta], fs2) /\
  created ta = created tb /\ id ta = "a" /\ id tb = "b" /\
  claimedBefore h2 tb ta = false.
Proof. cbv zeta. repeat split; vm_compute; reflexivity. Qed.

(** C7, amended. In a pass the tasks are processed in the order of their
    created-at timestamps, oldest first; tasks of one timestamp keep the
    order in which the directory lists their files.  Neither a priority
    nor the id takes part.  (Stated for tasks whose timestamps parse.) *)
Theorem C7_oldest_first
    (h : Host) (tools : Loop.Tools) (config : Loop.WatcherConfig)
    (fs : gmap string node) (files : list string) :
  let tasksDir := tasksDirOf config in
  let root := Loop.repoPath config in
  let loaded := loadedOf h tasksDir root fs (List.filter isJson files) in
  FsSafe.readdir h tasksDir root fs = (Ok files, fs) ->
  Forall (fun t => is_Some (createdTime h t)) loaded ->
  exists tasks,
    loadTasks h tasksDir root fs = (Ok tasks, fs) /\
    Loop.runPass h tools config fs = Loop.processAll h tools config tasks fs /\
    Permutation tasks loaded /\
    StronglySorted (keyLe (createdTime h)) tasks /\
    forall time,
      List.filter (hasKey (createdTime h) time) tasks
      = List.filter (hasKey (createdTime h) time) loaded.
Proof.
  intros tasksDir root loaded Hdir Hall.
  exists (sort (compareKey (createdTime h)) loaded).
  assert (Hload : loadTasks h tasksDir root fs
                  = (Ok (sort (compareKey (createdTime h)) loaded), fs))
    by now apply loadTasks_spec.
  split; [exact Hload|]. split.
  { unfold Loop.runPass. fold (tasksDirOf config). fold tasksDir. fold root.
    unfold bind. now rewrite Hload. }
  split; [apply sort_perm|]. split; [now apply sort_sorted|].
  intros time. now apply sort_stable.
Qed.

Lemma C7_witness :
  let h := Queue.host [Queue.hi; Queue.lo] (fun names => names) in
  let fs := Queue.withTasks [("hi.json", Queue.text Queue.hi);
                             ("lo.json", Queue.text Queue.lo)] in
  exists tasks,
    loadTasks h (tasksDirOf Queue.config) "/repo" fs = (Ok tasks, fs) /\
    StronglySorted (keyLe (createdTime h)) tasks.
Proof.
  cbv zeta.
  destruct (C7_oldest_first
              (Queue.host [Queue.hi; Queue.lo] (fun names => names))
              (Queue.tools "" 0) Queue.config
              (Queue.withTasks [("hi.json", Queue.text Queue.hi);
                                ("lo.json", Queue.text Queue.lo)])
              ["lo.json"; "hi.json"])
    as [tasks [Hl [_ [_ [Hs _]]]]].
  - vm_compute. reflexivity.
  - repeat constructor; vm_compute; eauto.
  - exists tasks. split; [exact Hl | exact Hs].
Defined.

End TaskOrder.

(** ** Task files that do not load (C8) *)

Section InvalidTasks.
Import JsString Task.




End InvalidTasks.

(** ** The incident of a secret (C4) *)

Section SecretIncident.
Import JsString Task.

(** The claim C4 as it is worded fails.  A verify command of task t1
    prints one bearer token: the incident names the one pattern
    BEARER_TOKEN, and its hash is that of t1BEARER_TOKEN,BEARER_TOKEN,
    BEARER_TOKEN (no separator after the id, one name per reported match),
    not that of t1,BEARER_TOKEN. *)
Lemma C4_hash_is_not_the_claimed_one :
  let h := Queue.host [bearerTask] (fun names => names) in
  let fs := Queue.withTasks [("t1.json", Queue.text bearerTask)] in
  let tools := Queue.tools "Bearer abcdefghijklmno" 0 in
  exists r incident,
    fst (Loop.processTask h tools Queue.config (validated bearerTask) fs)
      = Ok r /\
    Result.status r = Result.SecretDetected /\
    Result.secretIncident r = Some incident /\
    Result.patterns incident = ["BEARER_TOKEN"] /\
    Result.incidentHash incident = "33f5b70437c614e3" /\
    Result.incidentHash incident =
      slice (Sha256.hex "t1BEARER_TOKEN,BEARER_TOKEN,BEARER_TOKEN")
            0 (Some 16%Z) /\
    claimedIncidentHash "t1" (Result.patterns incident) = "76202f15293754e8" /\
    Result.incidentHash incident
      <> claimedIncidentHash "t1" (Result.patterns incident).
Proof.
  cbv zeta. eexists. eexists.
  split; [vm_compute; reflexivity|].
  repeat split; try (vm_compute; reflexivity).
  vm_compute. discriminate.
Qed.

Variable h : Host.
Variable tools : Loop.Tools.
Variable config : Loop.WatcherConfig.

Lemma hasSecrets_resultOf ms :
  Scanner.hasSecrets (Scanner.resultOf ms) = true -> ms <> [].
Proof. destruct ms; [discriminate | discriminate]. Qed.

Lemma scan_hasSecrets this chunk :
  Scanner.hasSecrets (fst (Scanner.scan this chunk)) = true ->
  Scanner.matches (fst (Scanner.scan this chunk)) <> [].
Proof. unfold Scanner.scan. cbn [fst]. apply hasSecrets_resultOf. Qed.

Lemma finalize_hasSecrets this :
  Scanner.hasSecrets (fst (Scanner.finalize this)) = true ->
  Scanner.matches (fst (Scanner.finalize this)) <> [].
Proof.
  unfold Scanner.finalize. destruct (_ =? 0)%nat; cbn [fst];
    [discriminate | apply hasSecrets_resultOf].
Qed.

Lemma verifyLoop_returns task startedAt verifies :
  forall verifyResults allPassed fs r fs',
    Loop.verifyLoop h tools config task startedAt
      (Path.join [Loop.handoffPath config; Loop.DIRS.tmp; "ws-" ++ id task])
      verifies verifyResults allPassed fs = (Ok (inl r), fs') ->
    exists verify fs0,
      In verify verifies /\
      allMatchesOf (outputOf tools config task verify fs0) <> [] /\
      r = Result.createSecretDetectedResult h (id task) startedAt
            (Loop.incidentOf (id task)
               (allMatchesOf (outputOf tools config task verify fs0))).
Proof.
  induction verifies as [|verify rest IH];
    intros verifyResults allPassed fs r fs'; [discriminate|].
  cbn [Loop.verifyLoop]. unfold bind at 1.
  destruct (Loop.runnerRun tools (cmd verify) (args verify) _ _ fs)
    as [run fs1] eqn:Erun.
  assert (Hout : outputOf tools config task verify fs = run)
    by (unfold outputOf; now rewrite Erun).
  unfold allMatchesOf in *.
  destruct (Loop.scanOutputs (Loop.stdout run) (Loop.stderr run))
    as [[stdoutScan stderrScan] finalScan] eqn:Escan.
  destruct (Scanner.hasSecrets stdoutScan || Scanner.hasSecrets stderrScan
            || Scanner.hasSecrets finalScan) eqn:Esec.
  - unfold bind.
    destruct (Loop.cleanupWorktree h tools config _ fs1) as [[[]|e] fs2];
      [|discriminate].
    destruct (FsSafe.unlink h _ (Loop.repoPath config) fs2) as [[[]|e] fs3];
      [|discriminate].
    intros [= <- <-]. exists verify, fs. split; [now left|].
    rewrite Hout, Escan. split; [|reflexivity].
    revert Escan Esec. unfold Loop.scanOutputs.
    destruct (Scanner.scan (Scanner.new []) (Loop.stdout run))
      as [s1 sc1] eqn:E1.
    destruct (Scanner.scan sc1 (Loop.stderr run)) as [s2 sc2] eqn:E2.
    destruct (Scanner.finalize sc2) as [s3 sc3] eqn:E3.
    intros [= <- <- <-] Hsec.
    apply orb_true_iff in Hsec as [Hsec|Hsec];
      [apply orb_true_iff in Hsec as [Hsec|Hsec]|].
    + pose proof (scan_hasSecrets (Scanner.new []) (Loop.stdout run)) as Hm.
      rewrite E1 in Hm. specialize (Hm Hsec). cbn [fst] in Hm.
      destruct (Scanner.matches s1); [congruence | discriminate].
    + pose proof (scan_hasSecrets sc1 (Loop.stderr run)) as Hm.
      rewrite E2 in Hm. specialize (Hm Hsec). cbn [fst] in Hm.
      destruct (Scanner.matches s2); [congruence|].
      destruct (Scanner.matches s1); discriminate.
    + pose proof (finalize_hasSecrets sc2) as Hm.
      rewrite E3 in Hm. specialize (Hm Hsec). cbn [fst] in Hm.
      destruct (Scanner.matches s3); [congruence|].
      destruct (Scanner.matches s1), (Scanner.matches s2); discriminate.
  - intros Hrest. apply IH in Hrest as [v [fs0 [Hin Hv]]].
    exists v, fs0. split; [now right | exact Hv].
Qed.

(** C4, amended. The incident of a secret_detected result comes from the
    output of one verify command of the task: its [patterns] are the
    distinct names of the matches that the scans of that output report (in
    the order of their first report, not sorted), and its hash is the
    first 16 hexadecimal characters of the SHA-256 of the task id followed,
    with no separator, by the names of all reported matches joined by
    commas, in report order and with repetitions. *)
Theorem C4_incident_hash_of_matches
    (task : Task) (fs fs' : gmap string node) (r : Result.Result) :
  Loop.processTask h tools config task fs = (Ok r, fs') ->
  Result.status r = Result.SecretDetected ->
  exists verify fs0 incident,
    In verify (Task.verify task) /\
    let reported := allMatchesOf (outputOf tools config task verify fs0) in
    let names := List.map Scanner.pattern reported in
    reported <> [] /\
    Result.secretIncident r = Some incident /\
    Result.patterns incident = Loop.distinct names /\
    Result.matchCount incident = List.length reported /\
    Result.incidentHash incident =
      slice (Sha256.hex (id task ++ JsString.join "," names)) 0 (Some 16%Z).
Proof.
  unfold Loop.processTask. unfold tryCatch at 1.
  destruct (bind (Loop.moveTask h config (id task) Loop.DIRS.tasks
                    Loop.DIRS.running) _ fs) as [[r0|e] fs1] eqn:Emain.
  - intros [= <- <-] Hstatus. revert Emain. unfold bind at 1.
    destruct (Loop.moveTask h config (id task) _ _ fs) as [[[]|e] fs2];
      [|discriminate].
    unfold bind at 1.
    destruct (Loop.worktreeAdd tools _ _ _ fs2) as [[[]|e] fs3];
      [|discriminate].
    unfold bind at 1.
    destruct (Loop.verifyLoop h tools config task (now h) _
                (Task.verify task) [] true fs3)
      as [[[r1|[verifyResults allPassed]]|e] fs4] eqn:Eloop;
      [| |discriminate].
    + intros [= <- <-].
      apply verifyLoop_returns in Eloop as [verify [fs0 [Hin [Hne ->]]]].
      exists verify, fs0. eexists. split; [exact Hin|].
      cbv zeta. split; [exact Hne|]. split; [reflexivity|].
      repeat split.
    + unfold bind.
      destruct (Loop.cleanupWorktree h tools config _ fs4) as [[[]|e] fs5];
        [|discriminate].
      destruct (FsSafe.unlink h _ _ fs5) as [[[]|e] fs6]; [|discriminate].
      destruct allPassed; intros [= <- <-]; discriminate Hstatus.
  - unfold bind.
    destruct (Loop.cleanupWorktree h tools config _ fs1) as [[[]|e'] fs2];
      [|discriminate].
    destruct (@tryCatch unit _ _ fs2) as [[[]|e'] fs3]; [|discriminate].
    intros [= <- <-] Hstatus. discriminate Hstatus.
Qed.

End SecretIncident.

Lemma C4_witness :
  let h := Queue.host [bearerTask] (fun names => names) in
  let fs := Queue.withTasks [("t1.json", Queue.text bearerTask)] in
  let tools := Queue.tools "Bearer abcdefghijklmno" 0 in
  fst (Loop.processTask h tools Queue.config (validated bearerTask) fs)
    = Ok bearerResult /\
  exists verify fs0 incident,
    Result.secretIncident bearerResult = Some incident /\
    Result.incidentHash incident =
      JsString.slice
        (Sha256.hex
           ("t1" ++ JsString.join ","
              (List.map Scanner.pattern
                 (allMatchesOf (outputOf tools Queue.config
                                  (validated bearerTask) verify fs0)))))
        0 (Some 16%Z).
Proof.
  cbv zeta.
  assert (Ef : fst (Loop.processTask
                      (Queue.host [bearerTask] (fun names => names))
                      (Queue.tools "Bearer abcdefghijklmno" 0) Queue.config
                      (validated bearerTask)
                      (Queue.withTasks [("t1.json", Queue.text bearerTask)]))
               = Ok bearerResult) by (vm_compute; reflexivity).
  split; [exact Ef|].
  pose proof (surjective_pairing
                (Loop.processTask
                   (Queue.host [bearerTask] (fun names => names))
                   (Queue.tools "Bearer abcdefghijklmno" 0) Queue.config
                   (validated bearerTask)
                   (Queue.withTasks [("t1.json", Queue.text bearerTask)])))
    as E.
  rewrite Ef in E.
  destruct (C4_incident_hash_of_matches _ _ _ _ _ _ _ E eq_refl)
    as (verify & fs0 & incident & _ & _ & Hinc & _ & _ & Hhash).
  exists verify, fs0, incident. split; [exact Hinc | exact Hhash].
Defined.

(** ** The worker lock (C6) *)

Section WorkerLock.
Import JsString Js.


(** On the same queue the function of lock.ts throws: it asks the safe
    layer whether the root lies inside the lock file. *)
Example lock_ts_throws :
  let old := lockOf 4242 "hostA" "2024-01-01T00:00:00.000Z" in
  let h1 := Example.host (Example.newYear + 360000) [4242%Z] [old]
                         Example.noFault (fun names => names) in
  Lock.acquireWorkerLock h1 "/repo/.ai-handoff/locks" "/repo"
                         (lockedQueue old)
  = (Throw (PathEscapeError
              "Path /repo escapes root /repo/.ai-handoff/locks/__worker__.lock"),
     lockedQueue old).
Proof. vm_compute. reflexivity. Qed.



End WorkerLock.

(** ** The stream scanner over chunks *)

Section MatcherComplete.
Import JsString Regex.

Lemma app_nil_r_s (s : string) : s ++ "" = s.
Proof. induction s as [|a s IH]; [reflexivity|]. rewrite app_cons. now f_equal. Qed.

Lemma take_add j m s : take (j + m) s = take j s ++ take m (drop j s).
Proof.
  revert s. induction j as [|j IH]; intros [|a s]; cbn [take drop Nat.add];
    try reflexivity.
  - now destruct m.
  - rewrite app_cons. f_equal. apply IH.
Qed.

Lemma rep_complete c (k : string -> option nat) rest :
  (exists m, k rest = Some m) ->
  forall run lo hi,
    Forall (fun a => c a = true) (list_ascii_of_string run) ->
    lo <= String.length run ->
    match hi with Some most => String.length run <= most | None => True end ->
    exists m, rep c k lo hi (run ++ rest) = Some m.
Proof.
  intros Hk run. induction run as [|a run IH]; intros lo hi Hall Hlo Hhi.
  - cbn in Hlo. assert (lo = 0) as -> by lia. rewrite app_nil_l.
    destruct rest as [|x rest']; cbn [rep Nat.eqb]; [exact Hk|].
    destruct (c x && negb (exhausted hi)); [|exact Hk].
    destruct (rep c k (Nat.pred 0) (option_map Nat.pred hi) rest'); eauto.
  - rewrite app_cons. cbn [rep]. cbn in Hall. apply Forall_cons in Hall as [Ha Hall].
    rewrite Ha.
    assert (exhausted hi = false) as ->.
    { destruct hi as [[|most]|]; cbn in *; try reflexivity; lia. }
    cbn [andb negb].
    destruct (IH (Nat.pred lo) (option_map Nat.pred hi) Hall) as [m ->].
    + cbn in Hlo. lia.
    + destruct hi as [most|]; cbn in *; [lia|exact I].
    + eauto.
Qed.

Lemma matchHere_complete r :
  forall s t, Matches r s -> exists m, matchHere r (s ++ t) = Some m.
Proof.
  induction r as [|it r IH]; intros s t H.
  - cbn in H. subst s. cbn. eauto.
  - cbn in H. destruct H as (run & tail & -> & Hall & Hlo & Hhi & Htail).
    rewrite app_assoc_s.
    change (matchHere (it :: r)) with (rep (cls it) (matchHere r) (rmin it) (rmax it)).
    apply rep_complete; auto.
Qed.

Lemma rep_sound c (k : string -> option nat) :
  forall s lo hi n,
    rep c k lo hi s = Some n ->
    exists j m,
      n = j + m /\ j <= String.length s /\ k (drop j s) = Some m /\
      lo <= j /\
      match hi with Some most => j <= most | None => True end /\
      Forall (fun a => c a = true) (list_ascii_of_string (take j s)).
Proof.
  induction s as [|a s IH]; intros lo hi n H; cbn [rep] in H.
  - destruct (Nat.eqb_spec lo 0); [|discriminate]. subst lo.
    exists 0, n. cbn. repeat split; auto. destruct hi; [lia|exact I].
  - assert (Hstop : (if Nat.eqb lo 0 then k (String a s) else None) = Some n ->
                    exists j m, n = j + m /\ j <= String.length (String a s) /\
                      k (drop j (String a s)) = Some m /\ lo <= j /\
                      match hi with Some most => j <= most | None => True end /\
                      Forall (fun a => c a = true)
                             (list_ascii_of_string (take j (String a s)))).
    { intros Hk. destruct (Nat.eqb_spec lo 0); [|discriminate]. subst lo.
      exists 0, n. cbn. repeat split; auto; try lia. destruct hi; [lia|exact I]. }
    destruct (c a && negb (exhausted hi)) eqn:Hc; [|auto].
    destruct (rep c k (Nat.pred lo) (option_map Nat.pred hi) s) as [n'|] eqn:Hr;
      [|auto].
    injection H as <-.
    apply andb_true_iff in Hc as [Ha Hex].
    destruct (IH _ _ _ Hr) as (j & m & -> & Hj & Hk & Hlo & Hhi & Hall).
    exists (S j), m. cbn [drop take String.length list_ascii_of_string].
    repeat split; auto; try lia.
    destruct hi as [[|most]|]; cbn in *; try discriminate; try exact I. lia.
Qed.

Lemma matchHere_sound r :
  forall s n, matchHere r s = Some n ->
              n <= String.length s /\ Matches r (take n s).
Proof.
  induction r as [|it r IH]; intros s n H.
  - cbn in H. injection H as <-. split; [lia|]. destruct s; reflexivity.
  - change (matchHere (it :: r)) with (rep (cls it) (matchHere r) (rmin it) (rmax it)) in H.
    destruct (rep_sound _ _ _ _ _ _ H) as (j & m & -> & Hj & Hk & Hlo & Hhi & Hall).
    destruct (IH _ _ Hk) as [Hm Htail].
    rewrite length_drop in Hm. split; [lia|].
    cbn [Matches]. exists (take j s), (take m (drop j s)).
    rewrite length_take. rewrite Nat.min_l by assumption.
    repeat split; auto.
    apply take_add.
Qed.

End MatcherComplete.
Section ScanFacts.
Import JsString Regex Scanner.

Lemma drop_drop i j s : drop i (drop j s) = drop (j + i) s.
Proof.
  revert s. induction j as [|j IH]; intros s; [reflexivity|].
  destruct s as [|a s]; cbn [drop Nat.add]; [now destruct i|apply IH].
Qed.

Lemma drop_app_le d (s t : string) :
  d <= String.length s -> drop d (s ++ t) = drop d s ++ t.
Proof.
  revert s. induction d as [|d IH]; intros s Hd; [reflexivity|].
  destruct s as [|a s]; cbn in Hd; [lia|].
  rewrite app_cons. cbn [drop]. apply IH. lia.
Qed.

Lemma take_app_le n (s t : string) :
  n <= String.length s -> take n (s ++ t) = take n s.
Proof.
  revert s. induction n as [|n IH]; intros s Hn; [now destruct s|].
  destruct s as [|a s]; cbn in Hn; [lia|].
  rewrite app_cons. cbn [take]. f_equal. apply IH. lia.
Qed.

Lemma search_complete r :
  forall s i k,
    i <= String.length s ->
    (exists m, matchHere r (drop i s) = Some m) ->
    exists j n, search r s k = Some (j, n).
Proof.
  induction s as [|a s IH]; intros i k Hi Hm.
  - cbn in Hi. assert (i = 0) as -> by lia. cbn in Hm. destruct Hm as [m Hm].
    cbn. rewrite Hm. eauto.
  - cbn [search]. destruct (matchHere r (String a s)) eqn:E; [eauto|].
    destruct i as [|i].
    + cbn in Hm. rewrite E in Hm. destruct Hm. discriminate.
    + apply (IH i); [cbn in Hi; lia|exact Hm].
Qed.

Lemma search_sound r :
  forall s k j n,
    search r s k = Some (j, n) ->
    k <= j /\ matchHere r (drop (j - k) s) = Some n.
Proof.
  induction s as [|a s IH]; intros k j n H; cbn [search] in H.
  - destruct (matchHere r "") eqn:E; [|discriminate].
    injection H as <- <-. rewrite Nat.sub_diag. auto.
  - destruct (matchHere r (String a s)) eqn:E.
    + injection H as <- <-. rewrite Nat.sub_diag. auto.
    + apply IH in H as [Hk Hm]. split; [lia|].
      replace (j - k) with (S (j - S k)) by lia. exact Hm.
Qed.

Lemma execLoop_sound r text :
  forall fuel lastIndex i,
    In i (execLoop fuel r text lastIndex) ->
    exists n, i + n <= String.length text /\
              matchHere r (drop i text) = Some n.
Proof.
  induction fuel as [|fuel IH]; intros lastIndex i Hin; [destruct Hin|].
  cbn [execLoop] in Hin.
  destruct (exec r text lastIndex) as [[j n]|] eqn:E; [|destruct Hin].
  destruct Hin as [<-|Hin]; [|eauto].
  pose proof (exec_bounds _ _ _ _ _ E) as (Hl & Hb & _).
  exists n. split; [exact Hb|].
  unfold exec in E. destruct (String.length text <? lastIndex)%nat; [discriminate|].
  apply search_sound in E as [_ Hm].
  rewrite drop_drop in Hm. now replace (lastIndex + (j - lastIndex)) with j in Hm by lia.
Qed.

Lemma execAll_complete r text i :
  i <= String.length text ->
  (exists m, matchHere r (drop i text) = Some m) ->
  execAll r text <> [].
Proof.
  intros Hi Hm. unfold execAll. cbn [execLoop]. unfold exec.
  cbn [Nat.ltb Nat.leb drop].
  destruct (search_complete r text i 0 Hi Hm) as (j & n & ->). discriminate.
Qed.

(** Where a match is reported: the line and the column of an index. *)
Lemma findMatches_In this text lineOffset m :
  In m (findMatches this text lineOffset) <->
  exists name r i,
    In (name, r) (patterns this) /\ In i (execAll r text) /\
    m = matchAt name text lineOffset i.
Proof.
  unfold findMatches. rewrite in_flat_map. split.
  - intros ([name r] & Hp & Hm). apply in_map_iff in Hm as (i & <- & Hi).
    exists name, r, i. auto.
  - intros (name & r & i & Hp & Hi & ->). exists (name, r). split; [exact Hp|].
    apply in_map_iff. exists i. auto.
Qed.

Lemma findMatches_detects this text lineOffset name r i n :
  In (name, r) (patterns this) ->
  i + n <= String.length text ->
  Matches r (take n (drop i text)) ->
  In name (List.map pattern (findMatches this text lineOffset)).
Proof.
  intros Hp Hin Hm.
  assert (Hne : execAll r text <> []).
  { apply (execAll_complete r text i); [lia|].
    rewrite <- (take_drop n (drop i text)). now apply matchHere_complete. }
  destruct (execAll r text) as [|j l] eqn:E; [congruence|].
  apply in_map_iff. exists (matchAt name text lineOffset j). split; [reflexivity|].
  apply findMatches_In. exists name, r, j. rewrite E. repeat split; auto.
  now left.
Qed.

End ScanFacts.
Section StreamFacts.
Import JsString Regex Scanner.

Lemma join_empty_cons c rest :
  JsString.join "" (c :: rest) = c ++ JsString.join "" rest.
Proof. destruct rest; [symmetry; apply app_nil_r_s|reflexivity]. Qed.

Lemma countNewlines_app a b :
  countNewlines (a ++ b) = countNewlines a + countNewlines b.
Proof.
  induction a as [|x a IH]; [reflexivity|].
  rewrite app_cons. cbn [countNewlines]. rewrite IH. lia.
Qed.

Lemma take_all (t : string) : take (String.length t) t = t.
Proof. induction t as [|a t IH]; cbn; [reflexivity|now f_equal]. Qed.

Lemma slice_last n s :
  0 < n -> slice s (- Z.of_nat n) None = drop (String.length s - n) s.
Proof.
  intros Hn. unfold slice.
  assert (clampIndex (String.length s) (- Z.of_nat n) = String.length s - n)
    as ->.
  { unfold clampIndex. destruct (Z.ltb_spec (- Z.of_nat n) 0); lia. }
  rewrite <- (length_drop (String.length s - n) s). apply take_all.
Qed.

(** The buffer that [scan] keeps. *)
Lemma scan_state this chunk :
  let combined := overlapBuffer this ++ chunk in
  let this' := snd (scan this chunk) in
  overlapBuffer this'
  = drop (String.length combined - OVERLAP_BUFFER_SIZE) combined /\
  totalLines this' = totalLines this + countNewlines chunk /\
  patterns this' = patterns this.
Proof.
  cbv zeta. unfold scan. cbn [snd overlapBuffer totalLines patterns].
  repeat split.
  destruct (Nat.ltb_spec OVERLAP_BUFFER_SIZE
              (String.length (overlapBuffer this ++ chunk))).
  - apply slice_last. unfold OVERLAP_BUFFER_SIZE. lia.
  - replace (String.length (overlapBuffer this ++ chunk) - OVERLAP_BUFFER_SIZE)
      with 0 by lia. reflexivity.
Qed.

Lemma drop_last_app n (X c : string) :
  let B := drop (String.length X - n) X in
  drop (String.length (B ++ c) - n) (B ++ c)
  = drop (String.length (X ++ c) - n) (X ++ c).
Proof.
  cbv zeta. rewrite !length_app, length_drop.
  destruct (Nat.le_gt_cases (String.length X) n) as [Hle|Hgt].
  - replace (String.length X - n) with 0 by lia. cbn [drop].
    now rewrite Nat.sub_0_r.
  - replace (String.length X - (String.length X - n) + String.length c - n)
      with (String.length c) by lia.
    replace (String.length X + String.length c - n)
      with ((String.length X - n) + String.length c) by lia.
    rewrite <- drop_drop. rewrite (drop_app_le (String.length X - n) X c) by lia.
    reflexivity.
Qed.

Lemma scanChunks_state chunks :
  forall this seen,
    overlapBuffer this
    = drop (String.length seen - OVERLAP_BUFFER_SIZE) seen ->
    let text := seen ++ JsString.join "" chunks in
    let this' := snd (scanChunks this chunks) in
    overlapBuffer this'
    = drop (String.length text - OVERLAP_BUFFER_SIZE) text /\
    totalLines this'
    = totalLines this + countNewlines (JsString.join "" chunks) /\
    patterns this' = patterns this.
Proof.
  induction chunks as [|c rest IH]; intros this seen Hb; cbv zeta.
  - cbn [scanChunks snd JsString.join countNewlines]. rewrite app_nil_r_s.
    repeat split; auto.
  - cbn [scanChunks]. destruct (scan this c) as [r this1] eqn:Es.
    pose proof (scan_state this c) as Hs. rewrite Es in Hs. cbn [snd] in Hs.
    destruct Hs as (Hb1 & Hl1 & Hp1).
    destruct (scanChunks this1 rest) as [ms this2] eqn:Er.
    cbn [snd].
    assert (Hb1' : overlapBuffer this1
                   = drop (String.length (seen ++ c) - OVERLAP_BUFFER_SIZE)
                          (seen ++ c)).
    { rewrite Hb1, Hb. apply drop_last_app. }
    pose proof (IH this1 (seen ++ c) Hb1') as Hi. cbv zeta in Hi.
    rewrite Er in Hi. cbn [snd] in Hi. destruct Hi as (Hb2 & Hl2 & Hp2).
    rewrite join_empty_cons, <- app_assoc_s, countNewlines_app.
    repeat split; [exact Hb2|lia|congruence].
Qed.

Lemma Matches_length r :
  forall s, Matches r s -> minLength r <= String.length s.
Proof.
  induction r as [|it r IH]; intros s H; [cbn; lia|].
  cbn [Matches] in H. destruct H as (run & tail & -> & _ & Hlo & _ & Ht).
  change (minLength (it :: r)) with (rmin it + minLength r).
  rewrite length_app. apply IH in Ht. lia.
Qed.

Lemma scanChunks_reports name r chunks :
  forall this i n,
    In (name, r) (patterns this) ->
    chunks <> [] ->
    let text := overlapBuffer this ++ JsString.join "" chunks in
    n <= OVERLAP_BUFFER_SIZE ->
    i + n <= String.length text ->
    Matches r (take n (drop i text)) ->
    In name (List.map pattern (fst (scanChunks this chunks))).
Proof.
  induction chunks as [|c rest IH]; intros this i n Hp Hne; [congruence|].
  cbv zeta. intros Hn Hin Hm.
  cbn [scanChunks]. destruct (scan this c) as [res this1] eqn:Es.
  destruct (scanChunks this1 rest) as [ms this2] eqn:Er. cbn [fst].
  rewrite map_app, in_app_iff.
  pose proof (scan_reports_all this c) as Hall. rewrite Es in Hall.
  cbn [fst] in Hall.
  pose proof (scan_state this c) as Hs. rewrite Es in Hs. cbn [snd] in Hs.
  destruct Hs as (Hb1 & _ & Hp1).
  rewrite join_empty_cons, <- app_assoc_s in Hin, Hm.
  set (combined := overlapBuffer this ++ c) in *.
  destruct (Nat.le_gt_cases (i + n) (String.length combined)) as [Hle|Hgt].
  - left. rewrite Hall. apply (findMatches_detects _ _ _ name r i n); auto.
    rewrite drop_app_le in Hm by lia.
    rewrite take_app_le in Hm by (rewrite length_drop; lia). exact Hm.
  - right.
    assert (Hrest : rest <> []).
    { intros ->. cbn [JsString.join] in Hin. rewrite app_nil_r_s in Hin. lia. }
    set (d := String.length combined - OVERLAP_BUFFER_SIZE) in *.
    assert (Hd : d <= i) by (unfold d; lia).
    pose proof (IH this1 (i - d) n) as Hi. rewrite Er in Hi. cbn [fst] in Hi.
    apply Hi; auto.
    + congruence.
    + rewrite Hb1. rewrite length_app, length_drop.
      rewrite length_app in Hin. lia.
    + rewrite Hb1. rewrite <- drop_app_le by (unfold d; lia).
      rewrite drop_drop. now replace (d + (i - d)) with i by lia.
Qed.

End StreamFacts.
Section StreamTheorems.
Import JsString Regex Scanner.

Lemma take_min n s : take (Nat.min n (String.length s)) s = take n s.
Proof.
  revert s. induction n as [|n IH]; intros [|a s]; cbn [take String.length Nat.min];
    try reflexivity.
  f_equal. apply IH.
Qed.

Lemma slice_head s i : slice s 0 (Some (Z.of_nat i)) = take i s.
Proof.
  unfold slice.
  assert (clampIndex (String.length s) 0 = 0) as -> by reflexivity.
  assert (clampIndex (String.length s) (Z.of_nat i)
          = Nat.min i (String.length s)) as ->.
  { unfold clampIndex. destruct (Z.ltb_spec (Z.of_nat i) 0); lia. }
  rewrite Nat.sub_0_r. apply take_min.
Qed.

Lemma findMatches_occurrences this text lineOffset m :
  In m (findMatches this text lineOffset) ->
  reportsOccurrence this text lineOffset m.
Proof.
  intros H. apply findMatches_In in H as (name & r & i & Hp & Hi & ->).
  apply execLoop_sound in Hi as (n & Hb & Hm).
  apply matchHere_sound in Hm as [_ Hm].
  exists r, i, n. unfold matchAt. cbn [pattern line column].
  rewrite slice_head. repeat split; auto; lia.
Qed.

(** X1. After any sequence of chunks, the scanner holds the last 8192
    characters of all the text it was given (all of it when it is
    shorter), has counted the newlines of all of it, and still has the
    patterns it was made with. *)
Theorem X1_scanner_keeps_last_8k
    (additionalPatterns : list (string * regex)) (chunks : list string) :
  let text := JsString.join "" chunks in
  let this := snd (scanChunks (new additionalPatterns) chunks) in
  OVERLAP_BUFFER_SIZE = 8 * 1024 /\
  overlapBuffer this
  = drop (String.length text - OVERLAP_BUFFER_SIZE) text /\
  String.length (overlapBuffer this)
  = Nat.min (String.length text) OVERLAP_BUFFER_SIZE /\
  totalLines this = countNewlines text /\
  patterns this = (CORE_PATTERNS ++ additionalPatterns)%list.
Proof.
  cbv zeta. split; [reflexivity|].
  pose proof (scanChunks_state chunks (new additionalPatterns) "" eq_refl) as H.
  cbv zeta in H. rewrite app_nil_l in H. destruct H as (Hb & Hl & Hp).
  rewrite Hb, length_drop. repeat split; auto. lia.
Qed.



(** X3. What [scan] and [finalize] report is an occurrence: the pattern
    of each reported match is one of the scanner's patterns and matches
    in the scanned text (the buffer and the chunk for [scan], the buffer
    for [finalize]) at the index whose line and column the match gives,
    both counted from 1, the line on top of the lines counted so far. *)
Theorem X3_reports_are_occurrences (this : StreamScanner) (chunk : string)
    (m : ScanMatch) :
  (In m (matches (fst (scan this chunk))) ->
   reportsOccurrence this (overlapBuffer this ++ chunk) (totalLines this) m) /\
  (In m (matches (fst (finalize this))) ->
   reportsOccurrence this (overlapBuffer this) (totalLines this) m).
Proof.
  split; intros H.
  - rewrite scan_reports_all in H. now apply findMatches_occurrences.
  - unfold finalize in H.
    destruct (String.length (overlapBuffer this) =? 0)%nat; [destruct H|].
    now apply findMatches_occurrences.
Qed.

End StreamTheorems.
Section ContainsSecrets.
Import JsString Regex Scanner.

Lemma hasSecrets_resultOf_iff ms :
  hasSecrets (resultOf ms) = true <-> ms <> [].
Proof.
  unfold resultOf. cbn [hasSecrets]. destruct ms; cbn; split;
    congruence || auto.
Qed.

(** X4. [containsSecrets] is exact: it answers true if and only if some
    pattern of the catalog matches somewhere in the text. *)
Theorem X4_containsSecrets_exact (text : string) :
  containsSecrets text = true <->
  exists name r i n,
    In (name, r) CORE_PATTERNS /\
    i + n <= String.length text /\
    Matches r (take n (drop i text)).
Proof.
  unfold containsSecrets, scanString.
  destruct (scan (new []) text) as [result scanner] eqn:Es.
  pose proof (scan_reports_all (new []) text) as Hall.
  pose proof (scan_state (new []) text) as Hst.
  rewrite Es in Hall, Hst. cbn [fst snd new overlapBuffer totalLines patterns] in Hall, Hst.
  rewrite app_nil_l in Hall, Hst. destruct Hst as (Hb & _ & Hp).
  destruct (finalize scanner) as [finalResult scanner'] eqn:Ef.
  cbn [hasSecrets].
  assert (Hres : hasSecrets result = true <-> matches result <> []).
  { pose proof (scan_hasSecrets (new []) text) as H1. rewrite Es in H1.
    cbn [fst] in H1. split; [exact H1|].
    unfold scan in Es. injection Es as <- _. apply hasSecrets_resultOf_iff. }
  split.
  - intros H. apply orb_true_iff in H as [H|H].
    + apply Hres in H. destruct (matches result) as [|m ms] eqn:Em; [congruence|].
      assert (Hin : In m (findMatches (new []) text 0))
        by (rewrite <- Hall; now left).
      apply findMatches_occurrences in Hin as (r & i & n & Hr & Hlen & Hm & _).
      cbn [new patterns] in Hr. rewrite app_nil_r in Hr.
      exists (pattern m), r, i, n. auto.
    + pose proof (finalize_hasSecrets scanner) as Hf. rewrite Ef in Hf.
      cbn [fst] in Hf. specialize (Hf H).
      destruct (matches finalResult) as [|m ms] eqn:Em; [congruence|].
      assert (Ho : reportsOccurrence scanner (overlapBuffer scanner)
                     (totalLines scanner) m).
      { unfold finalize in Ef.
        destruct (String.length (overlapBuffer scanner) =? 0)%nat.
        - injection Ef as <- _. discriminate Em.
        - injection Ef as <- _. cbn [matches resultOf] in Em.
          apply findMatches_occurrences. rewrite Em. now left. }
      destruct Ho as (r & i & n & Hr & Hlen & Hm & _).
      rewrite Hp in Hr. cbn [new patterns] in Hr. rewrite app_nil_r in Hr.
      rewrite Hb in Hlen, Hm. rewrite length_drop in Hlen.
      rewrite drop_drop in Hm.
      exists (pattern m), r,
        (String.length text - OVERLAP_BUFFER_SIZE + i), n.
      repeat split; auto. lia.
  - intros (name & r & i & n & Hr & Hlen & Hm).
    apply orb_true_iff. left. apply Hres. rewrite Hall.
    assert (Hin : In name (List.map pattern (findMatches (new []) text 0))).
    { apply (findMatches_detects _ _ _ name r i n); [|assumption..].
      cbn [new patterns]. now rewrite app_nil_r. }
    destruct (findMatches (new []) text 0); [destruct Hin|discriminate].
Qed.

End ContainsSecrets.

(** ** Resolved paths and their segments *)

Section ResolvedPaths.
Import JsString.

Lemma pathOf_cons S : pathOf S = String "/" (JsString.join "/" S).
Proof. reflexivity. Qed.

Lemma plain_clean S : Forall plainSeg S -> Forall cleanSeg S.
Proof. apply List.Forall_impl. now intros s [H _]. Qed.

Lemma filter_skip_empty L :
  List.filter (fun s => negb (String.eqb s "")) ("" :: L)
  = List.filter (fun s => negb (String.eqb s "")) L.
Proof. reflexivity. Qed.

Lemma segments_pathOf S : Forall cleanSeg S -> segments (pathOf S) = S.
Proof.
  intros HS. unfold segments, pathOf.
  destruct S as [|x S]; [reflexivity|].
  rewrite <- (app_nil_l ("/" ++ _)).
  rewrite split_app_sep by constructor.
  rewrite split_join by (discriminate || assumption).
  rewrite filter_skip_empty. now apply filter_clean.
Qed.

Lemma pathOf_inj S R :
  Forall cleanSeg S -> Forall cleanSeg R -> pathOf S = pathOf R -> S = R.
Proof.
  intros HS HR E. rewrite <- (segments_pathOf S HS), <- (segments_pathOf R HR).
  now rewrite E.
Qed.

Lemma normalizeStep_plain stack seg :
  Forall plainSeg stack -> Forall notSep (chars seg) ->
  Forall plainSeg (Path.normalizeStep false stack seg).
Proof.
  intros Hs Hseg. unfold Path.normalizeStep.
  destruct (String.eqb_spec seg ""); cbn [orb]; [exact Hs|].
  destruct (String.eqb_spec seg "."); [exact Hs|].
  destruct (String.eqb_spec seg "..").
  - destruct stack as [|top rest]; [constructor|].
    destruct (String.eqb top ".."); [exact Hs|].
    now apply Forall_cons in Hs as [_ Hs].
  - constructor; [|exact Hs]. repeat split; assumption.
Qed.

Lemma resolve_plain cwd p :
  exists S, Forall plainSeg S /\ Path.resolve cwd p = pathOf S.
Proof.
  unfold Path.resolve, Path.normalizeString, pathOf. eexists.
  split; [|reflexivity].
  unfold Path.normalizeSegs. apply List.Forall_rev.
  assert (G : forall segs stack,
    Forall plainSeg stack ->
    (forall seg, In seg segs -> Forall notSep (chars seg)) ->
    Forall plainSeg (fold_left (Path.normalizeStep false) segs stack)).
  { induction segs as [|seg segs IH]; intros stack Hs Hsegs; [exact Hs|].
    cbn [fold_left]. apply IH.
    - apply normalizeStep_plain; [exact Hs | apply Hsegs; now left].
    - intros s Hin. apply Hsegs. now right. }
  apply G; [constructor|]. intros seg. apply split_parts.
Qed.

Lemma resolve_segments cwd p :
  Forall plainSeg (segments (Path.resolve cwd p)) /\
  Path.resolve cwd p = pathOf (segments (Path.resolve cwd p)).
Proof.
  destruct (resolve_plain cwd p) as (S & HS & E). rewrite E.
  rewrite segments_pathOf by now apply plain_clean. auto.
Qed.

Lemma normalizeSegs_plain L :
  Forall (fun s => s = "" \/ plainSeg s) L ->
  Path.normalizeSegs false L
  = List.filter (fun s => negb (String.eqb s "")) L.
Proof.
  intros HL. unfold Path.normalizeSegs.
  assert (G : forall stack,
    fold_left (Path.normalizeStep false) L stack
    = (rev (List.filter (fun s => negb (String.eqb s "")) L) ++ stack)%list).
  { induction HL as [|s L Hs _ IH]; intros stack; [reflexivity|].
    cbn [fold_left List.filter]. rewrite IH.
    destruct Hs as [->|[[Hne _] [Hd Hdd]]].
    - reflexivity.
    - unfold Path.normalizeStep.
      destruct (String.eqb_spec s ""); [congruence|].
      destruct (String.eqb_spec s "."); [congruence|].
      destruct (String.eqb_spec s ".."); [congruence|].
      cbn [orb negb rev]. now rewrite <- List.app_assoc. }
  rewrite G, List.app_nil_r. apply rev_involutive.
Qed.

Lemma split_pathOf S :
  Forall cleanSeg S ->
  Path.split "/" (pathOf S) = "" :: (match S with [] => [""] | _ => S end).
Proof.
  intros HS. unfold pathOf. rewrite <- (app_nil_l ("/" ++ _)).
  rewrite split_app_sep by constructor. f_equal.
  destruct S as [|x S]; [reflexivity|]. now apply split_join.
Qed.

Lemma filter_plain S :
  Forall plainSeg S ->
  List.filter (fun s => negb (String.eqb s "")) S = S.
Proof. intros H. apply filter_clean. now apply plain_clean. Qed.

Lemma normalizeString_pathOf S :
  Forall plainSeg S ->
  Path.normalizeString (pathOf S) false = JsString.join "/" S.
Proof.
  intros HS. unfold Path.normalizeString.
  rewrite split_pathOf by now apply plain_clean.
  rewrite normalizeSegs_plain.
  - rewrite filter_skip_empty.
    destruct S as [|x S]; [reflexivity|]. now rewrite filter_plain.
  - constructor; [now left|].
    destruct S as [|x S]; [repeat constructor; now left|].
    eapply List.Forall_impl; [|exact HS]. intros s Hs. now right.
Qed.

Lemma resolve_pathOf cwd S :
  Forall plainSeg S -> Path.resolve cwd (pathOf S) = pathOf S.
Proof.
  intros HS. unfold Path.resolve.
  assert (String.eqb (pathOf S) "" = false) as -> by reflexivity.
  assert (Path.isAbsolute (pathOf S) = true) as -> by reflexivity.
  now rewrite normalizeString_pathOf.
Qed.

Lemma resolve_idem cwd p :
  Path.resolve cwd (Path.resolve cwd p) = Path.resolve cwd p.
Proof.
  destruct (resolve_plain cwd p) as (S & HS & ->). now apply resolve_pathOf.
Qed.

Lemma join_app S D :
  S <> [] -> D <> [] ->
  JsString.join "/" (S ++ D)
  = JsString.join "/" S ++ "/" ++ JsString.join "/" D.
Proof.
  intros HS HD. induction S as [|x S IH]; [congruence|].
  destruct S as [|y S].
  - destruct D as [|d D]; [congruence|]. reflexivity.
  - change (JsString.join "/" ((x :: y :: S) ++ D))
      with (x ++ "/" ++ JsString.join "/" ((y :: S) ++ D)).
    rewrite IH by discriminate.
    change (JsString.join "/" (x :: y :: S))
      with (x ++ "/" ++ JsString.join "/" (y :: S)).
    now rewrite !app_assoc_s.
Qed.

Lemma split_join_app R rest :
  R <> [] -> Forall cleanSeg R ->
  Path.split "/" (JsString.join "/" R ++ "/" ++ rest)
  = (R ++ Path.split "/" rest)%list.
Proof.
  intros HR Hall. induction R as [|x R IH]; [congruence|].
  apply Forall_cons in Hall as [[_ Hx] Hall].
  destruct R as [|y R].
  - cbn [JsString.join List.app]. now apply split_app_sep.
  - change (JsString.join "/" (x :: y :: R))
      with (x ++ "/" ++ JsString.join "/" (y :: R)).
    rewrite !app_assoc_s. rewrite split_app_sep by exact Hx.
    cbn [List.app]. f_equal. apply IH; [discriminate|assumption].
Qed.

End ResolvedPaths.

Section ContainedPaths.
Import JsString.

Lemma join_head S a rest :
  Forall cleanSeg S -> JsString.join "/" S = String a rest -> a <> "/"%char.
Proof.
  intros HS E. destruct S as [|x S]; [discriminate|].
  apply Forall_cons in HS as [[Hne Hx] _].
  destruct x as [|b x]; [congruence|].
  apply Forall_cons in Hx as [Hb _].
  destruct S as [|y S]; cbn [JsString.join] in E; [|rewrite app_cons in E];
    injection E as <- _; exact Hb.
Qed.

Lemma join_nonempty S :
  S <> [] -> Forall cleanSeg S -> JsString.join "/" S <> "".
Proof.
  intros Hne HS E. destruct S as [|x S]; [congruence|].
  apply Forall_cons in HS as [[Hx _] _].
  destruct x as [|b x]; [congruence|].
  destruct S; cbn [JsString.join] in E; [|rewrite app_cons in E]; discriminate.
Qed.

Lemma app_inv_head_s (a b c : string) : a ++ b = a ++ c -> b = c.
Proof.
  induction a as [|x a IH]; [now rewrite !app_nil_l|].
  rewrite !app_cons. intros E. injection E as E. auto.
Qed.

Lemma stripCommon_prefix R D :
  Path.stripCommon R (R ++ D) = ([], D).
Proof.
  induction R as [|x R IH]; [now destruct D|].
  cbn [List.app Path.stripCommon]. now rewrite String.eqb_refl.
Qed.

Lemma isContained_segments h p root :
  FsSafe.isContained h p root = true <->
  match segments (Path.resolve (cwd h) root) with
  | [] => segments (Path.resolve (cwd h) p) = []
  | R => exists D, segments (Path.resolve (cwd h) p) = (R ++ D)%list
  end.
Proof.
  unfold FsSafe.isContained.
  destruct (resolve_segments (cwd h) p) as [HS ES].
  destruct (resolve_segments (cwd h) root) as [HR ER].
  set (S := segments (Path.resolve (cwd h) p)) in *.
  set (R := segments (Path.resolve (cwd h) root)) in *.
  rewrite ES, ER. clearbody S R. clear ES ER.
  pose proof (plain_clean _ HS) as HSc. pose proof (plain_clean _ HR) as HRc.
  rewrite orb_true_iff, startsWith_spec, String.eqb_eq. split.
  - intros [[rest E]|E].
    + unfold pathOf, Path.sep in E. rewrite !app_assoc_s in E.
      apply app_inv_head_s in E.
      destruct R as [|r R].
      * cbn [JsString.join] in E. rewrite app_nil_l, app_cons in E.
        now apply join_head in E.
      * assert (HSne : S <> []).
        { intros ->. cbn [JsString.join] in E.
          destruct r as [|b r].
          - now apply Forall_cons in HRc as [[? _] _].
          - destruct R; cbn [JsString.join] in E; rewrite ?app_cons in E;
              discriminate. }
        exists (Path.split "/" rest).
        rewrite <- (split_join S HSne HSc), E.
        now apply split_join_app.
    + apply pathOf_inj in E; [|assumption..]. subst S.
      destruct R as [|r R]; [reflexivity|]. exists []. now rewrite List.app_nil_r.
  - destruct R as [|r R].
    + intros ->. now right.
    + intros [D ->]. destruct D as [|d D].
      * right. now rewrite List.app_nil_r.
      * left. exists (JsString.join "/" (d :: D)). unfold pathOf, Path.sep.
        rewrite join_app by discriminate. now rewrite !app_assoc_s.
Qed.

Lemma relative_components cwd R D :
  Forall plainSeg R -> Forall plainSeg D ->
  List.filter (fun c => negb (String.eqb c ""))
    (Path.split "/" (Path.relative cwd (pathOf R) (pathOf (R ++ D))))
  = D.
Proof.
  intros HR HD.
  assert (HRD : Forall plainSeg (R ++ D)) by now apply List.Forall_app.
  unfold Path.relative. rewrite !resolve_pathOf by assumption.
  destruct (String.eqb_spec (pathOf R) (pathOf (R ++ D))) as [E|E].
  - apply pathOf_inj in E; [|now apply plain_clean..].
    assert (D = []) as ->.
    { apply (f_equal (@List.length _)) in E. rewrite List.length_app in E.
      destruct D; [reflexivity|cbn in E; lia]. }
    reflexivity.
  - assert (HDne : D <> []) by (intros ->; now rewrite List.app_nil_r in E).
    fold (segments (pathOf R)). fold (segments (pathOf (R ++ D))).
    rewrite !segments_pathOf by now apply plain_clean.
    rewrite stripCommon_prefix. cbn [List.map List.app].
    rewrite split_join by (assumption || now apply plain_clean).
    now apply filter_plain.
Qed.

Lemma last_char_of (x y : string) a :
  x <> "" -> Forall notSep (chars x) -> y ++ x <> a ++ "/".
Proof.
  intros Hne Hx E. apply (f_equal chars) in E. rewrite !chars_app in E.
  apply (f_equal (@rev _)) in E. rewrite !rev_app_distr in E.
  cbn [chars list_ascii_of_string rev List.app] in E.
  destruct (chars_nonempty x Hne) as (b & l & Ex).
  assert (Hin : In "/"%char (chars x)).
  { apply in_rev. destruct (rev (chars x)) as [|c l'] eqn:Er.
    - apply (f_equal (@List.length _)) in Er. rewrite length_rev, Ex in Er.
      discriminate.
    - cbn [List.app] in E. injection E as -> _. now left. }
  rewrite List.Forall_forall in Hx. now apply Hx in Hin.
Qed.

Lemma join_child S d :
  Forall plainSeg S -> plainSeg d ->
  Path.join [pathOf S; d] = pathOf (S ++ [d]).
Proof.
  intros HS Hd. pose proof Hd as [[Hdne Hdc] _].
  unfold Path.join.
  assert (List.filter (fun s => negb (String.eqb s "")) [pathOf S; d]
          = [pathOf S; d]) as ->.
  { cbn [List.filter]. rewrite pathOf_cons. cbn [String.eqb negb].
    destruct (String.eqb_spec d ""); [congruence|reflexivity]. }
  cbn [JsString.join]. unfold Path.normalize.
  assert (String.eqb (pathOf S ++ "/" ++ d) "" = false) as -> by reflexivity.
  assert (Path.isAbsolute (pathOf S ++ "/" ++ d) = true) as -> by reflexivity.
  assert (endsWith (pathOf S ++ "/" ++ d) "/" = false) as ->.
  { apply not_true_iff_false. rewrite endsWith_spec. intros [a E].
    rewrite <- app_assoc_s in E. now apply last_char_of in E. }
  cbn [negb].
  assert (HSd : Forall plainSeg (S ++ [d]))
    by (apply List.Forall_app; split; [assumption|now constructor]).
  assert (E : Path.normalizeString (pathOf S ++ "/" ++ d) false
              = JsString.join "/" (S ++ [d])).
  { destruct S as [|x S].
    - unfold Path.normalizeString.
      change (pathOf [] ++ "/" ++ d) with ("" ++ "/" ++ ("" ++ "/" ++ d)).
      do 2 rewrite split_app_sep by apply List.Forall_nil.
      rewrite (split_clean d Hdc).
      rewrite normalizeSegs_plain
        by (constructor; [now left|];
            constructor; [now left|];
            constructor; [now right|constructor]).
      rewrite !filter_skip_empty. cbn [List.app]. now rewrite filter_plain.
    - unfold pathOf at 1. rewrite app_assoc_s, <- join_snoc by discriminate.
      now apply normalizeString_pathOf. }
  rewrite E.
  destruct (String.eqb_spec (JsString.join "/" (S ++ [d])) "") as [E0|_];
    [|reflexivity].
  apply join_nonempty in E0; [destruct E0|now destruct S|now apply plain_clean].
Qed.

Lemma walkChain_below fs D :
  forall R,
    Forall plainSeg R -> Forall plainSeg D ->
    FsSafe.walkChain (pathOf R) D fs =
    match firstSymlink fs (below R D) with
    | Some q =>
        (Throw (SymlinkError ("Symlink detected in parent chain: " ++ q)), fs)
    | None => (Ok tt, fs)
    end.
Proof.
  induction D as [|d D IH]; intros R HR HD; [reflexivity|].
  apply Forall_cons in HD as [Hd HD].
  cbn [FsSafe.walkChain below firstSymlink]. rewrite join_child by assumption.
  unfold bind at 1, tryCatch, bind at 1, Fs.plstat.
  destruct (Fs.lstat fs (pathOf (R ++ [d]))) as [[c| |t]|] eqn:E;
    cbn [FsSafe.isSymbolicLink FsSafe.isENOENT negb]; try reflexivity.
  - unfold ret at 1. apply IH; [|assumption].
    apply List.Forall_app; split; [assumption|now constructor].
  - unfold ret at 1. apply IH; [|assumption].
    apply List.Forall_app; split; [assumption|now constructor].
Qed.

End ContainedPaths.

Section ChainFacts.
Import JsString.

Lemma join_children S ds :
  Forall plainSeg S -> Forall plainSeg ds -> ds <> [] ->
  Path.join (pathOf S :: ds) = pathOf (S ++ ds).
Proof.
  intros HS Hds Hne. unfold Path.join.
  assert (List.filter (fun s => negb (String.eqb s "")) (pathOf S :: ds)
          = pathOf S :: ds) as ->.
  { cbn [List.filter]. rewrite pathOf_cons. cbn [String.eqb negb].
    now rewrite filter_plain. }
  assert (JsString.join "/" (pathOf S :: ds)
          = pathOf S ++ "/" ++ JsString.join "/" ds) as ->
    by (destruct ds; [congruence|reflexivity]).
  set (X := pathOf S ++ "/" ++ JsString.join "/" ds).
  unfold Path.normalize.
  assert (String.eqb X "" = false) as -> by reflexivity.
  assert (Path.isAbsolute X = true) as -> by reflexivity.
  assert (HSd : Forall plainSeg (S ++ ds)) by now apply List.Forall_app.
  assert (endsWith X "/" = false) as ->.
  { apply not_true_iff_false. rewrite endsWith_spec. intros [a E].
    destruct (exists_last Hne) as (ds' & d & ->).
    apply List.Forall_app in Hds as [_ Hd]. apply Forall_cons in Hd as [Hd _].
    destruct Hd as [[Hdne Hdc] _]. unfold X in E.
    destruct ds' as [|x ds'].
    - cbn [List.app JsString.join] in E. rewrite <- app_assoc_s in E.
      now apply last_char_of in E.
    - rewrite join_snoc in E by discriminate.
      rewrite <- !app_assoc_s in E. now apply last_char_of in E. }
  cbn [negb].
  assert (E : Path.normalizeString X false = JsString.join "/" (S ++ ds)).
  { destruct S as [|x S].
    - unfold Path.normalizeString, X.
      change (pathOf [] ++ "/" ++ JsString.join "/" ds)
        with ("" ++ "/" ++ ("" ++ "/" ++ JsString.join "/" ds)).
      do 2 rewrite split_app_sep by apply List.Forall_nil.
      rewrite split_join by (assumption || now apply plain_clean).
      rewrite normalizeSegs_plain.
      + rewrite !filter_skip_empty. cbn [List.app]. now rewrite filter_plain.
      + constructor; [now left|]. constructor; [now left|].
        eapply List.Forall_impl; [|exact Hds]. intros s Hs. now right.
    - unfold X, pathOf at 1. rewrite app_assoc_s, <- join_app
        by (discriminate || assumption).
      now apply normalizeString_pathOf. }
  rewrite E.
  destruct (String.eqb_spec (JsString.join "/" (S ++ ds)) "") as [E0|_];
    [|reflexivity].
  apply join_nonempty in E0; [destruct E0| |now apply plain_clean].
  destruct S; [assumption|cbn; discriminate].
Qed.

Lemma chainStep_below D :
  forall R acc,
    snd (fold_left chainStep D
           (match R with [] => "" | _ => pathOf R end, acc))
    = (acc ++ below R D)%list.
Proof.
  induction D as [|d D IH]; intros R acc.
  - cbn. now rewrite List.app_nil_r.
  - cbn [fold_left below]. unfold chainStep at 2. cbn [fst snd].
    assert (E : (match R with [] => "" | _ => pathOf R end) ++ "/" ++ d
                = pathOf (R ++ [d])).
    { destruct R as [|r R]; [reflexivity|].
      unfold pathOf. rewrite join_snoc by discriminate.
      now rewrite !app_assoc_s. }
    rewrite E.
    replace (pathOf (R ++ [d]))
      with (match (R ++ [d])%list with [] => "" | _ => pathOf (R ++ [d]) end)
      at 1 by now destruct R.
    rewrite IH. now rewrite <- List.app_assoc.
Qed.

Lemma chain_pathOf S :
  Forall cleanSeg S -> Fs.chain (pathOf S) = below [] S.
Proof.
  intros HS. rewrite chain_unfold. fold (segments (pathOf S)).
  rewrite segments_pathOf by assumption.
  apply (chainStep_below S [] []).
Qed.

Lemma below_app R D E :
  below R (D ++ E) = (below R D ++ below (R ++ D) E)%list.
Proof.
  revert R. induction D as [|d D IH]; intros R.
  - now rewrite List.app_nil_r.
  - cbn [List.app below]. rewrite IH, <- List.app_assoc. reflexivity.
Qed.

Lemma below_in_chain R D q :
  Forall cleanSeg (R ++ D) ->
  In q (below R D) -> In q (Fs.chain (pathOf (R ++ D))).
Proof.
  intros H Hin. rewrite chain_pathOf by assumption.
  rewrite below_app. cbn [List.app]. apply in_app_iff. now right.
Qed.

Lemma firstSymlink_none fs paths :
  Forall (fun q => exists v, Fs.lstat fs q = Some v /\
                             FsSafe.isSymbolicLink v = false) paths ->
  firstSymlink fs paths = None.
Proof.
  induction 1 as [|q paths (v & Hq & Hv) _ IH]; [reflexivity|].
  cbn [firstSymlink]. rewrite Hq. destruct v; [exact IH..|discriminate].
Qed.

Lemma mkdirChain_noop ps (fs : gmap string node) :
  Forall (fun q => Fs.lstat fs q = Some Dir) ps ->
  Fs.mkdirChain ps fs = (Ok tt, fs).
Proof.
  induction 1 as [|q ps Hq _ IH]; [reflexivity|].
  cbn [Fs.mkdirChain]. now rewrite Hq.
Qed.

End ChainFacts.

(** ** The safe layer *)

Section FsSafeTheorems.
Import JsString.
Variable h : Host.

Lemma isContained_resolved p root :
  FsSafe.isContained h (Path.resolve (cwd h) p) root
  = FsSafe.isContained h p root.
Proof. unfold FsSafe.isContained. now rewrite resolve_idem. Qed.

Lemma isContained_resolved2 p root :
  FsSafe.isContained h (Path.resolve (cwd h) p) (Path.resolve (cwd h) root)
  = FsSafe.isContained h p root.
Proof. unfold FsSafe.isContained. now rewrite !resolve_idem. Qed.

Lemma isContained_inside p root :
  FsSafe.isContained h p root = true <->
  insideRoot (Path.resolve (cwd h) root) (Path.resolve (cwd h) p).
Proof.
  unfold FsSafe.isContained, insideRoot, Path.sep.
  rewrite orb_true_iff, startsWith_spec, String.eqb_eq. split.
  - intros [[rest E]|E]; [right; exists rest; now rewrite E, app_assoc_s|now left].
  - intros [E|[rest E]]; [now right|left; exists rest; now rewrite E, app_assoc_s].
Qed.

(** X5. [isContained] compares whole segments: a path is inside a root
    exactly when the segments of the resolved root open the segments of
    the resolved path, so that a sibling whose name only begins like the
    root is outside.  A root that resolves to the separator alone
    contains nothing but itself. *)
Theorem X5_isContained_by_segments (p root : string) :
  let S := segments (Path.resolve (cwd h) p) in
  let R := segments (Path.resolve (cwd h) root) in
  Path.resolve (cwd h) p = pathOf S /\ Forall plainSeg S /\
  Path.resolve (cwd h) root = pathOf R /\ Forall plainSeg R /\
  (FsSafe.isContained h p root = true <->
   match R with
   | [] => S = []
   | _ => exists D, S = (R ++ D)%list
   end).
Proof.
  cbv zeta.
  destruct (resolve_segments (cwd h) p) as [HS ES].
  destruct (resolve_segments (cwd h) root) as [HR ER].
  split; [exact ES|]. split; [exact HS|].
  split; [exact ER|]. split; [exact HR|].
  rewrite isContained_segments.
  now destruct (segments (Path.resolve (cwd h) root)).
Qed.

End FsSafeTheorems.

Section FsSafeBehaviour.
Import JsString.
Variable h : Host.

Lemma contained_suffix p root :
  FsSafe.isContained h p root = true ->
  segments (Path.resolve (cwd h) p)
  = (segments (Path.resolve (cwd h) root)
       ++ List.skipn (List.length (segments (Path.resolve (cwd h) root)))
                     (segments (Path.resolve (cwd h) p)))%list.
Proof.
  intros H. apply isContained_segments in H.
  destruct (segments (Path.resolve (cwd h) root)) as [|r R] eqn:ER.
  - now rewrite H.
  - destruct H as [D ->]. f_equal.
    now rewrite List.skipn_app, List.skipn_all, Nat.sub_diag.
Qed.

Lemma validateParentChain_below filePath root fs :
  FsSafe.validateParentChain h filePath root fs =
  if FsSafe.isContained h filePath root then
    let R := segments (Path.resolve (cwd h) root) in
    let S := segments (Path.resolve (cwd h) filePath) in
    match firstSymlink fs (below R (List.skipn (List.length R) S)) with
    | Some q =>
        (Throw (SymlinkError ("Symlink detected in parent chain: " ++ q)), fs)
    | None => (Ok tt, fs)
    end
  else (Throw (FsSafe.escapes filePath root), fs).
Proof.
  unfold FsSafe.validateParentChain. rewrite isContained_resolved2.
  destruct (FsSafe.isContained h filePath root) eqn:Hc; [|reflexivity].
  cbn [negb]. cbv zeta.
  pose proof (contained_suffix _ _ Hc) as ES.
  destruct (resolve_segments (cwd h) filePath) as [HS EP].
  destruct (resolve_segments (cwd h) root) as [HR ER].
  set (R := segments (Path.resolve (cwd h) root)) in *.
  set (S := segments (Path.resolve (cwd h) filePath)) in *.
  set (D := List.skipn (List.length R) S) in *.
  assert (HD : Forall plainSeg D).
  { rewrite ES in HS. now apply List.Forall_app in HS as [_ HD]. }
  rewrite EP, ER, ES. rewrite relative_components by assumption.
  now apply walkChain_below.
Qed.



(** X8. Every operation of the safe layer refuses a path outside the
    root before it touches anything: it throws the [PathEscapeError] that
    names the path and the root as they were given, and the file system
    is as it was. *)
Theorem X8_escape_is_refused (p content root : string) (fs : gmap string node) :
  FsSafe.isContained h p root = false ->
  let refused {A} : outcome A * gmap string node :=
    (Throw (PathEscapeError ("Path " ++ p ++ " escapes root " ++ root)), fs) in
  FsSafe.read h p root fs = refused /\
  FsSafe.writeAtomic h p content root fs = refused /\
  FsSafe.unlink h p root fs = refused /\
  FsSafe.mkdir h p root fs = refused /\
  FsSafe.rmdir h p root fs = refused /\
  FsSafe.exists_ h p root fs = refused /\
  FsSafe.readdir h p root fs = refused /\
  FsSafe.validateParentChain h p root fs = refused.
Proof.
  intros Hc. cbv zeta.
  unfold FsSafe.read, FsSafe.writeAtomic, FsSafe.unlink, FsSafe.mkdir,
    FsSafe.rmdir, FsSafe.exists_, FsSafe.readdir, FsSafe.validateParentChain.
  rewrite isContained_resolved, isContained_resolved2, Hc. cbn [negb].
  repeat split.
Qed.

End FsSafeBehaviour.

Section FsSafeRoundTrips.
Import JsString.
Variable h : Host.

Lemma exists_spec p root fs :
  FsSafe.exists_ h p root fs =
  (if FsSafe.isContained h p root then
     Ok (match Fs.lstat fs (Path.resolve (cwd h) p) with
         | Some (Symlink target) =>
             match Fs.lstat fs target with
             | Some (File _) | Some Dir => true
             | _ => false
             end
         | Some _ => true
         | None => false
         end)
   else Throw (FsSafe.escapes p root), fs).
Proof.
  unfold FsSafe.exists_. rewrite isContained_resolved.
  destruct (FsSafe.isContained h p root); [|reflexivity]. cbn [negb].
  unfold tryCatch, bind, Fs.access, ret.
  destruct (Fs.lstat fs (Path.resolve (cwd h) p)) as [[c| |t]|]; try reflexivity.
  destruct (Fs.lstat fs t) as [[c| |t']|]; reflexivity.
Qed.

Lemma handler_throws {A} (m : io A) (cleanup : error -> io unit) fs a fs' :
  tryCatch m (fun err => cleanup err ;;; throw err) fs = (Ok a, fs') ->
  m fs = (Ok a, fs').
Proof.
  unfold tryCatch. destruct (m fs) as [[x|e] fs1]; [auto|].
  unfold bind, throw. destruct (cleanup e fs1) as [[u|e'] fs2]; discriminate.
Qed.

Lemma writeAtomicCommit_ok resolvedPath content (fs1 fs2 : gmap string node) :
  writeAtomicCommit h resolvedPath content fs1 = (Ok tt, fs2) ->
  fs2 = <[resolvedPath := File content]>
          (delete (FsSafe.tmpNameOf h resolvedPath)
             (<[FsSafe.tmpNameOf h resolvedPath := File content]> fs1)) /\
  String.eqb resolvedPath "/" = false.
Proof.
  unfold writeAtomicCommit. intros H. apply handler_throws in H.
  unfold bind in H.
  destruct (Fs.writeFile h (FsSafe.tmpNameOf h resolvedPath) content fs1)
    as [[[]|e] fs1'] eqn:Ew; [|discriminate].
  apply writeFile_ok in Ew. subst fs1'.
  apply (rename_file_ok h _ _ content) in H; [exact H|].
  apply lstat_insert_eq, tmpName_not_root.
Qed.

Lemma writeAtomic_ok p content root (fs fs' : gmap string node) :
  FsSafe.writeAtomic h p content root fs = (Ok tt, fs') ->
  FsSafe.isContained h p root = true /\
  Fs.lstat fs' (Path.resolve (cwd h) p) = Some (File content).
Proof.
  intros H. split.
  - unfold FsSafe.writeAtomic in H. rewrite isContained_resolved in H.
    destruct (FsSafe.isContained h p root); [reflexivity|discriminate].
  - rewrite writeAtomic_phases in H. unfold bind in H.
    destruct (writeAtomicPrepare h p root fs) as [[r|e] fs1] eqn:Ep;
      [|discriminate].
    pose proof (writeAtomicPrepare_returns _ _ _ _ _ _ Ep) as ->.
    apply writeAtomicCommit_ok in H as [-> Hne].
    now apply lstat_insert_eq.
Qed.

(** X9. What [writeAtomic] has written, [read] returns: after a
    successful [writeAtomic] of a content to a path, [read] of the same
    path under the same root returns that content, and [exists] answers
    true. *)
Theorem X9_read_after_writeAtomic (p content root : string)
    (fs fs' : gmap string node) :
  FsSafe.writeAtomic h p content root fs = (Ok tt, fs') ->
  FsSafe.read h p root fs' = (Ok content, fs') /\
  FsSafe.exists_ h p root fs' = (Ok true, fs').
Proof.
  intros H. apply writeAtomic_ok in H as [Hc Hl]. split.
  - unfold FsSafe.read. rewrite isContained_resolved, Hc. cbn [negb].
    unfold bind, Fs.plstat, Fs.readFileNoFollow. rewrite Hl.
    cbn [FsSafe.isSymbolicLink]. now rewrite Hl.
  - rewrite exists_spec, Hc, Hl. reflexivity.
Qed.

Lemma lstat_rmRecursive p (fs : gmap string node) q :
  Fs.lstat (snd (Fs.rmRecursive p fs)) q =
  if String.eqb q "/" then Some Dir
  else if String.eqb q p || startsWith q (p ++ "/") then None
  else fs !! q.
Proof.
  unfold Fs.rmRecursive, Fs.lstat. cbn [snd].
  destruct (String.eqb q "/"); [reflexivity|].
  destruct (String.eqb q p || startsWith q (p ++ "/")) eqn:E.
  - apply map_lookup_filter_None. right. intros x _. cbn [fst].
    rewrite E. discriminate.
  - destruct (fs !! q) as [x|] eqn:Eq.
    + apply map_lookup_filter_Some. split; [exact Eq|]. cbn [fst].
      now rewrite E.
    + apply map_lookup_filter_None. now left.
Qed.

(** X10. After [mkdir] has succeeded [exists] answers true for the path;
    after [unlink] has succeeded it answers false; after [rmdir] has
    succeeded it answers false as well, for any path but the root of the
    file system, and false for everything that was under the path. *)
Theorem X10_exists_after_change (p root : string) (fs fs' : gmap string node) :
  (FsSafe.mkdir h p root fs = (Ok tt, fs') ->
   FsSafe.exists_ h p root fs' = (Ok true, fs') /\
   Fs.lstat fs' (Path.resolve (cwd h) p) = Some Dir) /\
  (FsSafe.unlink h p root fs = (Ok tt, fs') ->
   FsSafe.exists_ h p root fs' = (Ok false, fs')) /\
  (FsSafe.rmdir h p root fs = (Ok tt, fs') ->
   Path.resolve (cwd h) p <> "/" ->
   FsSafe.exists_ h p root fs' = (Ok false, fs') /\
   forall rest,
     Fs.lstat fs' (Path.resolve (cwd h) p ++ "/" ++ rest) = None).
Proof.
  assert (Hcont : forall {A} (m : io A) r,
    (if negb (FsSafe.isContained h (Path.resolve (cwd h) p) root)
     then throw (FsSafe.escapes p root) else m) fs = (Ok r, fs') ->
    FsSafe.isContained h p root = true /\ m fs = (Ok r, fs')).
  { intros A m r. rewrite isContained_resolved.
    destruct (FsSafe.isContained h p root); [auto|discriminate]. }
  split; [|split].
  - intros H. apply Hcont in H as [Hc H]. unfold bind in H.
    pose proof (validateParentChain_pure h p root fs) as Hp.
    destruct (FsSafe.validateParentChain h p root fs) as [[[]|e] fs0];
      cbn [snd] in Hp; subst fs0; [|discriminate].
    apply mkdirRecursive_makes in H.
    split; [|exact H]. rewrite exists_spec, Hc, H. reflexivity.
  - intros H. apply Hcont in H as [Hc H]. unfold bind in H.
    pose proof (validateParentChain_pure h p root fs) as Hp.
    destruct (FsSafe.validateParentChain h p root fs) as [[[]|e] fs0];
      cbn [snd] in Hp; subst fs0; [|discriminate].
    unfold Fs.unlink in H.
    destruct (Fs.lstat fs (Path.resolve (cwd h) p)) as [[c| |t]|] eqn:El;
      try discriminate;
      (destruct (fault h (OpUnlink (Path.resolve (cwd h) p)));
       [discriminate|]);
      injection H as <-;
      rewrite exists_spec, Hc;
      (rewrite lstat_delete_eq; [reflexivity|]);
      (destruct (String.eqb_spec (Path.resolve (cwd h) p) "/") as [E|];
       [|reflexivity]);
      unfold Fs.lstat in El; rewrite E in El; discriminate.
  - intros H Hne. apply Hcont in H as [Hc H]. unfold bind in H.
    pose proof (validateParentChain_pure h p root fs) as Hp.
    destruct (FsSafe.validateParentChain h p root fs) as [[[]|e] fs0];
      cbn [snd] in Hp; subst fs0; [|discriminate].
    assert (E : fs' = snd (Fs.rmRecursive (Path.resolve (cwd h) p) fs))
      by now rewrite H.
    split.
    + rewrite exists_spec, Hc, E, lstat_rmRecursive.
      destruct (String.eqb_spec (Path.resolve (cwd h) p) "/"); [congruence|].
      now rewrite String.eqb_refl.
    + intros rest. rewrite E, lstat_rmRecursive.
      destruct (String.eqb_spec (Path.resolve (cwd h) p ++ "/" ++ rest) "/")
        as [E1|_].
      * exfalso. destruct (resolve_plain (cwd h) p) as (S & HS & ES).
        rewrite ES in E1. unfold pathOf in E1.
        apply (f_equal String.length) in E1. rewrite !length_app in E1.
        cbn [String.length] in E1. lia.
      * assert (startsWith (Path.resolve (cwd h) p ++ "/" ++ rest)
                           (Path.resolve (cwd h) p ++ "/") = true) as ->.
        { apply startsWith_spec. exists rest. now rewrite app_assoc_s. }
        now rewrite orb_true_r.
Qed.

End FsSafeRoundTrips.

Section FsSafeConfinement.
Import JsString.
Variable h : Host.

Lemma writeFile_frame p content (fs : gmap string node) q :
  q <> p -> Fs.lstat (snd (Fs.writeFile h p content fs)) q = Fs.lstat fs q.
Proof.
  intros Hq. unfold Fs.writeFile.
  destruct (negb (Fs.parentIsDir fs p)); [reflexivity|].
  destruct (Fs.lstat fs p) as [[c| |t]|]; try reflexivity;
    (destruct (fault h (OpWriteFile p));
     [destruct (partialWrite h p)|]; cbn [snd];
     try reflexivity; apply lstat_insert_ne; congruence).
Qed.

Lemma rename_frame src dst (fs : gmap string node) q :
  q <> src -> q <> dst ->
  Fs.lstat (snd (Fs.rename h src dst fs)) q = Fs.lstat fs q.
Proof.
  intros Hs Hd.
  destruct (Fs.rename h src dst fs) as [[[]|e] fs'] eqn:E; cbn [snd].
  - unfold Fs.rename in E.
    destruct (Fs.lstat fs src) as [n|]; [|discriminate].
    destruct (negb (Fs.parentIsDir fs dst)); [discriminate|].
    assert (fs' = <[dst := n]> (delete src fs)) as ->.
    { destruct n, (Fs.lstat fs dst) as [[| |]|]; try discriminate;
        (destruct (fault h (OpRename src dst)); [discriminate|]);
        now injection E as <-. }
    rewrite lstat_insert_ne by congruence. apply lstat_delete_ne. congruence.
  - apply rename_throw in E. now subst.
Qed.

Lemma unlink_frame p (fs : gmap string node) q :
  q <> p -> Fs.lstat (snd (Fs.unlink h p fs)) q = Fs.lstat fs q.
Proof.
  intros Hq. unfold Fs.unlink.
  destruct (Fs.lstat fs p) as [[c| |t]|]; try reflexivity;
    (destruct (fault h (OpUnlink p)); [reflexivity|]); cbn [snd];
    apply lstat_delete_ne; congruence.
Qed.

Lemma writeAtomicCommit_frame resolvedPath content (fs : gmap string node) q :
  q <> resolvedPath -> q <> FsSafe.tmpNameOf h resolvedPath ->
  Fs.lstat (snd (writeAtomicCommit h resolvedPath content fs)) q
  = Fs.lstat fs q.
Proof.
  intros Hp Ht. unfold writeAtomicCommit, tryCatch, bind.
  set (tmp := FsSafe.tmpNameOf h resolvedPath) in *.
  pose proof (writeFile_frame tmp content fs q Ht) as Hw.
  destruct (Fs.writeFile h tmp content fs) as [[[]|e] fs1]; cbn [snd] in Hw.
  - pose proof (rename_frame tmp resolvedPath fs1 q Ht Hp) as Hr.
    destruct (Fs.rename h tmp resolvedPath fs1) as [[[]|e] fs2];
      cbn [snd] in Hr.
    + cbn [snd]. congruence.
    + pose proof (unlink_frame tmp fs2 q Ht) as Hu.
      destruct (Fs.unlink h tmp fs2) as [[[]|e'] fs3]; cbn [snd] in Hu |- *;
        unfold ret, throw; cbn [snd]; congruence.
  - pose proof (unlink_frame tmp fs1 q Ht) as Hu.
    destruct (Fs.unlink h tmp fs1) as [[[]|e'] fs3]; cbn [snd] in Hu |- *;
      unfold ret, throw; cbn [snd]; congruence.
Qed.

Lemma mkdirRecursive_keeps_lstat p (fs : gmap string node) k v :
  Fs.lstat fs k = Some v -> Fs.lstat (snd (Fs.mkdirRecursive h p fs)) k = Some v.
Proof.
  intros H. unfold Fs.mkdirRecursive.
  destruct (fault h (OpMkdir p)); [exact H|]. now apply mkdirChain_keeps_lstat.
Qed.

Lemma inside_trans Rt P q :
  insideRoot Rt P -> insideRoot P q -> insideRoot Rt q.
Proof.
  intros [->|[r ->]] [->|[x ->]].
  - now left.
  - right. now exists x.
  - right. now exists r.
  - right. exists (r ++ "/" ++ x). now rewrite !app_assoc_s.
Qed.

Lemma tmpName_inside Rt P :
  insideRoot Rt P -> P <> Rt -> insideRoot Rt (FsSafe.tmpNameOf h P).
Proof.
  intros [->|[r ->]] Hne; [congruence|].
  right. unfold FsSafe.tmpNameOf. eexists. now rewrite !app_assoc_s.
Qed.

Lemma guarded_pure {A} (m : io A) p root fs :
  snd ((if negb (FsSafe.isContained h (Path.resolve (cwd h) p) root)
        then throw (FsSafe.escapes p root)
        else FsSafe.validateParentChain h p root ;;; m) fs)
  = (if FsSafe.isContained h p root then
       match fst (FsSafe.validateParentChain h p root fs) with
       | Ok _ => snd (m fs)
       | Throw _ => fs
       end
     else fs).
Proof.
  rewrite isContained_resolved.
  destruct (FsSafe.isContained h p root); [|reflexivity]. cbn [negb].
  unfold bind. pose proof (validateParentChain_pure h p root fs) as Hp.
  destruct (FsSafe.validateParentChain h p root fs) as [[[]|e] fs0];
    cbn [snd fst] in *; now subst.
Qed.


End FsSafeConfinement.

Section WriteThenUnlink.
Import JsString.
Variable h : Host.

Lemma rename_keeps_dir src dst (fs : gmap string node) :
  Fs.lstat fs dst = Some Dir -> snd (Fs.rename h src dst fs) = fs.
Proof.
  intros Hd. unfold Fs.rename.
  destruct (Fs.lstat fs src) as [n|]; [|reflexivity].
  destruct (negb (Fs.parentIsDir fs dst)); [reflexivity|].
  rewrite Hd. now destruct n.
Qed.

Lemma writeAtomicCommit_keeps_dir resolvedPath content
    (fs : gmap string node) q :
  Fs.lstat fs q = Some Dir ->
  Fs.lstat (snd (writeAtomicCommit h resolvedPath content fs)) q = Some Dir.
Proof.
  intros Hq. set (tmp := FsSafe.tmpNameOf h resolvedPath).
  destruct (String.eqb_spec q tmp) as [->|Ht].
  - unfold writeAtomicCommit. fold tmp. unfold tryCatch at 1, bind at 1.
    assert (Ew : Fs.writeFile h tmp content fs
                 = (Throw (if negb (Fs.parentIsDir fs tmp)
                           then Fs.ENOENT else Fs.EISDIR), fs)).
    { unfold Fs.writeFile. destruct (negb (Fs.parentIsDir fs tmp));
        [reflexivity|]. now rewrite Hq. }
    rewrite Ew. unfold bind, tryCatch, Fs.unlink. rewrite Hq.
    unfold ret, throw. exact Hq.
  - destruct (String.eqb_spec q resolvedPath) as [->|Hp].
    + unfold writeAtomicCommit. fold tmp. unfold tryCatch at 1, bind at 1.
      pose proof (writeFile_frame h tmp content fs resolvedPath Ht) as Hw.
      destruct (Fs.writeFile h tmp content fs) as [[[]|e] fs1];
        cbn [snd] in Hw.
      * pose proof (rename_keeps_dir tmp resolvedPath fs1
                      ltac:(congruence)) as Hr.
        assert (Er : exists e, Fs.rename h tmp resolvedPath fs1
                               = (Throw e, fs1)).
        { unfold Fs.rename in *.
          destruct (Fs.lstat fs1 tmp) as [n|]; [|eauto].
          destruct (negb (Fs.parentIsDir fs1 resolvedPath)); [eauto|].
          rewrite Hw, Hq. destruct n; eauto. }
        destruct Er as [e ->].
        pose proof (unlink_frame h tmp fs1 resolvedPath Ht) as Hu.
        unfold bind, tryCatch.
        destruct (Fs.unlink h tmp fs1) as [[[]|e'] fs3]; cbn [snd] in Hu |- *;
          unfold ret, throw; cbn [snd]; congruence.
      * pose proof (unlink_frame h tmp fs1 resolvedPath Ht) as Hu.
        unfold bind, tryCatch.
        destruct (Fs.unlink h tmp fs1) as [[[]|e'] fs3]; cbn [snd] in Hu |- *;
          unfold ret, throw; cbn [snd]; congruence.
    + rewrite writeAtomicCommit_frame by assumption. exact Hq.
Qed.

Lemma writeAtomic_keeps_dir p content root (fs : gmap string node) q :
  Fs.lstat fs q = Some Dir ->
  Fs.lstat (snd (FsSafe.writeAtomic h p content root fs)) q = Some Dir.
Proof.
  intros Hq. rewrite writeAtomic_phases. unfold bind.
  destruct (writeAtomicPrepare h p root fs) as [[r|e] fs1] eqn:Ep; cbn [snd].
  - apply writeAtomicCommit_keeps_dir.
    eapply writeAtomicPrepare_keeps_lstat; eassumption.
  - eapply writeAtomicPrepare_keeps_lstat; eassumption.
Qed.

Lemma read_spec filePath root (fs : gmap string node) :
  FsSafe.read h filePath root fs =
  (if FsSafe.isContained h filePath root then
     match Fs.lstat fs (Path.resolve (cwd h) filePath) with
     | Some (File content) => Ok content
     | Some (Symlink _) =>
         Throw (SymlinkError ("Cannot read symlink: " ++ filePath))
     | Some Dir => Throw (SystemError "EISDIR")
     | None => Throw (SystemError "ENOENT")
     end
   else
     Throw (PathEscapeError
              ("Path " ++ filePath ++ " escapes root " ++ root)),
   fs).
Proof.
  unfold FsSafe.read. rewrite isContained_resolved.
  destruct (FsSafe.isContained h filePath root); [|reflexivity].
  cbn [negb]. unfold bind, Fs.plstat, Fs.readFileNoFollow.
  destruct (Fs.lstat fs (Path.resolve (cwd h) filePath)) as [[c| |t]|] eqn:E;
    cbn [FsSafe.isSymbolicLink]; rewrite ?E; reflexivity.
Qed.

Lemma read_ok filePath root (fs fs' : gmap string node) content :
  FsSafe.read h filePath root fs = (Ok content, fs') ->
  fs' = fs /\ FsSafe.isContained h filePath root = true /\
  Fs.lstat fs (Path.resolve (cwd h) filePath) = Some (File content).
Proof.
  rewrite read_spec. destruct (FsSafe.isContained h filePath root);
    [|discriminate].
  destruct (Fs.lstat fs _) as [[c| |t]|]; try discriminate.
  intros E. injection E as <- <-. auto.
Qed.

Lemma unlink_ok p root (fs fs' : gmap string node) :
  FsSafe.unlink h p root fs = (Ok tt, fs') ->
  fs' = delete (Path.resolve (cwd h) p) fs /\
  String.eqb (Path.resolve (cwd h) p) "/" = false /\
  FsSafe.isContained h p root = true.
Proof.
  unfold FsSafe.unlink. rewrite isContained_resolved.
  destruct (FsSafe.isContained h p root); [|discriminate]. cbn [negb].
  unfold bind. pose proof (validateParentChain_pure h p root fs) as Hp.
  destruct (FsSafe.validateParentChain h p root fs) as [[[]|e] fs0];
    cbn [snd] in Hp; subst fs0; [|discriminate].
  unfold Fs.unlink.
  destruct (Fs.lstat fs (Path.resolve (cwd h) p)) as [[c| |t]|] eqn:El;
    try discriminate;
    (destruct (fault h (OpUnlink (Path.resolve (cwd h) p)));
     [discriminate|]);
    intros E; injection E as <-; repeat split;
    (destruct (String.eqb_spec (Path.resolve (cwd h) p) "/") as [E|];
     [|reflexivity]);
    unfold Fs.lstat in El; rewrite E in El; discriminate.
Qed.

End WriteThenUnlink.

Section WalkAfterWrite.
Import JsString.
Variable h : Host.

Lemma prepare_ok p root (fs fs1 : gmap string node) r :
  writeAtomicPrepare h p root fs = (Ok r, fs1) ->
  FsSafe.isContained h p root = true /\
  FsSafe.validateParentChain h p root fs = (Ok tt, fs) /\
  Fs.mkdirRecursive h (Path.dirname (Path.resolve (cwd h) p)) fs = (Ok tt, fs1).
Proof.
  unfold writeAtomicPrepare. rewrite isContained_resolved.
  destruct (FsSafe.isContained h p root); [|discriminate]. cbn [negb].
  unfold bind. pose proof (validateParentChain_pure h p root fs) as Hp.
  destruct (FsSafe.validateParentChain h p root fs) as [[[]|e] fs0];
    cbn [snd] in Hp; subst fs0; [|discriminate].
  destruct (Fs.mkdirRecursive h _ fs) as [[[]|e] fs2]; [|discriminate].
  unfold ret. intros E. injection E as _ <-. auto.
Qed.

Lemma mkdirRecursive_ok p (fs fs1 : gmap string node) :
  Fs.mkdirRecursive h p fs = (Ok tt, fs1) ->
  fault h (OpMkdir p) = false /\
  Forall (fun q => Fs.lstat fs1 q = Some Dir) (Fs.chain p).
Proof.
  unfold Fs.mkdirRecursive. destruct (fault h (OpMkdir p)); [discriminate|].
  intros H. split; [reflexivity|]. apply List.Forall_forall.
  intros q Hq. eapply mkdirChain_makes; eassumption.
Qed.

Lemma chain_snoc S s :
  Forall cleanSeg (S ++ [s]) ->
  Fs.chain (pathOf (S ++ [s]))
  = (Fs.chain (pathOf S) ++ [pathOf (S ++ [s])])%list.
Proof.
  intros H. rewrite !chain_pathOf; [|now apply List.Forall_app in H|assumption].
  now rewrite below_app.
Qed.

(** After a successful [writeAtomic] every path on the way to the target
    is a directory, and the target is the file. *)
Lemma writeAtomic_ok_chain p content root (fs fs' : gmap string node) :
  FsSafe.writeAtomic h p content root fs = (Ok tt, fs') ->
  Forall (fun q => exists v, Fs.lstat fs' q = Some v /\
                             FsSafe.isSymbolicLink v = false)
         (Fs.chain (Path.resolve (cwd h) p)).
Proof.
  intros H. pose proof (writeAtomic_ok h _ _ _ _ _ H) as [Hc Hl].
  rewrite writeAtomic_phases in H. unfold bind in H.
  destruct (writeAtomicPrepare h p root fs) as [[r|e] fs1] eqn:Ep;
    [|discriminate].
  pose proof (writeAtomicPrepare_returns _ _ _ _ _ _ Ep) as ->.
  apply prepare_ok in Ep as (_ & _ & Em).
  apply mkdirRecursive_ok in Em as [_ Hdirs].
  assert (Efs : fs' = snd (writeAtomicCommit h (Path.resolve (cwd h) p)
                             content fs1)) by now rewrite H.
  destruct (resolve_plain (cwd h) p) as (S & HS & ES). rewrite ES in *.
  destruct S as [|x S0]; [constructor|].
  destruct (@exists_last _ (x :: S0) ltac:(discriminate)) as (S' & s & E).
  rewrite E in *. clear E x S0.
  assert (HSc : Forall cleanSeg (S' ++ [s])) by now apply plain_clean.
  rewrite chain_snoc by assumption.
  unfold pathOf in Hdirs. rewrite dirname_snoc in Hdirs.
  2:{ now apply List.Forall_app in HSc as [HS' _]. }
  2:{ apply List.Forall_app in HSc as [_ Hs]. now apply Forall_cons in Hs. }
  fold (pathOf S') in Hdirs.
  apply List.Forall_app. split.
  - eapply List.Forall_impl; [|exact Hdirs]. intros q Hq. exists Dir.
    split; [|reflexivity]. rewrite Efs. now apply writeAtomicCommit_keeps_dir.
  - constructor; [|constructor]. exists (File content). auto.
Qed.

Lemma walk_after_writeAtomic p content root (fs fs' : gmap string node) :
  FsSafe.writeAtomic h p content root fs = (Ok tt, fs') ->
  FsSafe.validateParentChain h p root fs' = (Ok tt, fs').
Proof.
  intros H. pose proof (writeAtomic_ok h _ _ _ _ _ H) as [Hc _].
  pose proof (writeAtomic_ok_chain _ _ _ _ _ H) as Hch. clear H.
  rename Hch into H.
  rewrite validateParentChain_below, Hc. cbv zeta.
  rewrite firstSymlink_none; [reflexivity|].
  pose proof (contained_suffix h _ _ Hc) as ES.
  destruct (resolve_segments (cwd h) p) as [HS EP].
  rewrite EP in H. rewrite List.Forall_forall in H |- *.
  intros q Hq. apply H. rewrite ES. apply below_in_chain; [|exact Hq].
  rewrite <- ES. now apply plain_clean.
Qed.

(** X12. What [writeAtomic] has written, [unlink] removes: after a
    successful [writeAtomic], [unlink] of the same path under the same
    root succeeds unless the system makes the removal fail, and then
    [exists] answers false and every other entry is what it was. *)
Theorem X12_unlink_after_writeAtomic (p content root : string)
    (fs fs' : gmap string node) :
  let target := Path.resolve (cwd h) p in
  FsSafe.writeAtomic h p content root fs = (Ok tt, fs') ->
  fault h (OpUnlink target) = false ->
  exists fs'',
    FsSafe.unlink h p root fs' = (Ok tt, fs'') /\
    FsSafe.exists_ h p root fs'' = (Ok false, fs'') /\
    Fs.lstat fs'' target = None /\
    forall q, q <> target -> Fs.lstat fs'' q = Fs.lstat fs' q.
Proof.
  cbv zeta. intros H Hf.
  pose proof (walk_after_writeAtomic _ _ _ _ _ H) as Hw.
  pose proof (writeAtomic_ok h _ _ _ _ _ H) as [Hc Hl].
  assert (Hne : String.eqb (Path.resolve (cwd h) p) "/" = false).
  { destruct (String.eqb_spec (Path.resolve (cwd h) p) "/") as [E|];
      [|reflexivity].
    unfold Fs.lstat in Hl. rewrite E in Hl. discriminate. }
  exists (delete (Path.resolve (cwd h) p) fs').
  assert (Eu : FsSafe.unlink h p root fs'
               = (Ok tt, delete (Path.resolve (cwd h) p) fs')).
  { unfold FsSafe.unlink. rewrite isContained_resolved, Hc. cbn [negb].
    unfold bind. rewrite Hw. unfold Fs.unlink. now rewrite Hl, Hf. }
  split; [exact Eu|].
  assert (Hgone : Fs.lstat (delete (Path.resolve (cwd h) p) fs')
                           (Path.resolve (cwd h) p) = None)
    by now apply lstat_delete_eq.
  split; [|split; [exact Hgone|]].
  - rewrite exists_spec, Hc, Hgone. reflexivity.
  - intros q Hq. apply lstat_delete_ne. congruence.
Qed.

End WalkAfterWrite.

(** ** The watcher loop *)

Section LoopNeverThrows.
Import JsString Js.
Variable h : Host.
Variable tools : Loop.Tools.
Variable config : Loop.WatcherConfig.

Lemma swallow_returns (m : io unit) fs :
  exists fs', tryCatch m (fun _ => ret tt) fs = (Ok tt, fs').
Proof.
  unfold tryCatch, ret. destruct (m fs) as [[[]|e] fs']; eauto.
Qed.

Lemma cleanupWorktree_returns worktreePath fs :
  exists fs', Loop.cleanupWorktree h tools config worktreePath fs = (Ok tt, fs').
Proof.
  unfold Loop.cleanupWorktree. unfold tryCatch at 1.
  match goal with |- context [match ?m fs with _ => _ end] =>
    destruct (m fs) as [[[]|e] fs1] end; [eauto|].
  apply swallow_returns.
Qed.

Lemma releaseWorkerLock_returns workerLockPath fs :
  exists fs', Loop.releaseWorkerLock h config workerLockPath fs = (Ok tt, fs').
Proof.
  unfold Loop.releaseWorkerLock. destruct workerLockPath as [p|].
  - apply swallow_returns.
  - unfold ret. eauto.
Qed.

Lemma acquireWorkerLock_returns fs :
  exists got path fs',
    Loop.acquireWorkerLock h config fs = (Ok (got, path), fs') /\
    (got = true -> path = Some (Loop.lockPath config)) /\
    (got = false -> path = None).
Proof.
  unfold Loop.acquireWorkerLock. unfold tryCatch at 1.
  match goal with |- context [match ?m fs with _ => _ end] =>
    destruct (m fs) as [[[got path]|e] fs1] eqn:E end.
  - exists got, path, fs1. split; [reflexivity|].
    unfold bind at 1 in E.
    destruct (FsSafe.exists_ h (Loop.lockPath config) (Loop.repoPath config) fs)
      as [[ex|e] fs0]; [|discriminate].
    unfold bind at 1 in E.
    match type of E with context [match ?m fs0 with _ => _ end] =>
      destruct (m fs0) as [[proceed|e] fs2] end; [|discriminate].
    destruct proceed.
    + unfold bind in E.
      destruct (FsSafe.writeAtomic h _ _ _ fs2) as [[[]|e] fs3];
        [|discriminate].
      unfold ret in E. injection E as <- <- _. split; [auto|discriminate].
    + unfold ret in E. injection E as <- <- _. split; [discriminate|auto].
  - unfold ret. exists false, None, fs1. repeat split; auto. discriminate.
Qed.

(** X13. The worker lock and the clean-up never throw: whatever the file
    system holds and whatever git and the system do, [acquireWorkerLock],
    [releaseWorkerLock] and [cleanupWorktree] return.  A failure to
    acquire is the answer false; the path of the lock is remembered
    exactly when the answer is true. *)
Theorem X13_lock_and_cleanup_never_throw (fs : gmap string node)
    (workerLockPath : option string) (worktreePath : string) :
  (exists got path fs',
     Loop.acquireWorkerLock h config fs = (Ok (got, path), fs') /\
     path = (if got : bool then Some (Loop.lockPath config) else None)) /\
  (exists fs',
     Loop.releaseWorkerLock h config workerLockPath fs = (Ok tt, fs')) /\
  (exists fs',
     Loop.cleanupWorktree h tools config worktreePath fs = (Ok tt, fs')).
Proof.
  split; [|split].
  - destruct (acquireWorkerLock_returns fs) as (got & path & fs' & E & Ht & Hf).
    exists got, path, fs'. split; [exact E|]. destruct got; auto.
  - apply releaseWorkerLock_returns.
  - apply cleanupWorktree_returns.
Qed.

End LoopNeverThrows.

Section ProcessTaskFacts.
Import JsString Js.
Variable h : Host.
Variable tools : Loop.Tools.
Variable config : Loop.WatcherConfig.

Lemma verifyLoop_completes task startedAt worktreePath verifies :
  forall acc allPassed fs results ap fs',
    Loop.verifyLoop h tools config task startedAt worktreePath verifies
      acc allPassed fs = (Ok (inr (results, ap)), fs') ->
    exists new,
      results = (acc ++ new)%list /\
      List.map Result.cmd new = List.map Task.cmd verifies /\
      List.map Result.args new = List.map Task.args verifies /\
      Forall (fun v => Result.passed v
                       = Loop.strictEqNum (Result.exitCode v)
                                          (Result.expectedExit v)) new /\
      List.map Result.expectedExit new
      = List.map (fun v => Loop.orZero (Task.expectedExit v)) verifies /\
      ap = allPassed && forallb Result.passed new.
Proof.
  induction verifies as [|verify rest IH]; intros acc allPassed fs results ap fs' H.
  - cbn [Loop.verifyLoop] in H. unfold ret in H. injection H as <- <- _.
    exists []. rewrite List.app_nil_r, andb_true_r. repeat split; constructor.
  - cbn [Loop.verifyLoop] in H. unfold bind at 1 in H.
    destruct (Loop.runnerRun tools (Task.cmd verify) (Task.args verify)
                worktreePath (Loop.timeoutMsOf (Task.timeoutSec verify)) fs)
      as [run fs1].
    destruct (Loop.scanOutputs (Loop.stdout run) (Loop.stderr run))
      as [[stdoutScan stderrScan] finalScan].
    destruct (Scanner.hasSecrets stdoutScan || Scanner.hasSecrets stderrScan
              || Scanner.hasSecrets finalScan).
    + exfalso. unfold bind in H.
      destruct (Loop.cleanupWorktree h tools config worktreePath fs1)
        as [[[]|e] fs2]; [|discriminate].
      destruct (FsSafe.unlink h _ _ fs2) as [[[]|e] fs3]; discriminate.
    + apply IH in H as (new & -> & Hc & Ha & Hp & He & ->).
      eexists (_ :: new). rewrite <- List.app_assoc. cbn [List.app].
      split; [reflexivity|].
      cbn [List.map forallb Result.cmd Result.args Result.passed
             Result.expectedExit].
      repeat split; try congruence.
      * constructor; [reflexivity|exact Hp].
      * destruct (Loop.strictEqNum _ _), allPassed; reflexivity.
Qed.

Lemma verifyLoop_secret task startedAt worktreePath verifies :
  forall acc allPassed fs r fs',
    Loop.verifyLoop h tools config task startedAt worktreePath verifies
      acc allPassed fs = (Ok (inl r), fs') ->
    exists incident,
      r = Result.createSecretDetectedResult h (Task.id task) startedAt incident.
Proof.
  induction verifies as [|verify rest IH]; intros acc allPassed fs r fs' H.
  - discriminate.
  - cbn [Loop.verifyLoop] in H. unfold bind at 1 in H.
    destruct (Loop.runnerRun tools (Task.cmd verify) (Task.args verify)
                worktreePath (Loop.timeoutMsOf (Task.timeoutSec verify)) fs)
      as [run fs1].
    destruct (Loop.scanOutputs (Loop.stdout run) (Loop.stderr run))
      as [[stdoutScan stderrScan] finalScan].
    destruct (Scanner.hasSecrets stdoutScan || Scanner.hasSecrets stderrScan
              || Scanner.hasSecrets finalScan).
    + unfold bind in H.
      destruct (Loop.cleanupWorktree h tools config worktreePath fs1)
        as [[[]|e] fs2]; [|discriminate].
      destruct (FsSafe.unlink h _ _ fs2) as [[[]|e] fs3]; [|discriminate].
      unfold ret in H. injection H as <- _. eauto.
    + eauto.
Qed.


End ProcessTaskFacts.

Section LoopFiles.
Import JsString Js.
Variable h : Host.
Variable config : Loop.WatcherConfig.

(** X15. [moveTask] moves the task file: when it succeeds, the file at
    the source path was a regular file, the destination now holds its
    content, and the source is gone.  When both names resolve to one
    path, that path is gone as well: the file is written and then
    removed. *)
Theorem X15_moveTask_moves (taskId from to : string)
    (fs fs' : gmap string node) :
  let fromPath :=
    Path.resolve (cwd h)
      (Path.join [Loop.handoffPath config; from; taskId ++ ".json"]) in
  let toPath :=
    Path.resolve (cwd h)
      (Path.join [Loop.handoffPath config; to; taskId ++ ".json"]) in
  Loop.moveTask h config taskId from to fs = (Ok tt, fs') ->
  exists content,
    Fs.lstat fs fromPath = Some (File content) /\
    Fs.lstat fs' fromPath = None /\
    (fromPath <> toPath -> Fs.lstat fs' toPath = Some (File content)).
Proof.
  cbv zeta. unfold Loop.moveTask. intros H. unfold bind at 1 in H.
  destruct (FsSafe.read h _ _ fs) as [[content|e] fs0] eqn:Er; [|discriminate].
  apply read_ok in Er as (-> & _ & Hfrom).
  unfold bind in H.
  destruct (FsSafe.writeAtomic h _ content _ fs) as [[[]|e] fs1] eqn:Ew;
    [|discriminate].
  apply writeAtomic_ok in Ew as [_ Hto].
  apply unlink_ok in H as (-> & Hne & _).
  exists content. split; [exact Hfrom|]. split.
  - now apply lstat_delete_eq.
  - intros Hd. rewrite lstat_delete_ne by assumption. exact Hto.
Qed.

(** X16. The lock that [acquireWorkerLock] reports as acquired is on
    disk: the lock file holds the pid, the time and the host name of this
    process as [JSON.stringify] prints them.  [releaseWorkerLock] of the
    remembered path then removes the file, unless the system makes the
    removal fail, and leaves every other entry as it was. *)
Theorem X16_lock_is_written_and_released (fs fs' : gmap string node)
    (path : option string) :
  let lockFile := Path.resolve (cwd h) (Loop.lockPath config) in
  Loop.acquireWorkerLock h config fs = (Ok (true, path), fs') ->
  path = Some (Loop.lockPath config) /\
  FsSafe.read h (Loop.lockPath config) (Loop.repoPath config) fs'
  = (Ok (JSON_stringify h
           (JObj [ ("pid", JNum (pid h));
                   ("acquired", JStr (Date_toISOString h (now h)));
                   ("hostname", JStr (hostname h)) ])), fs') /\
  (fault h (OpUnlink lockFile) = false ->
   exists fs'',
     Loop.releaseWorkerLock h config path fs' = (Ok tt, fs'') /\
     Fs.lstat fs'' lockFile = None /\
     forall q, q <> lockFile -> Fs.lstat fs'' q = Fs.lstat fs' q).
Proof.
  cbv zeta. intros H.
  assert (Hw : exists fs2,
    FsSafe.writeAtomic h (Loop.lockPath config)
      (JSON_stringify h (Loop.ownLock h)) (Loop.repoPath config) fs2
    = (Ok tt, fs') /\ path = Some (Loop.lockPath config)).
  { unfold Loop.acquireWorkerLock in H. unfold tryCatch at 1 in H.
    match type of H with context [match ?m fs with _ => _ end] =>
      destruct (m fs) as [[[got path']|e] fs1] eqn:E end;
      [|unfold ret in H; discriminate].
    injection H as -> -> ->.
    unfold bind at 1 in E.
    destruct (FsSafe.exists_ h (Loop.lockPath config) (Loop.repoPath config) fs)
      as [[ex|e] fs0]; [|discriminate].
    unfold bind at 1 in E.
    match type of E with context [match ?m fs0 with _ => _ end] =>
      destruct (m fs0) as [[proceed|e] fs2] end; [|discriminate].
    destruct proceed; [|unfold ret in E; discriminate].
    unfold bind in E.
    destruct (FsSafe.writeAtomic h _ _ _ fs2) as [[[]|e] fs3] eqn:Ew;
      [|discriminate].
    unfold ret in E. injection E as <- <-. eauto. }
  destruct Hw as (fs2 & Hw & ->). split; [reflexivity|]. split.
  - pose proof (writeAtomic_ok h _ _ _ _ _ Hw) as [Hc Hl].
    rewrite read_spec, Hc, Hl. reflexivity.
  - intros Hf.
    pose proof (walk_after_writeAtomic h _ _ _ _ _ Hw) as Hwalk.
    pose proof (writeAtomic_ok h _ _ _ _ _ Hw) as [Hc Hl].
    assert (Hne : String.eqb (Path.resolve (cwd h) (Loop.lockPath config)) "/"
                  = false).
    { destruct (String.eqb_spec
                  (Path.resolve (cwd h) (Loop.lockPath config)) "/") as [E|];
        [|reflexivity].
      unfold Fs.lstat in Hl. rewrite E in Hl. discriminate. }
    exists (delete (Path.resolve (cwd h) (Loop.lockPath config)) fs').
    split; [|split].
    + unfold Loop.releaseWorkerLock, tryCatch, FsSafe.unlink.
      rewrite isContained_resolved, Hc. cbn [negb]. unfold bind.
      rewrite Hwalk. unfold Fs.unlink. now rewrite Hl, Hf.
    + now apply lstat_delete_eq.
    + intros q Hq. apply lstat_delete_ne. congruence.
Qed.

End LoopFiles.

Section LoadAndResult.
Import JsString Js.
Variable h : Host.

Lemma readdir_spec p root (fs : gmap string node) :
  exists names,
    FsSafe.readdir h p root fs =
    (if FsSafe.isContained h p root then
       match Fs.lstat fs (Path.resolve (cwd h) p) with
       | Some Dir => Ok names
       | Some _ => Throw (SystemError "ENOTDIR")
       | None => Throw (SystemError "ENOENT")
       end
     else Throw (FsSafe.escapes p root), fs).
Proof.
  unfold FsSafe.readdir. rewrite isContained_resolved.
  destruct (FsSafe.isContained h p root); [|exists []; reflexivity].
  cbn [negb]. unfold Fs.readdir.
  destruct (Fs.lstat fs (Path.resolve (cwd h) p)) as [[c| |t]|];
    eexists; try reflexivity.
  Unshelve. all: exact [].
Qed.


(** X18. A result that [writeResult] has written can be read back: the
    file <taskId>.json in the results directory holds the result as
    [JSON.stringify] prints it.  For a resolved results directory and a
    task id without a separator, that file lies in the results directory
    itself. *)
Theorem X18_writeResult_read_back (result : Result.Result)
    (resultsDir root : string) (fs fs' : gmap string node) :
  let file := Path.join [resultsDir; Result.taskId result ++ ".json"] in
  Result.writeResult h result resultsDir root fs = (Ok tt, fs') ->
  FsSafe.read h file root fs'
  = (Ok (JSON_stringify h (Result.toJson result)), fs') /\
  (forall dir,
     resultsDir = Path.resolve (cwd h) dir ->
     Forall notSep (chars (Result.taskId result)) ->
     Path.resolve (cwd h) file
     = pathOf (segments resultsDir ++ [Result.taskId result ++ ".json"])).
Proof.
  cbv zeta. unfold Result.writeResult. intros H.
  apply writeAtomic_ok in H as [Hc Hl]. split.
  - rewrite read_spec, Hc, Hl. reflexivity.
  - intros dir -> Hid.
    destruct (resolve_segments (cwd h) dir) as [HS ES].
    set (S := segments (Path.resolve (cwd h) dir)) in *.
    assert (Hp : plainSeg (Result.taskId result ++ ".json")).
    2:{ rewrite ES at 1. rewrite join_child by assumption.
        apply resolve_pathOf. apply List.Forall_app. split; [assumption|].
        now constructor. }
    { assert (Hlen : 5 <= String.length (Result.taskId result ++ ".json")).
      { rewrite length_app. cbn. lia. }
      repeat split.
      * intros E. rewrite E in Hlen. cbn in Hlen. lia.
      * rewrite chars_app. apply List.Forall_app. split; [exact Hid|].
        repeat constructor; discriminate.
      * intros E. rewrite E in Hlen. cbn in Hlen. lia.
      * intros E. rewrite E in Hlen. cbn in Hlen. lia. }
Qed.

End LoadAndResult.

Section CapOutputCount.
Import JsString Regex Scanner LogCap.

Lemma findMatches_length this text a b :
  List.length (findMatches this text a) = List.length (findMatches this text b).
Proof.
  unfold findMatches. induction (patterns this) as [|p ps IH]; [reflexivity|].
  cbn [flat_map]. rewrite !List.length_app, !List.length_map. now rewrite IH.
Qed.

Lemma finalize_flag this :
  hasSecrets (fst (finalize this)) = true <->
  matches (fst (finalize this)) <> [].
Proof.
  unfold finalize. destruct (String.length (overlapBuffer this) =? 0)%nat.
  - cbn. split; [discriminate|congruence].
  - cbn [fst]. apply hasSecrets_resultOf_iff.
Qed.

Lemma scan_flag this chunk :
  hasSecrets (fst (scan this chunk)) = true <->
  matches (fst (scan this chunk)) <> [].
Proof. unfold scan. cbn [fst]. apply hasSecrets_resultOf_iff. Qed.

(** X19. At or below the cap, [capOutput] returns the output with the
    answer of [containsSecrets] as [secretsDetected], which is true
    exactly when [secretCount] is not zero.  The count is that of
    [scanString], which scans the text and then its buffer once more: for
    an output of at most 8192 characters every occurrence is counted
    twice. *)
Theorem X19_capOutput_counts_twice (h : Host) (output logDir taskId : string)
    (cmdIndex : nat) (stream : stream) (root : string)
    (fs : gmap string node) :
  byteLength output <= MAX_OUTPUT_BYTES ->
  exists out,
    capOutput h output logDir taskId cmdIndex stream root fs = (Ok out, fs) /\
    secretsDetected out = containsSecrets output /\
    (secretsDetected out = true <-> 0 < secretCount out) /\
    (0 < String.length output <= OVERLAP_BUFFER_SIZE ->
     secretCount out
     = 2 * List.length (findMatches (new []) output 0)).
Proof.
  intros Hcap. unfold capOutput.
  destruct (Nat.ltb_spec MAX_OUTPUT_BYTES (byteLength output)); [lia|].
  unfold ret. eexists. split; [reflexivity|].
  cbn [secretsDetected secretCount]. split; [reflexivity|]. split.
  - unfold scanString.
    destruct (scan (new []) output) as [result scanner] eqn:Es.
    destruct (finalize scanner) as [finalResult scanner'] eqn:Ef.
    cbn [hasSecrets matches]. rewrite List.length_app, orb_true_iff.
    pose proof (scan_flag (new []) output) as H1. rewrite Es in H1.
    pose proof (finalize_flag scanner) as H2. rewrite Ef in H2.
    cbn [fst] in H1, H2. rewrite H1, H2.
    destruct (matches result), (matches finalResult); cbn; split;
      intros; try lia; try (left; discriminate); try (right; discriminate);
      tauto.
  - intros Hlen. rewrite scanString_reports_twice by exact Hlen.
    rewrite List.length_app.
    rewrite (findMatches_length _ _ (countNewlines output) 0). lia.
Qed.

End CapOutputCount.

(** ** lock.ts *)

Section LockTsFacts.
Import JsString.
Variable h : Host.

Lemma root_not_inside path root :
  strictlyInside h path root -> FsSafe.isContained h root path = false.
Proof.
  intros [Hc Hne]. apply not_true_iff_false. intros Hr.
  apply isContained_inside in Hc, Hr.
  destruct Hc as [E|[rest E]]; [congruence|].
  destruct Hr as [E'|[rest' E']]; [congruence|].
  rewrite E in E'. apply (f_equal String.length) in E'.
  rewrite !length_app in E'. cbn [String.length] in E'. lia.
Qed.

(** X20. The functions of lock.ts hand [root] to the safe layer as the
    path and the path as the root.  Whenever the lock file, the task
    lock file and the result file lie under the root, as they are meant
    to, each of the five functions throws a [PathEscapeError] and leaves
    the file system as it was: no lock is ever taken, released or
    found. *)
Theorem X20_lock_ts_refuses (lockDir resultsDir taskId root : string)
    (fs : gmap string node) :
  let workerLock := Path.join [lockDir; Lock.WORKER_LOCK_FILE] in
  let taskLock := Path.join [lockDir; taskId ++ ".lock"] in
  let resultFile := Path.join [resultsDir; taskId ++ ".json"] in
  let refused {A} (path : string) : outcome A * gmap string node :=
    (Throw (PathEscapeError ("Path " ++ root ++ " escapes root " ++ path)),
     fs) in
  strictlyInside h workerLock root ->
  strictlyInside h taskLock root ->
  strictlyInside h resultFile root ->
  Lock.acquireWorkerLock h lockDir root fs = refused workerLock /\
  LockFile.releaseWorkerLock h lockDir root fs = refused workerLock /\
  LockFile.acquireTaskLock h lockDir taskId root fs = refused taskLock /\
  LockFile.releaseTaskLock h lockDir taskId root fs = refused taskLock /\
  LockFile.taskResultExists h resultsDir taskId root fs = refused resultFile.
Proof.
  cbv zeta. intros Hw Ht Hr.
  apply root_not_inside in Hw, Ht, Hr.
  unfold Lock.acquireWorkerLock, LockFile.releaseWorkerLock,
    LockFile.acquireTaskLock, LockFile.releaseTaskLock,
    LockFile.taskResultExists.
  unfold bind. rewrite !exists_spec, Hw, Ht, Hr. repeat split.
Qed.

End LockTsFacts.

(** ** safety.ts *)

Section SecretFileFacts.
Import JsString Regex SecretFiles.

Lemma matchToEnd_iff r :
  forall s, (exists n, matchToEnd r s = Some n) <-> Matches r s.
Proof.
  induction r as [|it r IH]; intros s.
  - cbn. unfold atEnd. destruct (String.eqb_spec s "") as [E|E]; split.
    + auto.
    + eauto.
    + intros [m H]. discriminate.
    + congruence.
  - change (matchToEnd (it :: r))
      with (rep (cls it) (matchToEnd r) (rmin it) (rmax it)).
    cbn [Matches]. split.
    + intros [n H].
      destruct (rep_sound _ _ _ _ _ _ H) as (j & m & -> & Hj & Hk & Hlo & Hhi & Hall).
      exists (take j s), (drop j s). rewrite take_drop, length_take.
      rewrite Nat.min_l by assumption. repeat split; auto.
      apply IH. eauto.
    + intros (run & tail & -> & Hall & Hlo & Hhi & Ht).
      apply rep_complete; auto. now apply IH.
Qed.

Lemma searchToEnd_iff r :
  forall s, searchToEnd r s = true <->
            exists i, i <= String.length s /\ Matches r (drop i s).
Proof.
  induction s as [|a s IH]; cbn [searchToEnd].
  - destruct (matchToEnd r "") eqn:E.
    + split; [|reflexivity]. intros _. exists 0. split; [lia|].
      apply matchToEnd_iff. eauto.
    + split; [discriminate|]. intros (i & Hi & Hm).
      assert (i = 0) as -> by (cbn in Hi; lia).
      apply matchToEnd_iff in Hm as [n Hm]. cbn in Hm. congruence.
  - destruct (matchToEnd r (String a s)) eqn:E.
    + split; [|reflexivity]. intros _. exists 0. split; [lia|].
      apply matchToEnd_iff. eauto.
    + rewrite IH. split.
      * intros (i & Hi & Hm). exists (S i). cbn. split; [lia|exact Hm].
      * intros ([|i] & Hi & Hm).
        -- apply matchToEnd_iff in Hm as [n Hm]. cbn in Hm. congruence.
        -- exists i. cbn in Hi. split; [lia|exact Hm].
Qed.

Lemma Matches_lit_app w r :
  forall s, Matches (lit w ++ r)%list s <->
            exists t, s = w ++ t /\ Matches r t.
Proof.
  induction w as [|c w IH]; intros s.
  - cbn [lit list_ascii_of_string List.map List.app]. split.
    + intros H. exists s. now rewrite app_nil_l.
    + intros (t & -> & H). now rewrite app_nil_l.
  - change (lit (String c w) ++ r)%list
      with (one (isChar c) :: (lit w ++ r)%list).
    cbn [Matches one cls rmin rmax]. split.
    + intros (run & tail & -> & Hall & Hlo & Hhi & Ht).
      destruct run as [|a [|b run]]; cbn in Hlo, Hhi; try lia.
      apply Forall_cons in Hall as [Ha _]. apply Ascii.eqb_eq in Ha. subst a.
      apply IH in Ht as (t & -> & Ht). exists t. split; [|exact Ht].
      now rewrite !app_cons, app_nil_l.
    + intros (t & -> & Ht). exists (String c ""), (w ++ t).
      rewrite !app_cons, app_nil_l. repeat split; auto.
      * constructor; [apply Ascii.eqb_refl|constructor].
      * apply IH. eauto.
Qed.

Lemma Matches_lit w s : Matches (lit w) s <-> s = w.
Proof.
  rewrite <- (List.app_nil_r (lit w)), Matches_lit_app. cbn [Matches]. split.
  - intros (t & -> & ->). apply app_nil_r_s.
  - intros ->. exists "". now rewrite app_nil_r_s.
Qed.

Lemma dot_noLineBreak a : dot a = true <-> noLineBreak a.
Proof.
  unfold dot, noLineBreak, code. rewrite negb_true_iff, orb_false_iff.
  rewrite !N.eqb_neq. split; intros [H1 H2]; split; intros E.
  - subst a. now apply H1.
  - subst a. now apply H2.
  - apply H1. rewrite <- (ascii_N_embedding a), E. reflexivity.
  - apply H2. rewrite <- (ascii_N_embedding a), E. reflexivity.
Qed.

Lemma Matches_some_dots s :
  Matches [plus dot] s <-> s <> "" /\ Forall noLineBreak (chars s).
Proof.
  cbn [Matches plus cls rmin rmax]. split.
  - intros (run & tail & -> & Hall & Hlo & _ & ->). rewrite app_nil_r_s.
    split; [destruct run; [cbn in Hlo; lia|discriminate]|].
    eapply List.Forall_impl; [|exact Hall]. intros a. apply dot_noLineBreak.
  - intros [Hne Hall]. exists s, "". rewrite app_nil_r_s.
    repeat split; auto.
    + eapply List.Forall_impl; [|exact Hall]. intros a. apply dot_noLineBreak.
    + destruct s; [congruence|cbn; lia].
Qed.

Lemma endsWith_drop s w :
  endsWith s w = true <-> exists i, i <= String.length s /\ drop i s = w.
Proof.
  rewrite endsWith_spec. split.
  - intros [d ->]. exists (String.length d). rewrite length_app.
    split; [lia|apply drop_app_length].
  - intros (i & Hi & <-). exists (take i s). now rewrite take_drop.
Qed.

Lemma takeWhile_all f l : Forall (fun a => f a = true) (takeWhile f l).
Proof.
  induction l as [|a l IH]; cbn; [constructor|].
  destruct (f a) eqn:E; constructor; assumption.
Qed.

Lemma basename_notSep p : Forall notSep (chars (basename p)).
Proof.
  unfold basename. rewrite chars_string_of_list. apply List.Forall_rev.
  eapply List.Forall_impl; [|apply takeWhile_all].
  intros a Ha. apply negb_true_iff, Ascii.eqb_neq in Ha. exact Ha.
Qed.

Lemma test_blocked name :
  existsb (fun pattern => test pattern name) BLOCKED_FILE_PATTERNS = true <->
  name = ".env" \/
  (exists rest, name = ".env." ++ rest /\ rest <> "" /\
                Forall noLineBreak (chars rest)) \/
  endsWith name ".pem" = true \/ endsWith name ".key" = true.
Proof.
  unfold BLOCKED_FILE_PATTERNS. cbn [existsb test fromStart body].
  rewrite orb_false_r, !orb_true_iff.
  assert (Hm : forall r, (match matchToEnd r name with
                          | Some _ => true | None => false end) = true
                         <-> Matches r name).
  { intros r. rewrite <- matchToEnd_iff.
    destruct (matchToEnd r name); split; eauto; try discriminate.
    intros [n H]. discriminate. }
  rewrite !Hm, !searchToEnd_iff, Matches_lit, Matches_lit_app.
  rewrite !endsWith_drop.
  split.
  - intros [H|[(t & -> & H)|[(i & Hi & H)|(i & Hi & H)]]].
    + now left.
    + right; left. apply Matches_some_dots in H as [Hne Hall]. eauto.
    + right; right; left. apply Matches_lit in H. eauto.
    + right; right; right. apply Matches_lit in H. eauto.
  - intros [H|[(rest & -> & Hne & Hall)|[(i & Hi & H)|(i & Hi & H)]]].
    + now left.
    + right; left. exists rest. split; [reflexivity|].
      now apply Matches_some_dots.
    + right; right; left. exists i. split; [exact Hi|]. now apply Matches_lit.
    + right; right; right. exists i. split; [exact Hi|]. now apply Matches_lit.
Qed.

(** X21. [isSecretFile] looks at the last segment of the path only.  It
    flags a path when that name is neither .env.example nor
    .env.template and is .env, or .env. followed by at least one
    character and no line break, or ends in .pem or in .key.
    [findSecretFiles] keeps exactly the flagged paths. *)
Theorem X21_isSecretFile_rules (filePath : string) :
  let name := basename filePath in
  Forall notSep (chars name) /\
  (isSecretFile filePath = true <->
   ~ In name ALLOWED_EXCEPTIONS /\
   (name = ".env" \/
    (exists rest, name = ".env." ++ rest /\ rest <> "" /\
                  Forall noLineBreak (chars rest)) \/
    endsWith name ".pem" = true \/ endsWith name ".key" = true)) /\
  ALLOWED_EXCEPTIONS = [".env.example"; ".env.template"] /\
  (forall (filePaths : list string) (f : string),
      In f (findSecretFiles filePaths) <->
      In f filePaths /\ isSecretFile f = true).
Proof.
  cbv zeta. split; [apply basename_notSep|]. split; [|split; [reflexivity|]].
  - unfold isSecretFile.
    destruct (existsb (String.eqb (basename filePath)) ALLOWED_EXCEPTIONS)
      eqn:Ex.
    + split; [discriminate|]. intros [Hn _]. exfalso. apply Hn.
      apply existsb_exists in Ex as (x & Hx & E).
      apply String.eqb_eq in E. now subst.
    + rewrite test_blocked. split; [|tauto]. intros H. split; [|exact H].
      intros Hin. apply not_true_iff_false in Ex. apply Ex.
      apply existsb_exists. exists (basename filePath).
      split; [exact Hin|apply String.eqb_refl].
  - intros filePaths f. unfold findSecretFiles. apply filter_In.
Qed.

End SecretFileFacts.

Section DistinctFacts.

Lemma distinct_loop names :
  forall seen,
    List.NoDup seen ->
    let out := fold_left
                 (fun seen x => if existsb (String.eqb x) seen then seen
                                else (seen ++ [x])%list) names seen in
    List.NoDup out /\ forall x, In x out <-> In x seen \/ In x names.
Proof.
  induction names as [|n names IH]; intros seen Hnd; cbv zeta.
  - cbn. split; [exact Hnd|]. intros x. tauto.
  - cbn [fold_left].
    destruct (existsb (String.eqb n) seen) eqn:E.
    + destruct (IH seen Hnd) as [H1 H2]. split; [exact H1|].
      intros x. rewrite H2. cbn [In].
      apply existsb_exists in E as (y & Hy & Ey). apply String.eqb_eq in Ey.
      subst y. split; [tauto|]. intros [H|[<-|H]]; auto.
    + assert (Hn : ~ In n seen).
      { intros Hin. apply not_true_iff_false in E. apply E.
        apply existsb_exists. exists n. split; [exact Hin|apply String.eqb_refl]. }
      assert (Hnd' : List.NoDup (seen ++ [n])).
      { apply List.NoDup_app. repeat split; auto.
        - repeat constructor. intros [].
        - intros x Hx [<-|[]]. contradiction. }
      destruct (IH (seen ++ [n])%list Hnd') as [H1 H2]. split; [exact H1|].
      intros x. rewrite H2, in_app_iff. cbn [In]. tauto.
Qed.

Lemma distinct_spec names :
  List.NoDup (Loop.distinct names) /\
  forall x, In x (Loop.distinct names) <-> In x names.
Proof.
  destruct (distinct_loop names [] (List.NoDup_nil _)) as [H1 H2].
  split; [exact H1|]. intros x. unfold Loop.distinct. rewrite H2. cbn. tauto.
Qed.

End DistinctFacts.

Section PreflightFacts.
Import JsString Preflight.
Context {G : Type}.
Variable git : Git G.

(** X22. [getChangedFiles] returns every file that git reports as
    modified, created, deleted or as the new name of a renamed file, each
    of them once; when git cannot be asked it returns no file at all.
    Git is asked once. *)
Theorem X22_getChangedFiles_union (wsPath : string) (g : G) :
  let files := fst (getChangedFiles git wsPath g) in
  snd (getChangedFiles git wsPath g) = snd (status git wsPath g) /\
  List.NoDup files /\
  match fst (status git wsPath g) with
  | Ok st =>
      forall f,
        In f files <->
        In f (modified st) \/ In f (created st) \/ In f (deleted st) \/
        exists old, In (old, f) (renamed st)
  | Throw _ => files = []
  end.
Proof.
  cbv zeta. unfold getChangedFiles.
  destruct (status git wsPath g) as [[st|e] g']; cbn [fst snd].
  - split; [reflexivity|].
    destruct (distinct_spec (modified st ++ created st ++ deleted st
                               ++ List.map snd (renamed st))) as [H1 H2].
    split; [exact H1|]. intros f. rewrite H2, !in_app_iff, in_map_iff.
    split.
    + intros [H|[H|[H|([old f'] & <- & H)]]]; eauto 6.
    + intros [H|[H|[H|[old H]]]]; auto.
      right; right; right. exists (old, f). auto.
  - repeat split. constructor.
Qed.

(** X23. [runPreflightChecks] passes only off main and master.  A
    repository that git reports as not clean, or that git cannot report
    on, fails the check as dirty, with the branch unknown, and nothing
    is checked out.  Otherwise the check passes and names the current
    branch, or the branch feat/ai/<taskId> that it has created because
    the current branch was main, master or not known.  It throws only
    what git throws in this second step. *)
Theorem X23_preflight_leaves_main (wsPath taskId : string) (g : G) :
  let g1 := snd (status git wsPath g) in
  match runPreflightChecks git wsPath taskId g with
  | (Ok r, g') =>
      if passed r then
        fst (isRepoDirty git wsPath g) = false /\
        dirty r = false /\ issues r = [] /\
        branch r <> "main" /\ branch r <> "master" /\
        (branch r = "feat/ai/" ++ taskId \/
         exists st, fst (status git wsPath g1) = Ok st /\
                    current st = Some (branch r))
      else
        fst (isRepoDirty git wsPath g) = true /\
        dirty r = true /\ branch r = "unknown" /\
        issues r = ["Repository has uncommitted changes"] /\
        g' = g1
  | (Throw e, _) =>
      fst (isRepoDirty git wsPath g) = false /\
      fst (ensureTaskBranch git wsPath taskId g1) = Throw e
  end.
Proof.
  cbv zeta. unfold runPreflightChecks, isRepoDirty.
  destruct (status git wsPath g) as [[st|e] g1] eqn:Es; cbn [fst snd].
  - destruct (isClean st); cbn [negb]; [|cbn; auto].
    unfold ensureTaskBranch.
    destruct (status git wsPath g1) as [[st1|e1] g2]; cbn [fst snd]; [|auto].
    destruct (String.eqb_spec (orMain (current st1)) "main") as [Em|Em];
      cbn [negb andb].
    + destruct (checkoutLocalBranch git wsPath _ g2) as [[[]|e2] g3];
        cbn [fst snd passed dirty issues branch]; [|auto].
      repeat split; auto; discriminate.
    + destruct (String.eqb_spec (orMain (current st1)) "master") as [Ea|Ea];
        cbn [negb andb].
      * destruct (checkoutLocalBranch git wsPath _ g2) as [[[]|e2] g3];
          cbn [fst snd passed dirty issues branch]; [|auto].
        repeat split; auto; discriminate.
      * cbn [fst snd passed dirty issues branch]. repeat split; auto.
        right. exists st1. split; [reflexivity|].
        unfold orMain in *. destruct (current st1) as [name|]; [|congruence].
        destruct (String.eqb_spec name ""); [congruence|reflexivity].
  - cbn. auto.
Qed.

End PreflightFacts.

(** ** cli.ts *)

Section CliFacts.
Import JsString Cli.

Lemma parseLoop_result cwd args :
  forall command0 repo0 command repo,
    parseLoop cwd args command0 repo0 = Parsed command repo ->
    (command = command0 \/ In command args /\ startsWith command "-" = false) /\
    (repo = Path.resolve cwd repo0 \/ repo = Path.resolve cwd cwd \/
     exists value, In value args /\ value <> "" /\
                   repo = Path.resolve cwd value).
Proof.
  remember (List.length args) as n eqn:En.
  revert args En. induction n as [n IHn] using lt_wf_ind. intros args En.
  assert (IH : forall rest command0 repo0 command repo,
    List.length rest < List.length args ->
    parseLoop cwd rest command0 repo0 = Parsed command repo ->
    (command = command0 \/
     In command rest /\ startsWith command "-" = false) /\
    (repo = Path.resolve cwd repo0 \/ repo = Path.resolve cwd cwd \/
     exists value, In value rest /\ value <> "" /\
                   repo = Path.resolve cwd value)).
  { intros rest c0 r0 c r Hlt. apply (IHn (List.length rest)); [lia|reflexivity]. }
  clear IHn En n.
  intros command0 repo0 command repo H.
  destruct args as [|arg rest].
  - cbn in H. injection H as <- <-. auto.
  - cbn [parseLoop] in H.
    destruct (String.eqb arg "--help" || String.eqb arg "-h"); [discriminate|].
    destruct (String.eqb arg "--version" || String.eqb arg "-v");
      [discriminate|].
    destruct (String.eqb arg "--repo" || String.eqb arg "-r").
    + destruct rest as [|value rest'].
      * injection H as <- <-. auto.
      * apply IH in H; [|cbn [List.length]; lia]. destruct H as [Hc Hr]. split.
        -- destruct Hc as [->|[Hin Hs]]; [now left|].
           right. split; [now right; right|exact Hs].
        -- destruct Hr as [Hr|[Hr|(v & Hv & Hne & Hr)]].
           ++ destruct (String.eqb_spec value "") as [->|Hne]; [now right; left|].
              right; right. exists value. split; [now right; left|]. auto.
           ++ now right; left.
           ++ right; right. exists v. split; [now right; right|]. auto.
    + destruct (negb (startsWith arg "-") && String.eqb command0 "") eqn:E.
      * apply IH in H; [|cbn [List.length]; lia]. destruct H as [Hc Hr]. split.
        -- right. destruct Hc as [->|[Hin Hs]].
           ++ split; [now left|].
              apply andb_true_iff in E as [E _]. now apply negb_true_iff in E.
           ++ split; [now right|exact Hs].
        -- destruct Hr as [Hr|[Hr|(v & Hv & Hne & Hr)]]; auto.
           right; right. exists v. split; [now right|]. auto.
      * apply IH in H; [|cbn [List.length]; lia]. destruct H as [Hc Hr]. split.
        -- destruct Hc as [->|[Hin Hs]]; [now left|].
           right. split; [now right|exact Hs].
        -- destruct Hr as [Hr|[Hr|(v & Hv & Hne & Hr)]]; auto.
           right; right. exists v. split; [now right|]. auto.
Qed.

Lemma parseLoop_exits cwd args :
  Forall (fun a => a <> "--repo" /\ a <> "-r") args ->
  forall command0 repo0,
    (exists command repo, parseLoop cwd args command0 repo0
                          = Parsed command repo) <->
    Forall (fun a => a <> "--help" /\ a <> "-h" /\
                     a <> "--version" /\ a <> "-v") args.
Proof.
  induction 1 as [|arg rest [Hr1 Hr2] _ IH]; intros command0 repo0.
  - cbn. split; [constructor|eauto].
  - cbn [parseLoop].
    destruct (String.eqb_spec arg "--help") as [->|H1]; cbn [orb].
    { split; [intros (c & r & E); discriminate|].
      intros Hf. apply Forall_cons in Hf as [(? & _) _]. congruence. }
    destruct (String.eqb_spec arg "-h") as [->|H2]; cbn [orb].
    { split; [intros (c & r & E); discriminate|].
      intros Hf. apply Forall_cons in Hf as [(_ & ? & _) _]. congruence. }
    destruct (String.eqb_spec arg "--version") as [->|H3]; cbn [orb].
    { split; [intros (c & r & E); discriminate|].
      intros Hf. apply Forall_cons in Hf as [(_ & _ & ? & _) _]. congruence. }
    destruct (String.eqb_spec arg "-v") as [->|H4]; cbn [orb].
    { split; [intros (c & r & E); discriminate|].
      intros Hf. apply Forall_cons in Hf as [(_ & _ & _ & ?) _]. congruence. }
    destruct (String.eqb_spec arg "--repo"); [congruence|].
    destruct (String.eqb_spec arg "-r"); [congruence|]. cbn [orb].
    destruct (negb (startsWith arg "-") && String.eqb command0 "");
      rewrite IH; (split; [intros Hf; constructor; auto|
                           intros Hf; now apply Forall_cons in Hf as [_ Hf]]).
Qed.

(** X24. What [parseArgs] returns: the command is an argument that does
    not start with a dash, or empty when there is none; the repository is
    an absolute, normalised path, resolved from the value after a [--repo]
    or, without one, or with an empty or missing value, from the working
    directory.  Without [--repo] in the arguments it returns exactly when
    no argument asks for the usage or the version; the argument that
    follows [--repo] is its value whatever it looks like, [--help]
    included. *)
Theorem X24_parseArgs_result (cwd : string) (args : list string) :
  (forall command repo,
      parseArgs cwd args = Parsed command repo ->
      startsWith command "-" = false /\
      (command = "" \/ In command args) /\
      (exists S, Forall plainSeg S /\ repo = pathOf S) /\
      (repo = Path.resolve cwd cwd \/
       exists value, In value args /\ value <> "" /\
                     repo = Path.resolve cwd value)) /\
  (Forall (fun a => a <> "--repo" /\ a <> "-r") args ->
   ((exists command repo, parseArgs cwd args = Parsed command repo) <->
    Forall (fun a => a <> "--help" /\ a <> "-h" /\
                     a <> "--version" /\ a <> "-v") args)) /\
  (forall value,
      value <> "" ->
      parseArgs cwd ["--repo"; value] = Parsed "" (Path.resolve cwd value)).
Proof.
  split; [|split].
  - intros command repo H. unfold parseArgs in H.
    apply parseLoop_result in H as [Hc Hr].
    assert (Hs : startsWith command "-" = false)
      by (destruct Hc as [->|[_ Hs]]; [reflexivity|exact Hs]).
    split; [exact Hs|]. split; [tauto|]. split.
    + destruct Hr as [->|[->|(v & _ & _ & ->)]]; apply resolve_plain.
    + tauto.
  - intros Hf. now apply parseLoop_exits.
  - intros value Hv. unfold parseArgs. cbn.
    destruct (String.eqb_spec value ""); [contradiction|reflexivity].
Qed.

End CliFacts.

(** ** [init] *)

Section InitFacts.
Import JsString WatcherInit.
Variable h : Host.
Variable config : Loop.WatcherConfig.

Lemma includes_app_r s t sub :
  includes t sub = true -> includes (s ++ t) sub = true.
Proof.
  intros H. induction s as [|a s IH]; [now rewrite app_nil_l|].
  rewrite app_cons. cbn [includes]. rewrite IH. apply orb_true_r.
Qed.

Lemma marker_includes : includes marker Loop.HANDOFF_DIR = true.
Proof. vm_compute. reflexivity. Qed.

Lemma mkdir_ok p root (fs fs1 : gmap string node) :
  FsSafe.mkdir h p root fs = (Ok tt, fs1) ->
  FsSafe.isContained h p root = true /\
  fault h (OpMkdir (Path.resolve (cwd h) p)) = false /\
  Forall (fun q => Fs.lstat fs1 q = Some Dir) (Fs.chain (Path.resolve (cwd h) p)) /\
  Fs.lstat fs1 (Path.resolve (cwd h) p) = Some Dir.
Proof.
  unfold FsSafe.mkdir. rewrite isContained_resolved.
  destruct (FsSafe.isContained h p root); [|discriminate]. cbn [negb].
  unfold bind. pose proof (validateParentChain_pure h p root fs) as Hp.
  destruct (FsSafe.validateParentChain h p root fs) as [[[]|e] fs0];
    cbn [snd] in Hp; subst fs0; [|discriminate].
  intros H. pose proof (mkdirRecursive_makes _ _ _ _ _ H) as Hd.
  apply mkdirRecursive_ok in H as [Hf Hc]. auto.
Qed.

Lemma mkdir_keeps p root (fs : gmap string node) q v :
  Fs.lstat fs q = Some v ->
  Fs.lstat (snd (FsSafe.mkdir h p root fs)) q = Some v.
Proof.
  intros Hq. unfold FsSafe.mkdir. rewrite guarded_pure.
  destruct (FsSafe.isContained h p root); [|exact Hq].
  destruct (fst _); [|exact Hq]. now apply mkdirRecursive_keeps_lstat.
Qed.

Lemma mkdir_again p root (fs : gmap string node) :
  FsSafe.isContained h p root = true ->
  fault h (OpMkdir (Path.resolve (cwd h) p)) = false ->
  Forall (fun q => Fs.lstat fs q = Some Dir) (Fs.chain (Path.resolve (cwd h) p)) ->
  FsSafe.mkdir h p root fs = (Ok tt, fs).
Proof.
  intros Hc Hf Hd. unfold FsSafe.mkdir. rewrite isContained_resolved, Hc.
  cbn [negb]. unfold bind. rewrite validateParentChain_below, Hc. cbv zeta.
  rewrite firstSymlink_none.
  - unfold Fs.mkdirRecursive. rewrite Hf. now apply mkdirChain_noop.
  - pose proof (contained_suffix h _ _ Hc) as ES.
    destruct (resolve_segments (cwd h) p) as [HS EP].
    rewrite EP in Hd. rewrite List.Forall_forall in Hd |- *.
    intros q Hq. exists Dir. split; [|reflexivity]. apply Hd.
    rewrite ES. apply below_in_chain; [|exact Hq].
    rewrite <- ES. now apply plain_clean.
Qed.

Lemma made_keeps (fs fs' : gmap string node) dir :
  (forall q, Fs.lstat fs q = Some Dir -> Fs.lstat fs' q = Some Dir) ->
  made h config fs dir -> made h config fs' dir.
Proof.
  intros Hk (Hc & Hf & Hd & Hl). repeat split; auto.
  eapply List.Forall_impl; [|exact Hd]. intros q. apply Hk.
Qed.

Lemma mkdirEach_keeps dirs :
  forall (fs : gmap string node) q v,
    Fs.lstat fs q = Some v ->
    Fs.lstat (snd (mkdirEach h config dirs fs)) q = Some v.
Proof.
  induction dirs as [|dir rest IH]; intros fs q v Hq; [exact Hq|].
  cbn [mkdirEach]. unfold bind.
  pose proof (mkdir_keeps (Path.join [Loop.handoffPath config; dir])
                (Loop.repoPath config) fs q v Hq) as Hm.
  destruct (FsSafe.mkdir h _ _ fs) as [[[]|e] fs1]; cbn [snd] in Hm |- *;
    [now apply IH|exact Hm].
Qed.

Lemma mkdirEach_ok dirs :
  forall (fs fs' : gmap string node),
    mkdirEach h config dirs fs = (Ok tt, fs') -> Forall (made h config fs') dirs.
Proof.
  induction dirs as [|dir rest IH]; intros fs fs' H; [constructor|].
  cbn [mkdirEach] in H. unfold bind in H.
  destruct (FsSafe.mkdir h _ _ fs) as [[[]|e] fs1] eqn:Em; [|discriminate].
  constructor; [|now apply (IH fs1)].
  apply mkdir_ok in Em as (Hc & Hf & Hd & Hl).
  assert (Hk : forall q, Fs.lstat fs1 q = Some Dir -> Fs.lstat fs' q = Some Dir).
  { intros q Hq. replace fs' with (snd (mkdirEach h config rest fs1))
      by now rewrite H. now apply mkdirEach_keeps. }
  apply (made_keeps fs1); [exact Hk|]. repeat split; auto.
Qed.

Lemma mkdirEach_again dirs (fs : gmap string node) :
  Forall (made h config fs) dirs -> mkdirEach h config dirs fs = (Ok tt, fs).
Proof.
  induction 1 as [|dir rest (Hc & Hf & Hd & _) _ IH]; [reflexivity|].
  cbn [mkdirEach]. unfold bind. rewrite mkdir_again by assumption. exact IH.
Qed.

Lemma init_steps fs :
  init h config fs = bind (mkdirEach h config dirValues)
                          (fun _ => gitignoreStep h config) fs.
Proof. reflexivity. Qed.

Lemma gitignoreStep_ok (fs fs' : gmap string node) :
  gitignoreStep h config fs = (Ok tt, fs') ->
  (forall q, Fs.lstat fs q = Some Dir -> Fs.lstat fs' q = Some Dir) /\
  FsSafe.isContained h (gitignorePath config) (Loop.repoPath config) = true /\
  exists content,
    Fs.lstat fs' (Path.resolve (cwd h) (gitignorePath config))
    = Some (File content) /\
    includes content Loop.HANDOFF_DIR = true /\
    (forall old,
        Fs.lstat fs (Path.resolve (cwd h) (gitignorePath config))
        = Some (File old) ->
        if includes old Loop.HANDOFF_DIR then content = old /\ fs' = fs
        else content = old ++ NL ++ marker \/ content = marker).
Proof.
  unfold gitignoreStep, tryCatch. unfold bind at 1.
  rewrite read_spec.
  set (g := gitignorePath config). set (root := Loop.repoPath config).
  assert (Hfallback : forall fs1,
    (forall q, Fs.lstat fs q = Some Dir -> Fs.lstat fs1 q = Some Dir) ->
    FsSafe.writeAtomic h g marker root fs1 = (Ok tt, fs') ->
    (forall q, Fs.lstat fs q = Some Dir -> Fs.lstat fs' q = Some Dir) /\
    FsSafe.isContained h g root = true /\
    Fs.lstat fs' (Path.resolve (cwd h) g) = Some (File marker)).
  { intros fs1 Hk Hw. pose proof (writeAtomic_ok h _ _ _ _ _ Hw) as [Hc Hl].
    repeat split; auto. intros q Hq.
    replace fs' with (snd (FsSafe.writeAtomic h g marker root fs1))
      by now rewrite Hw.
    now apply writeAtomic_keeps_dir, Hk. }
  destruct (FsSafe.isContained h g root) eqn:Hc.
  - destruct (Fs.lstat fs (Path.resolve (cwd h) g)) as [[c| |t]|] eqn:El.
    + destruct (includes c Loop.HANDOFF_DIR) eqn:Ei; cbn [negb].
      * unfold ret. intros E. injection E as <-.
        repeat split; auto. exists c. repeat split; auto.
        intros old E. injection E as <-. rewrite Ei. auto.
      * destruct (FsSafe.writeAtomic h g (c ++ NL ++ marker) root fs)
          as [[[]|e] fs1] eqn:Ew.
        -- intros E. injection E as <-.
           pose proof (writeAtomic_ok h _ _ _ _ _ Ew) as [_ Hl].
           split; [|split; [reflexivity|]].
           ++ intros q Hq.
              replace fs1 with (snd (FsSafe.writeAtomic h g (c ++ NL ++ marker)
                                       root fs)) by now rewrite Ew.
              now apply writeAtomic_keeps_dir.
           ++ exists (c ++ NL ++ marker). split; [exact Hl|]. split.
              ** rewrite <- app_assoc_s. apply includes_app_r, marker_includes.
              ** intros old E. injection E as <-. rewrite Ei. now left.
        -- intros Hw. apply Hfallback in Hw as (Hk & _ & Hl).
           ++ split; [exact Hk|]. split; [reflexivity|].
              exists marker. split; [exact Hl|].
              split; [apply marker_includes|].
              intros old E. injection E as <-. rewrite Ei. now right.
           ++ intros q Hq.
              replace fs1 with (snd (FsSafe.writeAtomic h g (c ++ NL ++ marker)
                                       root fs)) by now rewrite Ew.
              now apply writeAtomic_keeps_dir.
    + intros Hw. apply Hfallback in Hw as (Hk & _ & Hl); [|auto].
      split; [exact Hk|]. split; [reflexivity|]. exists marker.
      split; [exact Hl|]. split; [apply marker_includes|]. discriminate.
    + intros Hw. apply Hfallback in Hw as (Hk & _ & Hl); [|auto].
      split; [exact Hk|]. split; [reflexivity|]. exists marker.
      split; [exact Hl|]. split; [apply marker_includes|]. discriminate.
    + intros Hw. apply Hfallback in Hw as (Hk & _ & Hl); [|auto].
      split; [exact Hk|]. split; [reflexivity|]. exists marker.
      split; [exact Hl|]. split; [apply marker_includes|]. discriminate.
  - intros Hw. apply Hfallback in Hw as (_ & Hc' & _); [congruence|auto].
Qed.

Lemma gitignoreStep_again (fs : gmap string node) content :
  FsSafe.isContained h (gitignorePath config) (Loop.repoPath config) = true ->
  Fs.lstat fs (Path.resolve (cwd h) (gitignorePath config))
  = Some (File content) ->
  includes content Loop.HANDOFF_DIR = true ->
  gitignoreStep h config fs = (Ok tt, fs).
Proof.
  intros Hc Hl Hi. unfold gitignoreStep, tryCatch. unfold bind.
  rewrite read_spec, Hc, Hl, Hi. reflexivity.
Qed.

End InitFacts.

Section InitTheorems.
Import JsString WatcherInit.
Variable h : Host.
Variable config : Loop.WatcherConfig.

Lemma init_ok (fs fs' : gmap string node) :
  init h config fs = (Ok tt, fs') ->
  Forall (made h config fs') dirValues /\
  FsSafe.isContained h (gitignorePath config) (Loop.repoPath config) = true /\
  exists content,
    Fs.lstat fs' (Path.resolve (cwd h) (gitignorePath config))
    = Some (File content) /\
    includes content Loop.HANDOFF_DIR = true.
Proof.
  rewrite init_steps. unfold bind. intros H.
  destruct (mkdirEach h config dirValues fs) as [[[]|e] fs1] eqn:Em;
    [|discriminate].
  apply mkdirEach_ok in Em.
  apply gitignoreStep_ok in H as (Hk & Hc & content & Hl & Hi & _).
  split; [|eauto].
  eapply List.Forall_impl; [|exact Em]. intros dir. now apply made_keeps.
Qed.

(** X25. After a successful [init] the eight directories of the hand-off
    tree are there, tasks, running, results, patches, logs, locks, tmp
    and meta, each a directory, and .gitignore is a regular file that
    names .ai-handoff.  A .gitignore that named it already is left as it
    was; to one that did not, the marker is appended after the old
    content, unless that write fails and the fallback writes the marker
    alone. *)
Theorem X25_init_makes_the_tree (fs fs' : gmap string node) :
  init h config fs = (Ok tt, fs') ->
  dirValues = ["tasks"; "running"; "results"; "patches"; "logs"; "locks";
               "tmp"; "meta"] /\
  Forall (fun dir =>
            Fs.lstat fs'
              (Path.resolve (cwd h)
                 (Path.join [Loop.handoffPath config; dir])) = Some Dir)
         dirValues /\
  exists content,
    FsSafe.read h (gitignorePath config) (Loop.repoPath config) fs'
    = (Ok content, fs') /\
    includes content ".ai-handoff" = true /\
    forall old,
      FsSafe.read h (gitignorePath config) (Loop.repoPath config) fs
      = (Ok old, fs) ->
      if includes old ".ai-handoff" then content = old
      else content = old ++ NL ++ marker \/ content = marker.
Proof.
  intros H. split; [reflexivity|].
  pose proof (init_ok _ _ H) as (Hm & Hc & _).
  split.
  { eapply List.Forall_impl; [|exact Hm]. now intros dir (_ & _ & _ & Hl). }
  rewrite init_steps in H. unfold bind in H.
  destruct (mkdirEach h config dirValues fs) as [[[]|e] fs1] eqn:Em;
    [|discriminate].
  apply gitignoreStep_ok in H as (_ & _ & content & Hl & Hi & Hold).
  exists content. split; [|split; [exact Hi|]].
  - rewrite read_spec, Hc, Hl. reflexivity.
  - intros old Hr. apply read_ok in Hr as (_ & _ & Hlo).
    assert (Hl1 : Fs.lstat fs1 (Path.resolve (cwd h) (gitignorePath config))
                  = Some (File old)).
    { replace fs1 with (snd (mkdirEach h config dirValues fs))
        by now rewrite Em. now apply mkdirEach_keeps. }
    specialize (Hold old Hl1).
    change Loop.HANDOFF_DIR with ".ai-handoff" in Hold.
    destruct (includes old ".ai-handoff"); [now destruct Hold|exact Hold].
Qed.

(** X26. [init] can be run again: on the file system that a successful
    [init] has left, a second [init] succeeds and changes nothing. *)
Theorem X26_init_again_changes_nothing (fs fs' : gmap string node) :
  init h config fs = (Ok tt, fs') ->
  init h config fs' = (Ok tt, fs').
Proof.
  intros H. apply init_ok in H as (Hm & Hc & content & Hl & Hi).
  rewrite init_steps. unfold bind.
  rewrite mkdirEach_again by exact Hm.
  now apply (gitignoreStep_again h config fs' content).
Qed.

End InitTheorems.

(** ** The secret incident *)

Section ShaShape.
Import JsString.

Lemma round_length st kw :
  List.length st = 8 -> List.length (Sha256.round st kw) = 8.
Proof.
  intros H. do 9 (destruct st as [|? st]; try discriminate). reflexivity.
Qed.

Lemma rounds_length kws :
  forall st, List.length st = 8 ->
             List.length (fold_left Sha256.round kws st) = 8.
Proof.
  induction kws as [|kw kws IH]; intros st H; [exact H|].
  cbn [fold_left]. apply IH. now apply round_length.
Qed.

Lemma compress_length hs block :
  List.length hs = 8 -> List.length (Sha256.compress hs block) = 8.
Proof.
  intros H. unfold Sha256.compress.
  rewrite List.length_map, List.length_combine, rounds_length by exact H.
  rewrite H. reflexivity.
Qed.

Lemma blocks_length fuel :
  forall hs words, List.length hs = 8 ->
                   List.length (Sha256.blocks fuel hs words) = 8.
Proof.
  induction fuel as [|fuel IH]; intros hs words H; [exact H|].
  cbn [Sha256.blocks]. destruct words; [exact H|].
  apply IH. now apply compress_length.
Qed.

Lemma hexDigit_is d : isHexDigit (hexDigit (d mod 16)).
Proof.
  unfold isHexDigit, hexDigit.
  assert (Hd : (d mod 16 < 16)%N) by now apply N.mod_lt.
  assert (Hn : N.to_nat (d mod 16) < 16) by lia.
  destruct (N.to_nat (d mod 16)) as [|[|[|[|[|[|[|[|[|[|[|[|[|[|[|[|n]]]]]]]]]]]]]]]];
    cbn; auto 20; lia.
Qed.

Lemma hexDigitsRev_are k : forall n, Forall isHexDigit (hexDigitsRev k n).
Proof.
  induction k as [|k IH]; intros n; cbn [hexDigitsRev]; constructor;
    [apply hexDigit_is|apply IH].
Qed.

Lemma toHex_are bytes n : Forall isHexDigit (chars (toHex bytes n)).
Proof.
  unfold toHex. rewrite chars_string_of_list. apply List.Forall_rev.
  apply hexDigitsRev_are.
Qed.

Lemma concat_hex (hs : list N) :
  String.length (String.concat "" (List.map (toHex 4) hs))
  = 8 * List.length hs /\
  Forall isHexDigit (chars (String.concat "" (List.map (toHex 4) hs))).
Proof.
  induction hs as [|x hs [IH1 IH2]]; [split; [reflexivity|constructor]|].
  cbn [List.map String.concat List.length].
  destruct (List.map (toHex 4) hs) as [|y ys] eqn:E.
  - destruct hs; [|discriminate]. split; [apply toHex_length|apply toHex_are].
  - rewrite app_nil_l, length_app, chars_app, toHex_length. split; [lia|].
    apply List.Forall_app. split; [apply toHex_are|exact IH2].
Qed.

Lemma sha256_hex_shape s :
  String.length (Sha256.hex s) = 64 /\
  Forall isHexDigit (chars (Sha256.hex s)).
Proof.
  unfold Sha256.hex.
  destruct (concat_hex (Sha256.blocks
                          (List.length (Sha256.toWords
                             (List.length (Sha256.pad (Sha256.utf8 s)))
                             (Sha256.pad (Sha256.utf8 s))))
                          Sha256.H0
                          (Sha256.toWords
                             (List.length (Sha256.pad (Sha256.utf8 s)))
                             (Sha256.pad (Sha256.utf8 s))))) as [H1 H2].
  rewrite blocks_length in H1 by reflexivity. auto.
Qed.

Lemma take_chars n s : chars (take n s) = List.firstn n (chars s).
Proof.
  revert s. induction n as [|n IH]; intros [|a s]; cbn; try reflexivity.
  f_equal. apply IH.
Qed.

Lemma incidentHash_shape taskId names :
  let hash := slice (Sha256.hex (taskId ++ JsString.join "," names)) 0
                    (Some 16%Z) in
  String.length hash = 16 /\ Forall isHexDigit (chars hash).
Proof.
  cbv zeta. change 16%Z with (Z.of_nat 16). rewrite slice_head.
  destruct (sha256_hex_shape (taskId ++ JsString.join "," names)) as [H1 H2].
  rewrite length_take, H1, take_chars. split; [reflexivity|].
  rewrite <- (List.firstn_skipn 16) in H2.
  now apply List.Forall_app in H2 as [H2 _].
Qed.

End ShaShape.

Section IncidentShape.
Import JsString Js.
Variable h : Host.
Variable tools : Loop.Tools.
Variable config : Loop.WatcherConfig.

Lemma findMatches_names this text lineOffset m :
  In m (Scanner.findMatches this text lineOffset) ->
  In (Scanner.pattern m) (List.map fst (Scanner.patterns this)).
Proof.
  intros H. apply findMatches_In in H as (name & r & i & Hp & _ & ->).
  cbn [Scanner.matchAt Scanner.pattern]. apply in_map_iff.
  exists (name, r). auto.
Qed.

Lemma finalize_names this m :
  In m (Scanner.matches (fst (Scanner.finalize this))) ->
  In (Scanner.pattern m) (List.map fst (Scanner.patterns this)).
Proof.
  unfold Scanner.finalize.
  destruct (String.length (Scanner.overlapBuffer this) =? 0)%nat;
    [intros []|]. apply findMatches_names.
Qed.

Lemma allMatchesOf_names run m :
  In m (allMatchesOf run) ->
  In (Scanner.pattern m) (List.map fst Scanner.CORE_PATTERNS).
Proof.
  unfold allMatchesOf, Loop.scanOutputs.
  destruct (Scanner.scan (Scanner.new []) (Loop.stdout run))
    as [stdoutScan s1] eqn:E1.
  destruct (Scanner.scan s1 (Loop.stderr run)) as [stderrScan s2] eqn:E2.
  destruct (Scanner.finalize s2) as [finalScan s3] eqn:E3.
  pose proof (scan_reports_all (Scanner.new []) (Loop.stdout run)) as H1.
  pose proof (scan_state (Scanner.new []) (Loop.stdout run)) as (_ & _ & P1).
  pose proof (scan_reports_all s1 (Loop.stderr run)) as H2.
  pose proof (scan_state s1 (Loop.stderr run)) as (_ & _ & P2).
  rewrite E1 in H1, P1. rewrite E2 in H2, P2. cbn [fst snd] in *.
  assert (P0 : Scanner.patterns (Scanner.new []) = Scanner.CORE_PATTERNS)
    by apply List.app_nil_r.
  rewrite !in_app_iff. intros [H|[H|H]].
  - rewrite H1 in H. apply findMatches_names in H. now rewrite P0 in H.
  - rewrite H2 in H. apply findMatches_names in H. now rewrite P1, P0 in H.
  - pose proof (finalize_names s2 m) as Hf. rewrite E3 in Hf.
    specialize (Hf H). now rewrite P2, P1, P0 in Hf.
Qed.

Lemma processTask_secret (task : Task.Task) (fs fs' : gmap string node) r :
  Loop.processTask h tools config task fs = (Ok r, fs') ->
  Result.status r = Result.SecretDetected ->
  exists run,
    allMatchesOf run <> [] /\
    r = Result.createSecretDetectedResult h (Task.id task) (now h)
          (Loop.incidentOf (Task.id task) (allMatchesOf run)).
Proof.
  unfold Loop.processTask. unfold tryCatch at 1.
  match goal with |- context [match ?m fs with _ => _ end] =>
    destruct (m fs) as [[r0|e] fs1] eqn:E end.
  - intros H Hs. injection H as -> ->.
    unfold bind at 1 in E.
    destruct (Loop.moveTask h config _ _ _ fs) as [[[]|e] fs2]; [|discriminate].
    unfold bind at 1 in E.
    destruct (Loop.worktreeAdd tools _ _ _ fs2) as [[[]|e] fs3];
      [|discriminate].
    unfold bind at 1 in E.
    destruct (Loop.verifyLoop h tools config task (now h) _ _ [] true fs3)
      as [[[r'|[results ap]]|e] fs4] eqn:Ev; [| |discriminate].
    + unfold ret in E. injection E as <- _.
      apply verifyLoop_returns in Ev as (verify & fs0 & _ & Hne & ->). eauto.
    + exfalso. unfold bind in E.
      destruct (Loop.cleanupWorktree h tools config _ fs4) as [[[]|e] fs5];
        [|discriminate].
      destruct (FsSafe.unlink h _ _ fs5) as [[[]|e] fs6]; [|discriminate].
      destruct ap; unfold ret in E; injection E as <- _; discriminate.
  - intros H Hs. exfalso. unfold bind in H.
    destruct (Loop.cleanupWorktree h tools config _ fs1) as [[[]|e1] fs2];
      [|discriminate].
    destruct (tryCatch _ _ fs2) as [[[]|e2] fs3]; [|discriminate].
    unfold ret in H. injection H as <- _. discriminate.
Qed.

(** X27. A secret_detected result holds no text of the output: its
    incident names patterns of the catalog, each name once and at least
    one, counts at least as many matches as names, and carries a hash of
    sixteen hexadecimal digits; the result has no verify results and the
    fixed reason. *)
Theorem X27_incident_holds_names_only (task : Task.Task)
    (fs fs' : gmap string node) (r : Result.Result) :
  Loop.processTask h tools config task fs = (Ok r, fs') ->
  Result.status r = Result.SecretDetected ->
  exists incident,
    Result.secretIncident r = Some incident /\
    Result.patterns incident <> [] /\
    List.NoDup (Result.patterns incident) /\
    Forall (fun name => In name (List.map fst Scanner.CORE_PATTERNS))
           (Result.patterns incident) /\
    List.length (Result.patterns incident) <= Result.matchCount incident /\
    String.length (Result.incidentHash incident) = 16 /\
    Forall isHexDigit (chars (Result.incidentHash incident)) /\
    Result.verifyResults r = [] /\
    Result.reason r = Some "Secrets detected in output".
Proof.
  intros H Hs. destruct (processTask_secret _ _ _ _ H Hs) as (run & Hne & ->).
  eexists. split; [reflexivity|].
  cbn [Loop.incidentOf Result.patterns Result.matchCount Result.incidentHash
       Result.createSecretDetectedResult Result.verifyResults Result.reason].
  destruct (distinct_spec (List.map Scanner.pattern (allMatchesOf run)))
    as [Hnd Hin].
  destruct (incidentHash_shape (Task.id task)
              (List.map Scanner.pattern (allMatchesOf run))) as [Hl Hx].
  repeat split; auto.
  - destruct (allMatchesOf run) as [|m ms] eqn:Em; [congruence|].
    intros E. assert (Hm : In (Scanner.pattern m) (Loop.distinct
                              (List.map Scanner.pattern (m :: ms))))
      by (apply Hin; now left).
    rewrite E in Hm. destruct Hm.
  - apply List.Forall_forall. intros name Hn. apply Hin in Hn.
    apply in_map_iff in Hn as (m & <- & Hm). now apply allMatchesOf_names in Hm.
  - rewrite <- (List.length_map Scanner.pattern (allMatchesOf run)).
    apply List.NoDup_incl_length; [exact Hnd|].
    intros x Hx'. now apply Hin.
Qed.

End IncidentShape.

(** ** [run] and [processAll] *)

Section RunFacts.
Import JsString Js.
Variable h : Host.
Variable tools : Loop.Tools.
Variable config : Loop.WatcherConfig.

Lemma acquire_true (fs fs' : gmap string node) path :
  Loop.acquireWorkerLock h config fs = (Ok (true, path), fs') ->
  path = Some (Loop.lockPath config) /\
  exists fs2,
    FsSafe.writeAtomic h (Loop.lockPath config)
      (JSON_stringify h (Loop.ownLock h)) (Loop.repoPath config) fs2
    = (Ok tt, fs').
Proof.
  intros H. unfold Loop.acquireWorkerLock in H. unfold tryCatch at 1 in H.
  match type of H with context [match ?m fs with _ => _ end] =>
    destruct (m fs) as [[[got path']|e] fs1] eqn:E end;
    [|unfold ret in H; discriminate].
  injection H as -> -> ->.
  unfold bind at 1 in E.
  destruct (FsSafe.exists_ h (Loop.lockPath config) (Loop.repoPath config) fs)
    as [[ex|e] fs0]; [|discriminate].
  unfold bind at 1 in E.
  match type of E with context [match ?m fs0 with _ => _ end] =>
    destruct (m fs0) as [[proceed|e] fs2] end; [|discriminate].
  destruct proceed; [|unfold ret in E; discriminate].
  unfold bind in E.
  destruct (FsSafe.writeAtomic h _ _ _ fs2) as [[[]|e] fs3] eqn:Ew;
    [|discriminate].
  unfold ret in E. injection E as <- <-. eauto.
Qed.

Lemma release_written p content root (fs0 fs' : gmap string node) :
  FsSafe.writeAtomic h p content root fs0 = (Ok tt, fs') ->
  fault h (OpUnlink (Path.resolve (cwd h) p)) = false ->
  tryCatch (FsSafe.unlink h p root) (fun _ => ret tt) fs'
  = (Ok tt, delete (Path.resolve (cwd h) p) fs') /\
  String.eqb (Path.resolve (cwd h) p) "/" = false.
Proof.
  intros Hw Hf.
  pose proof (walk_after_writeAtomic h _ _ _ _ _ Hw) as Hwalk.
  pose proof (writeAtomic_ok h _ _ _ _ _ Hw) as [Hc Hl].
  assert (Hne : String.eqb (Path.resolve (cwd h) p) "/" = false).
  { destruct (String.eqb_spec (Path.resolve (cwd h) p) "/") as [E|];
      [|reflexivity].
    unfold Fs.lstat in Hl. rewrite E in Hl. discriminate. }
  split; [|exact Hne].
  unfold tryCatch, FsSafe.unlink.
  rewrite isContained_resolved, Hc. cbn [negb]. unfold bind.
  rewrite Hwalk. unfold Fs.unlink. now rewrite Hl, Hf.
Qed.

Lemma rounds_empty (fs : gmap string node) n :
  Task.loadTasks h (Path.join [Loop.handoffPath config; Loop.DIRS.tasks])
                 (Loop.repoPath config) fs = (Ok [], fs) ->
  Loop.rounds h tools config n fs = (Ok tt, fs).
Proof.
  intros Hl. induction n as [|n IH]; [reflexivity|].
  cbn [Loop.rounds]. unfold bind at 1. unfold Loop.runPass, bind at 1.
  rewrite Hl. cbn [Loop.processAll]. unfold ret at 1.
  destruct (Loop.singlePass config); [reflexivity|exact IH].
Qed.

Lemma rounds_throw (fs : gmap string node) n e :
  Task.loadTasks h (Path.join [Loop.handoffPath config; Loop.DIRS.tasks])
                 (Loop.repoPath config) fs = (Throw e, fs) ->
  Loop.rounds h tools config (S n) fs = (Throw e, fs).
Proof.
  intros Hl. cbn [Loop.rounds]. unfold bind at 1. unfold Loop.runPass, bind at 1.
  now rewrite Hl.
Qed.

(** X28. A run takes the lock and gives it back.  When the container
    engine and the image are there and the lock is acquired, a run that
    finds no task to load returns, and a run whose tasks directory cannot
    be read throws the error of the directory; in both cases the lock
    file is removed at the end, unless the system makes the removal
    fail, and nothing else is changed after the lock was taken. *)
Theorem X28_run_gives_the_lock_back (stopAfter : nat)
    (fs fs1 : gmap string node) (path : option string) :
  let lockFile := Path.resolve (cwd h) (Loop.lockPath config) in
  let tasksDir := Path.join [Loop.handoffPath config; Loop.DIRS.tasks] in
  Loop.isDockerAvailable tools = true ->
  Loop.isRunnerImageAvailable tools = true ->
  Loop.acquireWorkerLock h config fs = (Ok (true, path), fs1) ->
  fault h (OpUnlink lockFile) = false ->
  Fs.lstat (delete lockFile fs1) lockFile = None /\
  (forall q, q <> lockFile ->
             Fs.lstat (delete lockFile fs1) q = Fs.lstat fs1 q) /\
  match fst (Task.loadTasks h tasksDir (Loop.repoPath config) fs1) with
  | Ok [] =>
      Loop.run h tools config stopAfter fs = (Ok tt, delete lockFile fs1)
  | Ok (_ :: _) => True
  | Throw e =>
      Loop.run h tools config (S stopAfter) fs
      = (Throw e, delete lockFile fs1)
  end.
Proof.
  cbv zeta. intros Hd Hi Ha Hf.
  pose proof (acquire_true _ _ _ Ha) as (-> & fs0 & Hw).
  destruct (release_written _ _ _ _ _ Hw Hf) as [Hrel Hne].
  split; [now apply lstat_delete_eq|].
  split; [intros q Hq; apply lstat_delete_ne; congruence|].
  pose proof (loadTasks_pure h
                (Path.join [Loop.handoffPath config; Loop.DIRS.tasks])
                (Loop.repoPath config) fs1) as Hp.
  destruct (Task.loadTasks h _ _ fs1) as [[[|t ts]|e] fs1'] eqn:El;
    cbn [fst snd] in Hp |- *; subst fs1'; [|exact I|].
  - unfold Loop.run. rewrite Hd, Hi. cbn [negb]. unfold bind. rewrite Ha.
    cbn [fst snd negb]. unfold tryFinally.
    rewrite (rounds_empty fs1 stopAfter El).
    unfold Loop.releaseWorkerLock. now rewrite Hrel.
  - unfold Loop.run. rewrite Hd, Hi. cbn [negb]. unfold bind. rewrite Ha.
    cbn [fst snd negb]. unfold tryFinally.
    rewrite (rounds_throw fs1 stopAfter e El).
    unfold Loop.releaseWorkerLock. now rewrite Hrel.
Qed.

End RunFacts.

Section ProcessAllFacts.
Import JsString Js.
Variable h : Host.
Variable tools : Loop.Tools.
Variable config : Loop.WatcherConfig.

Lemma processTask_returns (task : Task.Task) (fs : gmap string node) :
  exists r fs',
    Loop.processTask h tools config task fs = (Ok r, fs') /\
    Result.taskId r = Task.id task.
Proof.
  unfold Loop.processTask. unfold tryCatch at 1.
  match goal with |- context [match ?m fs with _ => _ end] =>
    destruct (m fs) as [[r|e] fs1] eqn:E end.
  - exists r, fs1. split; [reflexivity|].
    unfold bind at 1 in E.
    destruct (Loop.moveTask h config _ _ _ fs) as [[[]|e] fs2]; [|discriminate].
    unfold bind at 1 in E.
    destruct (Loop.worktreeAdd tools _ _ _ fs2) as [[[]|e] fs3];
      [|discriminate].
    unfold bind at 1 in E.
    destruct (Loop.verifyLoop h tools config task (now h) _ _ [] true fs3)
      as [[[r'|[results ap]]|e] fs4] eqn:Ev; [| |discriminate].
    + unfold ret in E. injection E as <- _.
      apply verifyLoop_secret in Ev as [incident ->]. reflexivity.
    + unfold bind in E.
      destruct (Loop.cleanupWorktree h tools config _ fs4) as [[[]|e] fs5];
        [|discriminate].
      destruct (FsSafe.unlink h _ _ fs5) as [[[]|e] fs6]; [|discriminate].
      destruct ap; unfold ret in E; injection E as <- _; reflexivity.
  - destruct (cleanupWorktree_returns h tools config
                (Path.join [Loop.handoffPath config; Loop.DIRS.tmp;
                            "ws-" ++ Task.id task]) fs1) as [fs2 Ec].
    unfold bind at 1. rewrite Ec. unfold bind at 1.
    match goal with |- context [tryCatch ?m _ fs2] =>
      destruct (swallow_returns m fs2) as [fs3 Es] end.
    rewrite Es. unfold ret. eexists _, fs3. split; reflexivity.
Qed.

(** X29. The tasks of a round leave their results behind: when
    [processAll] has gone through its tasks, the file <id>.json of the
    last task in the results directory holds a result for that id, as
    [JSON.stringify] prints it.  A result that cannot be written ends the
    round: [processAll] throws what [writeResult] throws and the tasks
    after it are not processed. *)
Theorem X29_processAll_leaves_results (tasks : list Task.Task)
    (task : Task.Task) (rest : list Task.Task) (fs fs' : gmap string node) :
  let resultsDir := Path.join [Loop.handoffPath config; Loop.DIRS.results] in
  (Loop.processAll h tools config (tasks ++ [task]) fs = (Ok tt, fs') ->
   exists r,
     Result.taskId r = Task.id task /\
     FsSafe.read h (Path.join [resultsDir; Task.id task ++ ".json"])
                 (Loop.repoPath config) fs'
     = (Ok (JSON_stringify h (Result.toJson r)), fs')) /\
  (forall r fs1 e fs2,
     Loop.processTask h tools config task fs = (Ok r, fs1) ->
     Result.writeResult h r resultsDir (Loop.repoPath config) fs1
     = (Throw e, fs2) ->
     Loop.processAll h tools config (task :: rest) fs = (Throw e, fs2)).
Proof.
  cbv zeta. split.
  - revert fs. induction tasks as [|t tasks IH]; intros fs H.
    + cbn [List.app Loop.processAll] in H. unfold bind at 1 in H.
      destruct (processTask_returns task fs) as (r & fs1 & Ep & Hid).
      rewrite Ep in H. unfold bind in H.
      destruct (Result.writeResult h r _ _ fs1) as [[[]|e] fs2] eqn:Ew;
        [|discriminate].
      unfold ret in H. injection H as <-.
      exists r. split; [exact Hid|].
      unfold Result.writeResult in Ew. rewrite Hid in Ew.
      apply writeAtomic_ok in Ew as [Hc Hl].
      rewrite read_spec, Hc, Hl. reflexivity.
    + cbn [List.app Loop.processAll] in H. unfold bind at 1 in H.
      destruct (Loop.processTask h tools config t fs) as [[r|e] fs1];
        [|discriminate].
      unfold bind at 1 in H.
      destruct (Result.writeResult h r _ _ fs1) as [[[]|e] fs2];
        [|discriminate].
      exact (IH fs2 H).
  - intros r fs1 e fs2 Ep Ew. cbn [Loop.processAll]. unfold bind at 1.
    rewrite Ep. unfold bind at 1. now rewrite Ew.
Qed.

End ProcessAllFacts.

(** ** The theorems on the example repository and the example queue *)

(** From the first component of a run, computed, to the run as a pair. *)
Ltac run_from Ef :=
  match type of Ef with
  | fst ?m = _ =>
      let E := fresh "E" in
      pose proof (surjective_pairing m) as E; rewrite Ef in E
  end.

Lemma X8_escape_is_refused_witness :
  FsSafe.isContained Example.quietHost "/etc/passwd" "/repo" = false /\
  FsSafe.unlink Example.quietHost "/etc/passwd" "/repo" withPasswd
  = (Throw (PathEscapeError "Path /etc/passwd escapes root /repo"),
     withPasswd).
Proof.
  split; [reflexivity|].
  pose proof (X8_escape_is_refused Example.quietHost "/etc/passwd" ""
                "/repo" withPasswd eq_refl) as H.
  cbv zeta in H. exact (proj1 (proj2 (proj2 H))).
Defined.

Lemma X9_read_after_writeAtomic_witness :
  let h := Example.quietHost in
  let fs' := snd (FsSafe.writeAtomic h "src/new.txt" "new" "/repo"
                    exampleRepo) in
  FsSafe.writeAtomic h "src/new.txt" "new" "/repo" exampleRepo = (Ok tt, fs')
  /\ FsSafe.read h "src/new.txt" "/repo" fs' = (Ok "new", fs')
  /\ FsSafe.exists_ h "src/new.txt" "/repo" fs' = (Ok true, fs').
Proof.
  cbv zeta.
  assert (Ef : fst (FsSafe.writeAtomic Example.quietHost "src/new.txt" "new"
                      "/repo" exampleRepo) = Ok tt)
    by (vm_compute; reflexivity).
  run_from Ef.
  split; [exact E|].
  exact (X9_read_after_writeAtomic Example.quietHost _ _ _ _ _ E).
Defined.


Lemma X12_unlink_after_writeAtomic_witness :
  let h := Example.quietHost in
  let fs' := snd (FsSafe.writeAtomic h "out.txt" "new" "/repo"
                    exampleRepo) in
  FsSafe.writeAtomic h "out.txt" "new" "/repo" exampleRepo = (Ok tt, fs') /\
  fault h (OpUnlink (Path.resolve (cwd h) "out.txt")) = false /\
  exists fs'',
    FsSafe.unlink h "out.txt" "/repo" fs' = (Ok tt, fs'') /\
    FsSafe.exists_ h "out.txt" "/repo" fs'' = (Ok false, fs'') /\
    Fs.lstat fs'' (Path.resolve (cwd h) "out.txt") = None /\
    forall q, q <> Path.resolve (cwd h) "out.txt" ->
              Fs.lstat fs'' q = Fs.lstat fs' q.
Proof.
  cbv zeta.
  assert (Ef : fst (FsSafe.writeAtomic Example.quietHost "out.txt" "new"
                      "/repo" exampleRepo) = Ok tt)
    by (vm_compute; reflexivity).
  run_from Ef.
  split; [exact E|]. split; [reflexivity|].
  exact (X12_unlink_after_writeAtomic Example.quietHost _ _ _ _ _ E eq_refl).
Defined.

Lemma X15_moveTask_moves_witness :
  let h := Queue.host [] (fun names => names) in
  let fs' := snd (Loop.moveTask h Queue.config "lo" "tasks" "running"
                    oneTask) in
  Loop.moveTask h Queue.config "lo" "tasks" "running" oneTask = (Ok tt, fs')
  /\ exists content,
       Fs.lstat oneTask "/repo/.ai-handoff/tasks/lo.json"
       = Some (File content) /\
       Fs.lstat fs' "/repo/.ai-handoff/tasks/lo.json" = None /\
       ("/repo/.ai-handoff/tasks/lo.json" <> "/repo/.ai-handoff/running/lo.json"
        -> Fs.lstat fs' "/repo/.ai-handoff/running/lo.json"
           = Some (File content)).
Proof.
  cbv zeta.
  assert (Ef : fst (Loop.moveTask (Queue.host [] (fun names => names))
                      Queue.config "lo" "tasks" "running" oneTask) = Ok tt)
    by (vm_compute; reflexivity).
  run_from Ef.
  split; [exact E|].
  exact (X15_moveTask_moves (Queue.host [] (fun names => names)) Queue.config
           _ _ _ _ _ E).
Defined.

Lemma X16_lock_is_written_and_released_witness :
  let h := Queue.host [] (fun names => names) in
  let fs' := snd (Loop.acquireWorkerLock h Queue.config Queue.handoff) in
  let path := Some (Loop.lockPath Queue.config) in
  Loop.acquireWorkerLock h Queue.config Queue.handoff = (Ok (true, path), fs')
  /\ FsSafe.read h (Loop.lockPath Queue.config) "/repo" fs'
     = (Ok (JSON_stringify h
              (JObj [ ("pid", JNum 100);
                      ("acquired", JStr "2024-01-01T00:05:00.000Z");
                      ("hostname", JStr "hostA") ])), fs').
Proof.
  cbv zeta.
  assert (Ef : fst (Loop.acquireWorkerLock (Queue.host [] (fun names => names))
                      Queue.config Queue.handoff)
               = Ok (true, Some (Loop.lockPath Queue.config)))
    by (vm_compute; reflexivity).
  run_from Ef.
  split; [exact E|].
  exact (proj1 (proj2
           (X16_lock_is_written_and_released
              (Queue.host [] (fun names => names)) Queue.config _ _ _ E))).
Defined.

Lemma X18_writeResult_read_back_witness :
  let h := Queue.host [] (fun names => names) in
  let dir := "/repo/.ai-handoff/results" in
  let fs' := snd (Result.writeResult h bearerResult dir "/repo"
                    Queue.handoff) in
  Result.writeResult h bearerResult dir "/repo" Queue.handoff = (Ok tt, fs')
  /\ FsSafe.read h "/repo/.ai-handoff/results/t1.json" "/repo" fs'
     = (Ok (JSON_stringify h (Result.toJson bearerResult)), fs').
Proof.
  cbv zeta.
  assert (Ef : fst (Result.writeResult (Queue.host [] (fun names => names))
                      bearerResult "/repo/.ai-handoff/results" "/repo"
                      Queue.handoff) = Ok tt)
    by (vm_compute; reflexivity).
  run_from Ef.
  split; [exact E|].
  exact (proj1 (X18_writeResult_read_back (Queue.host [] (fun names => names))
                  bearerResult _ _ _ _ E)).
Defined.

Lemma X19_capOutput_counts_twice_witness :
  let output := "Bearer abcdefghijklmno" in
  JsString.byteLength output <= LogCap.MAX_OUTPUT_BYTES /\
  exists out,
    LogCap.capOutput Example.quietHost output "/repo/.ai-handoff/logs" "t1" 0
                     LogCap.stdout "/repo" exampleRepo = (Ok out, exampleRepo)
    /\ LogCap.secretsDetected out = Scanner.containsSecrets output
    /\ (LogCap.secretsDetected out = true <-> 0 < LogCap.secretCount out)
    /\ (0 < String.length output <= Scanner.OVERLAP_BUFFER_SIZE ->
        LogCap.secretCount out
        = 2 * List.length (Scanner.findMatches (Scanner.new []) output 0)).
Proof.
  cbv zeta.
  assert (Hle : JsString.byteLength "Bearer abcdefghijklmno"
                <= LogCap.MAX_OUTPUT_BYTES)
    by (change (22 <= 10 * 1024); lia).
  split; [exact Hle|].
  exact (X19_capOutput_counts_twice Example.quietHost _ _ _ _ _ _ _ Hle).
Defined.

Lemma X20_lock_ts_refuses_witness :
  let h := Example.quietHost in
  let locks := "/repo/.ai-handoff/locks" in
  let results := "/repo/.ai-handoff/results" in
  strictlyInside h (Path.join [locks; Lock.WORKER_LOCK_FILE]) "/repo" /\
  strictlyInside h (Path.join [locks; "t1" ++ ".lock"]) "/repo" /\
  strictlyInside h (Path.join [results; "t1" ++ ".json"]) "/repo" /\
  LockFile.acquireTaskLock h locks "t1" "/repo" exampleRepo
  = (Throw (PathEscapeError
              "Path /repo escapes root /repo/.ai-handoff/locks/t1.lock"),
     exampleRepo).
Proof.
  cbv zeta.
  assert (H1 : strictlyInside Example.quietHost
                 (Path.join ["/repo/.ai-handoff/locks"; Lock.WORKER_LOCK_FILE])
                 "/repo")
    by (split; [reflexivity | intros E; vm_compute in E; discriminate E]).
  assert (H2 : strictlyInside Example.quietHost
                 (Path.join ["/repo/.ai-handoff/locks"; "t1" ++ ".lock"])
                 "/repo")
    by (split; [reflexivity | intros E; vm_compute in E; discriminate E]).
  assert (H3 : strictlyInside Example.quietHost
                 (Path.join ["/repo/.ai-handoff/results"; "t1" ++ ".json"])
                 "/repo")
    by (split; [reflexivity | intros E; vm_compute in E; discriminate E]).
  split; [exact H1|]. split; [exact H2|]. split; [exact H3|].
  pose proof (X20_lock_ts_refuses Example.quietHost _ _ _ _ exampleRepo
                H1 H2 H3) as H.
  cbv zeta in H. exact (proj1 (proj2 (proj2 H))).
Defined.

Lemma X25_init_makes_the_tree_witness :
  let h := Example.quietHost in
  let fs' := snd (WatcherInit.init h Queue.config bareRepo) in
  WatcherInit.init h Queue.config bareRepo = (Ok tt, fs') /\
  Forall (fun dir =>
            Fs.lstat fs'
              (Path.resolve (cwd h)
                 (Path.join [Loop.handoffPath Queue.config; dir])) = Some Dir)
         WatcherInit.dirValues.
Proof.
  cbv zeta.
  assert (Ef : fst (WatcherInit.init Example.quietHost Queue.config bareRepo)
               = Ok tt)
    by (vm_compute; reflexivity).
  run_from Ef.
  split; [exact E|].
  exact (proj1 (proj2
           (X25_init_makes_the_tree Example.quietHost Queue.config _ _ E))).
Defined.

Lemma X26_init_again_changes_nothing_witness :
  let h := Example.quietHost in
  let fs' := snd (WatcherInit.init h Queue.config exampleRepo) in
  WatcherInit.init h Queue.config exampleRepo = (Ok tt, fs') /\
  WatcherInit.init h Queue.config fs' = (Ok tt, fs').
Proof.
  cbv zeta.
  assert (Ef : fst (WatcherInit.init Example.quietHost Queue.config
                      exampleRepo) = Ok tt)
    by (vm_compute; reflexivity).
  run_from Ef.
  split; [exact E|].
  exact (X26_init_again_changes_nothing Example.quietHost Queue.config _ _ E).
Defined.

Lemma X27_incident_holds_names_only_witness :
  let h := Queue.host [bearerTask] (fun names => names) in
  let fs := Queue.withTasks [("t1.json", Queue.text bearerTask)] in
  let tools := Queue.tools "Bearer abcdefghijklmno" 0 in
  fst (Loop.processTask h tools Queue.config (validated bearerTask) fs)
  = Ok bearerResult /\
  Result.status bearerResult = Result.SecretDetected /\
  exists incident,
    Result.secretIncident bearerResult = Some incident /\
    Result.patterns incident <> [] /\
    List.NoDup (Result.patterns incident) /\
    String.length (Result.incidentHash incident) = 16.
Proof.
  cbv zeta.
  assert (Ef : fst (Loop.processTask
                      (Queue.host [bearerTask] (fun names => names))
                      (Queue.tools "Bearer abcdefghijklmno" 0) Queue.config
                      (validated bearerTask)
                      (Queue.withTasks [("t1.json", Queue.text bearerTask)]))
               = Ok bearerResult) by (vm_compute; reflexivity).
  split; [exact Ef|]. split; [reflexivity|].
  run_from Ef.
  destruct (X27_incident_holds_names_only _ _ _ _ _ _ _ E eq_refl)
    as (incident & Hinc & Hne & Hnd & _ & _ & Hlen & _).
  exists incident. repeat split; assumption.
Defined.

Lemma X28_run_gives_the_lock_back_witness :
  let h := Queue.host [] (fun names => names) in
  let tools := Queue.tools "" 0 in
  let fs1 := snd (Loop.acquireWorkerLock h Queue.config Queue.handoff) in
  let lockFile := "/repo/.ai-handoff/locks/__worker__.lock" in
  Path.resolve (cwd h) (Loop.lockPath Queue.config) = lockFile /\
  Loop.acquireWorkerLock h Queue.config Queue.handoff
  = (Ok (true, Some (Loop.lockPath Queue.config)), fs1) /\
  Loop.run h tools Queue.config 1 Queue.handoff
  = (Ok tt, delete lockFile fs1).
Proof.
  cbv zeta.
  assert (Ef : fst (Loop.acquireWorkerLock (Queue.host [] (fun names => names))
                      Queue.config Queue.handoff)
               = Ok (true, Some (Loop.lockPath Queue.config)))
    by (vm_compute; reflexivity).
  run_from Ef.
  split; [reflexivity|]. split; [exact E|].
  pose proof (proj2 (proj2
                (X28_run_gives_the_lock_back
                   (Queue.host [] (fun names => names)) (Queue.tools "" 0)
                   Queue.config 1 _ _ _ eq_refl eq_refl E eq_refl))) as H.
  cbv zeta in H.
  replace (fst (Task.loadTasks (Queue.host [] (fun names => names))
                  (Path.join [Loop.handoffPath Queue.config; Loop.DIRS.tasks])
                  (Loop.repoPath Queue.config)
                  (snd (Loop.acquireWorkerLock
                          (Queue.host [] (fun names => names))
                          Queue.config Queue.handoff))))
    with (@Ok (list Task.Task) []) in H by (vm_compute; reflexivity).
  exact H.
Defined.

Lemma X29_processAll_leaves_results_witness :
  let h := Queue.host [Queue.lo] (fun names => names) in
  let tools := Queue.tools "" 0 in
  let fs' := snd (Loop.processAll h tools Queue.config [validated Queue.lo]
                    oneTask) in
  Loop.processAll h tools Queue.config [validated Queue.lo] oneTask
  = (Ok tt, fs') /\
  exists r,
    Result.taskId r = "lo" /\
    FsSafe.read h "/repo/.ai-handoff/results/lo.json" "/repo" fs'
    = (Ok (JSON_stringify h (Result.toJson r)), fs').
Proof.
  cbv zeta.
  assert (Ef : fst (Loop.processAll (Queue.host [Queue.lo] (fun names => names))
                      (Queue.tools "" 0) Queue.config [validated Queue.lo]
                      oneTask) = Ok tt)
    by (vm_compute; reflexivity).
  run_from Ef.
  split; [exact E|].
  exact (proj1 (X29_processAll_leaves_results
                  (Queue.host [Queue.lo] (fun names => names))
                  (Queue.tools "" 0) Queue.config [] (validated Queue.lo) []
                  oneTask _) E).
Defined.
